(** * The RxJS teaching socket server: stream emission engine

    A shallow embedding of [RxJSSocketServer] (rxjs-socket-server.js) and of
    the stream-control routes of rxjs-demo-routes.js.

    The server object, the closures created by [startStream], the Node timer
    queue and the socket.io output are one explicit [State]; every method is a
    state-passing computation in the monad [M].  One step of the machine is
    one turn of the event loop: either a timer fires or a request arrives. *)

From Stdlib Require Import ZArith QArith Qround.
From stdpp Require Import gmap strings list pretty.

Local Open Scope string_scope.
Local Open Scope list_scope.
Local Open Scope Z_scope.

(** ** Data model *)

(** The [config] object as received: every property may be missing
    ([undefined]). *)
Record Config := {
  cfg_streamName : option string;
  cfg_interval : option Z;
  cfg_duration : option Z;
  cfg_errorRate : option Q;
  cfg_duplicateRate : option Q;
  cfg_delayVariation : option Z;
  cfg_burstMode : option bool;
  cfg_burstSize : option Z;
  cfg_burstInterval : option Z
}.

(** Objects built by [generateBookData] and [generateIssueData].  Timestamps
    are kept as epoch milliseconds ([toISOString] is a function of them). *)
Record BookData := {
  book_id : Z;
  title : string;
  author : string;
  isbn : string;
  publishedYear : Z;
  available : bool;
  book_timestamp : Z;
  category : string
}.

Record IssueData := {
  issue_id : Z;
  bookId : Z;
  userId : Z;
  userName : string;
  issueType : string;
  issue_timestamp : Z;
  dueDate : option Z;
  fine : Z;
  notes : string
}.

Inductive Data :=
  | Book (b : BookData)
  | Issue (i : IssueData).

(** Arguments of the events sent through socket.io. *)
Inductive Payload :=
  | PData (d : Data)
  | PError (error message : string) (timestamp : Z)
  | PComplete (name : string) (totalEmissions : Z) (elapsed : Z)
  | PStarted (name : string) (config : Config)
  | PStopped (name : string)
  | PConfigs (configs : gmap string Config).

(** [IoEmit] is [this.io.emit] (every connected client); [SocketEmit] is
    [socket.emit] on one connection. *)
Inductive Event :=
  | IoEmit (channel : string) (p : Payload)
  | SocketEmit (conn : nat) (channel : string) (p : Payload).

(** The [socket] argument of [startStream]: a real connection, or the object
    [{ emit: () => {} }] the HTTP routes pass. *)
Inductive Socket :=
  | Conn (id : nat)
  | NoopSocket.

(** The variables a call of [startStream] closes over.  The destructured
    configuration and [startTime] are constants; [emissionCount] and
    [lastEmittedData] are the two [let] variables. *)
Record Closure := {
  streamName : string;
  interval : Z;
  duration : Z;
  errorRate : Q;
  duplicateRate : Q;
  delayVariation : Z;
  burstMode : bool;
  burstSize : Z;
  burstInterval : Z;
  startTime : Z;
  emissionCount : Z;
  lastEmittedData : option Data
}.

(** The functions handed to [setInterval] and [setTimeout]; [sid] names the
    closure they belong to. *)
Inductive Callback :=
  | CbEmitData (sid : nat)
  | CbBurst (sid : nat)
  | CbBroadcast (sid : nat) (data : Data).

Definition cb_sid (cb : Callback) : nat :=
  match cb with
  | CbEmitData sid | CbBurst sid | CbBroadcast sid _ => sid
  end.

(** A pending Node timer: [t_repeat] is the period of an interval timer and
    [None] for a one-shot timeout. *)
Record Timer := {
  tid : nat;
  t_repeat : option Z;
  t_due : Z;
  t_cb : Callback
}.

(** The values of [activeStreams]. *)
Record ActiveStream := {
  intervalId : nat;
  as_config : Config;
  as_startTime : Z;
  as_closure : nat
}.

Record State := {
  now : Z;
  drawn : nat;
  activeStreams : gmap string ActiveStream;
  streamConfigs : gmap string Config;
  closures : list Closure;
  timers : list Timer;
  nextTimer : nat;
  emitted : list Event
}.

Definition init : State :=
  {| now := 0; drawn := 0; activeStreams := ∅; streamConfigs := ∅;
     closures := []; timers := []; nextTimer := 1; emitted := [] |}.

(** Field updates. *)
Definition with_now (t : Z) (s : State) : State :=
  {| now := t; drawn := drawn s; activeStreams := activeStreams s;
     streamConfigs := streamConfigs s; closures := closures s;
     timers := timers s; nextTimer := nextTimer s; emitted := emitted s |}.

Definition with_drawn (n : nat) (s : State) : State :=
  {| now := now s; drawn := n; activeStreams := activeStreams s;
     streamConfigs := streamConfigs s; closures := closures s;
     timers := timers s; nextTimer := nextTimer s; emitted := emitted s |}.

Definition with_maps (a : gmap string ActiveStream) (c : gmap string Config)
    (s : State) : State :=
  {| now := now s; drawn := drawn s; activeStreams := a; streamConfigs := c;
     closures := closures s; timers := timers s; nextTimer := nextTimer s;
     emitted := emitted s |}.

Definition with_closures (l : list Closure) (s : State) : State :=
  {| now := now s; drawn := drawn s; activeStreams := activeStreams s;
     streamConfigs := streamConfigs s; closures := l;
     timers := timers s; nextTimer := nextTimer s; emitted := emitted s |}.

Definition with_timers (l : list Timer) (next : nat) (s : State) : State :=
  {| now := now s; drawn := drawn s; activeStreams := activeStreams s;
     streamConfigs := streamConfigs s; closures := closures s;
     timers := l; nextTimer := next; emitted := emitted s |}.

Definition with_emitted (l : list Event) (s : State) : State :=
  {| now := now s; drawn := drawn s; activeStreams := activeStreams s;
     streamConfigs := streamConfigs s; closures := closures s;
     timers := timers s; nextTimer := nextTimer s; emitted := l |}.

(** ** The state monad *)

Definition M (A : Type) : Type := State → A * State.

Global Instance M_ret : MRet M := fun A a s => (a, s).

Global Instance M_bind : MBind M := fun A B k m s =>
  let (a, s') := m s in k a s'.

Definition exec {A} (m : M A) (s : State) : State := snd (m s).

Definition get {A} (f : State → A) : M A := fun s => (f s, s).

Definition modify (f : State → State) : M unit := fun s => (tt, f s).

(** ** Comparisons on JS numbers *)

Definition Qltb (x y : Q) : bool := negb (Qle_bool y x).

(** [Math.floor] *)
Definition floor (x : Q) : Z := Qfloor x.

(** ** Arithmetic on doubles

    JS numbers are IEEE 754 binary64 values: the result of a product or a
    sum is the double nearest to the exact result, ties going to the even
    significand.  [binary64 q] is that double, for [q] below the overflow
    threshold.  It is applied where a rounded result is used in further
    arithmetic ([Math.random() * index + 1]).  A product
    [Math.random() * n] that is floored or compared at once is kept exact:
    rounded, it is still below [n]. *)

(** The nearest integer, ties to even. *)
Definition round_half_even (q : Q) : Z :=
  let f := Qfloor q in
  match Qcompare (q - inject_Z f) (1 # 2) with
  | Lt => f
  | Gt => f + 1
  | Eq => if Z.even f then f else f + 1
  end.

(** [q * 2^e] *)
Definition scale (q : Q) (e : Z) : Q :=
  if 0 <=? e then (q * inject_Z (2 ^ e))%Q else (q / inject_Z (2 ^ (- e)))%Q.

(** The exponent of the last place of the 53-bit significand of [q >= 0]:
    [floor (log2 q) - 52], and -1074 for the subnormal numbers. *)
Definition ulp_exponent (q : Q) : Z :=
  Z.max (-1074)
    ((if Qle_bool 1 q then Z.log2 (Qfloor q) else - Z.log2_up (Qceiling (/ q)))
     - 52).

Definition binary64 (q : Q) : Q :=
  if Qle_bool 0 q
  then let e := ulp_exponent q in
       scale (inject_Z (round_half_even (scale q (- e)))) e
  else let e := ulp_exponent (- q) in
       (- scale (inject_Z (round_half_even (scale (- q) (- e)))) e)%Q.

(** ** The environment: clock, random source, timers, sockets *)

Section Engine.

(** The successive results of [Math.random()]. *)
Variable random : nat → Q.

Definition Date_now : M Z := get now.

Definition Math_random : M Q := fun s =>
  (random (drawn s), with_drawn (S (drawn s)) s).

Definition emit (e : Event) : M unit :=
  modify (fun s => with_emitted (emitted s ++ [e]) s).

Definition io_emit (channel : string) (p : Payload) : M unit :=
  emit (IoEmit channel p).

Definition socket_emit (socket : Socket) (channel : string) (p : Payload) : M unit :=
  match socket with
  | Conn id => emit (SocketEmit id channel p)
  | NoopSocket => mret tt
  end.

(** Node replaces a delay outside [1, 2^31 - 1] by 1 and truncates it. *)
Definition TIMEOUT_MAX : Z := 2147483647.

Definition timer_delay (after : Q) : Z :=
  if Qle_bool 1 after && Qle_bool after (inject_Z TIMEOUT_MAX)
  then floor after else 1.

Definition add_timer (rep : option Z) (cb : Callback) (delay : Z) : M nat := fun s =>
  (nextTimer s,
   with_timers
     (timers s ++
      [{| tid := nextTimer s; t_repeat := rep; t_due := now s + delay; t_cb := cb |}])
     (S (nextTimer s)) s).

Definition setTimeout (cb : Callback) (after : Q) : M nat :=
  add_timer None cb (timer_delay after).

Definition setInterval (cb : Callback) (after : Z) : M nat :=
  let d := timer_delay (inject_Z after) in add_timer (Some d) cb d.

Definition clearInterval (id : nat) : M unit :=
  modify (fun s =>
    with_timers (filter (fun t => tid t ≠ id) (timers s)) (nextTimer s) s).

(** Allocation of, and assignment to, the closure variables. *)
Definition new_closure (c : Closure) : M nat := fun s =>
  (length (closures s), with_closures (closures s ++ [c]) s).

Definition set_closure (sid : nat) (c : Closure) : M unit :=
  modify (fun s => with_closures (<[sid := c]> (closures s)) s).

Definition set_maps (a : gmap string ActiveStream) (c : gmap string Config) : M unit :=
  modify (with_maps a c).

(** [emissionCount++] *)
Definition incr_emissionCount (c : Closure) : Closure :=
  {| streamName := streamName c; interval := interval c; duration := duration c;
     errorRate := errorRate c; duplicateRate := duplicateRate c;
     delayVariation := delayVariation c; burstMode := burstMode c;
     burstSize := burstSize c; burstInterval := burstInterval c;
     startTime := startTime c; emissionCount := emissionCount c + 1;
     lastEmittedData := lastEmittedData c |}.

(** [lastEmittedData = data] *)
Definition assign_lastEmittedData (data : Data) (c : Closure) : Closure :=
  {| streamName := streamName c; interval := interval c; duration := duration c;
     errorRate := errorRate c; duplicateRate := duplicateRate c;
     delayVariation := delayVariation c; burstMode := burstMode c;
     burstSize := burstSize c; burstInterval := burstInterval c;
     startTime := startTime c; emissionCount := emissionCount c;
     lastEmittedData := Some data |}.

Definition update_closure (sid : nat) (f : Closure → Closure) : M unit := fun s =>
  match closures s !! sid with
  | Some c => set_closure sid (f c) s
  | None => (tt, s)
  end.

(** ** Data generators *)

Definition bookTitles : list string :=
  ["The Midnight Library"; "Project Hail Mary"; "Dune Messiah";
   "Foundation's Edge"; "The Way of Kings"; "Name of the Wind";
   "Neuromancer"; "Snow Crash"; "Ready Player Two";
   "The Hobbit Returns"; "Ender's Shadow"; "Hyperion Cantos";
   "The Expanse: Leviathan"; "Red Rising: Golden Son"; "Mistborn: Shadows"].

Definition issueTypes : list string :=
  ["borrowed"; "returned"; "renewed"; "damaged"; "lost"; "reserved"; "overdue"].

Definition users : list string :=
  ["Alice Johnson"; "Bob Smith"; "Charlie Brown"; "Diana Prince";
   "Ethan Hunt"; "Fiona Green"; "George Wilson"; "Hannah Lee"].

Definition categories : list string :=
  ["Fiction"; "Science"; "History"; "Technology"; "Fantasy"].

(** [arr[i]] read into a template or a property: a missing element is
    [undefined]. *)
Definition at_index (arr : list string) (i : Z) : string :=
  if i <? 0 then "undefined" else nth (Z.to_nat i) arr "undefined".

(** [arr[Math.floor(Math.random() * arr.length)]] *)
Definition pick (arr : list string) : M string :=
  r ← Math_random;
  mret (at_index arr (floor (r * inject_Z (Z.of_nat (length arr))))).

(** [Math.floor(Math.random() * n)] *)
Definition random_below (n : Z) : M Z :=
  r ← Math_random ; mret (floor (r * inject_Z n)).

Definition generateBookData (index : Z) : M BookData :=
  let id := 1000 + index in
  title ← pick bookTitles;
  randomSuffix ← random_below 100;
  author ← pick users;
  isbn1 ← random_below 10;
  isbn2 ← random_below 100000000;
  year ← random_below 24;
  avail ← Math_random;
  timestamp ← Date_now;
  category ← pick categories;
  mret {| book_id := id;
         title := title +:+ " #" +:+ pretty randomSuffix;
         author := author;
         isbn := "978-" +:+ pretty isbn1 +:+ pretty isbn2;
         publishedYear := 2000 + year;
         available := Qltb (3 # 10) avail;
         book_timestamp := timestamp;
         category := category |}.

(** In [bookId] the product [Math.random() * index] is rounded, and then
    its sum with 1. *)
Definition generateIssueData (index : Z) : M IssueData :=
  r ← Math_random;
  let bookId := 1000 + floor (binary64 (binary64 (r * inject_Z index) + 1)) in
  issueType ← pick issueTypes;
  userId ← random_below 100;
  userName ← pick users;
  timestamp ← Date_now;
  dueDate ← (if String.eqb issueType "borrowed"
             then t ← Date_now ; mret (Some (t + 14 * 24 * 60 * 60 * 1000))
             else mret None);
  fine ← (if String.eqb issueType "overdue"
          then f ← random_below 50 ; mret (f + 5)
          else mret 0);
  mret {| issue_id := 5000 + index;
         bookId := bookId;
         userId := userId + 1;
         userName := userName;
         issueType := issueType;
         issue_timestamp := timestamp;
         dueDate := dueDate;
         fine := fine;
         notes := issueType +:+ " operation for book " +:+ pretty bookId |}.

(** ** The registry *)

(** [configs[name] = config] on a plain object: the name ['__proto__'] is
    the accessor inherited from [Object.prototype], and assigning to it sets
    the prototype of [configs] and adds no property. *)
Definition assign_property (name : string) (config : Config)
    (configs : gmap string Config) : gmap string Config :=
  if decide (name = "__proto__") then configs else <[name := config]> configs.

(** The plain object built from the map [streamConfigs], given by its own
    properties. *)
Definition getStreamConfigs : M (gmap string Config) :=
  m ← get streamConfigs;
  mret (map_fold assign_property ∅ m).

Definition stopStream (name : string) : M unit := fun s =>
  match activeStreams s !! name with
  | Some stream =>
      (clearInterval (intervalId stream);;
       set_maps (delete name (activeStreams s)) (delete name (streamConfigs s));;
       io_emit "stream-stopped" (PStopped name)) s
  | None => (tt, s)
  end.

(** ** One emission attempt *)

(** The last part of [emitData] (lines "Generate data" to the end):
    reached when neither an error nor a duplicate was sent. *)
Definition emitFresh (sid : nat) (c : Closure) : M unit :=
  data ← (if String.eqb (streamName c) "books"
          then b ← generateBookData (emissionCount c); mret (Book b)
          else i ← generateIssueData (emissionCount c); mret (Issue i));
  update_closure sid (assign_lastEmittedData data);;
  (* Apply delay variation *)
  emitDelay ← (if 0 <? delayVariation c
               then r ← Math_random; mret (r * inject_Z (delayVariation c))%Q
               else mret 0%Q);
  setTimeout (CbBroadcast sid data) emitDelay;;
  mret tt.

Definition emitData (sid : nat) : M unit := fun s =>
  match closures s !! sid with
  | None => (tt, s)
  | Some c =>
    (t ← Date_now;
     let elapsed := t - startTime c in
     if duration c <=? elapsed then
       (* Check if duration exceeded *)
       stopStream (streamName c);;
       io_emit (streamName c +:+ "-complete")
               (PComplete (streamName c) (emissionCount c) elapsed)
     else
       err ← (if Qltb 0 (errorRate c)
              then r ← Math_random; mret (Qltb (r * 100) (errorRate c))
              else mret false);
       if err : bool then
         (* Check for error injection *)
         t ← Date_now;
         io_emit (streamName c +:+ "-error")
                 (PError "Simulated error"
                         "Random error for teaching error handling operators" t)
       else
         roll ← (if Qltb 0 (duplicateRate c)
                 then r ← Math_random; mret (Qltb (r * 100) (duplicateRate c))
                 else mret false);
         match roll : bool, lastEmittedData c return M unit with
         | true, Some last =>
             (* Check for duplicate *)
             io_emit (streamName c) (PData last);;
             update_closure sid incr_emissionCount
         | _, _ => emitFresh sid c
         end) s
  end.

(** The arrow function of the delayed broadcast:
    [() => { this.io.emit(streamName, data); emissionCount++; }] *)
Definition broadcast (sid : nat) (data : Data) : M unit := fun s =>
  match closures s !! sid with
  | None => (tt, s)
  | Some c =>
      (io_emit (streamName c) (PData data);;
       update_closure sid incr_emissionCount) s
  end.

(** [for (const x of l) body(x)] *)
Fixpoint for_each {A} (l : list A) (body : A → M unit) : M unit :=
  match l with
  | [] => mret tt
  | x :: l' => body x;; for_each l' body
  end.

(** The arrow function of the burst timer: [burstSize] attempts, 100 ms
    apart. *)
Definition burst (sid : nat) : M unit := fun s =>
  match closures s !! sid with
  | None => (tt, s)
  | Some c =>
      for_each (seqZ 0 (burstSize c))
        (fun i => setTimeout (CbEmitData sid) (inject_Z (i * 100));; mret tt) s
  end.

Definition run_callback (cb : Callback) : M unit :=
  match cb with
  | CbEmitData sid => emitData sid
  | CbBurst sid => burst sid
  | CbBroadcast sid data => broadcast sid data
  end.

(** ** Starting and stopping *)

Definition activeStreams_set (name : string) (a : ActiveStream) : M unit := fun s =>
  set_maps (<[name := a]> (activeStreams s)) (streamConfigs s) s.

Definition streamConfigs_set (name : string) (c : Config) : M unit := fun s =>
  set_maps (activeStreams s) (<[name := c]> (streamConfigs s)) s.

Definition startStream (socket : Socket) (config : Config) : M unit :=
  let streamName := default "books" (cfg_streamName config) in
  let interval := default 3000 (cfg_interval config) in
  let duration := default 120000 (cfg_duration config) in
  let errorRate := default 0%Q (cfg_errorRate config) in
  let duplicateRate := default 0%Q (cfg_duplicateRate config) in
  let delayVariation := default 0 (cfg_delayVariation config) in
  let burstMode := default false (cfg_burstMode config) in
  let burstSize := default 3 (cfg_burstSize config) in
  let burstInterval := default 10000 (cfg_burstInterval config) in
  (* Stop existing stream if running *)
  stopStream streamName;;
  streamConfigs_set streamName config;;
  startTime ← Date_now;
  sid ← new_closure
    {| streamName := streamName; interval := interval; duration := duration;
       errorRate := errorRate; duplicateRate := duplicateRate;
       delayVariation := delayVariation; burstMode := burstMode;
       burstSize := burstSize; burstInterval := burstInterval;
       startTime := startTime; emissionCount := 0; lastEmittedData := None |};
  intervalId ← (if burstMode
                then setInterval (CbBurst sid) burstInterval
                else id ← setInterval (CbEmitData sid) interval;
                     emitData sid;;
                     mret id);
  activeStreams_set streamName
    {| intervalId := intervalId; as_config := config;
       as_startTime := startTime; as_closure := sid |};;
  socket_emit socket "stream-started" (PStarted streamName config).

(** [activeStreams.forEach((stream, name) => this.stopStream(name))].  The
    names are visited in the order of [map_to_list]. *)
Definition stopAllStreams : M unit := fun s =>
  for_each (map_to_list (activeStreams s)).*1 stopStream s.

(** ** Socket handlers *)

Definition on_connection (conn : nat) : M unit :=
  configs ← getStreamConfigs;
  socket_emit (Conn conn) "stream-configs" (PConfigs configs).

Definition on_start_stream (conn : nat) (config : Config) : M unit :=
  startStream (Conn conn) config.

Definition on_stop_stream (name : string) : M unit := stopStream name.

Definition on_get_configs (conn : nat) : M unit :=
  configs ← getStreamConfigs;
  socket_emit (Conn conn) "stream-configs" (PConfigs configs).

(** ** The event loop *)

Inductive Action :=
  | Fire (id : nat)
  | Connection (conn : nat)
  | StartStreamMsg (conn : nat) (config : Config)
  | StopStreamMsg (name : string)
  | GetConfigsMsg (conn : nat)
  | CallStartStream (config : Config)
  | CallStopStream (name : string)
  | CallStopAllStreams.

Definition set_clock (t : Z) : M unit := modify (with_now t).

Definition set_timers (l : list Timer) : M unit :=
  modify (fun s => with_timers l (nextTimer s) s).

Definition find_timer (id : nat) (l : list Timer) : option Timer :=
  List.find (fun t => Nat.eqb (tid t) id) l.

(** A timer that fires leaves the queue if it is a timeout and is armed again,
    one period after the time it fired, if it is an interval. *)
Definition rearm (t : Z) (tm : Timer) (l : list Timer) : list Timer :=
  match t_repeat tm with
  | None => filter (fun x => tid x ≠ tid tm) l
  | Some d =>
      map (fun x => if Nat.eqb (tid x) (tid tm)
                    then {| tid := tid x; t_repeat := t_repeat x;
                            t_due := t + d; t_cb := t_cb x |}
                    else x) l
  end.

Definition fire (id : nat) (t : Z) (s : State) : option State :=
  match find_timer id (timers s) with
  | Some tm =>
      if t_due tm <=? t
      then Some (exec (set_timers (rearm t tm (timers s));; run_callback (t_cb tm)) s)
      else None
  | None => None
  end.

(** One turn of the event loop at time [t]. *)
Definition step (a : Action) (t : Z) (s : State) : option State :=
  if now s <=? t then
    let s := exec (set_clock t) s in
    match a with
    | Fire id => fire id t s
    | Connection conn => Some (exec (on_connection conn) s)
    | StartStreamMsg conn config => Some (exec (on_start_stream conn config) s)
    | StopStreamMsg name => Some (exec (on_stop_stream name) s)
    | GetConfigsMsg conn => Some (exec (on_get_configs conn) s)
    | CallStartStream config => Some (exec (startStream NoopSocket config) s)
    | CallStopStream name => Some (exec (stopStream name) s)
    | CallStopAllStreams => Some (exec stopAllStreams s)
    end
  else None.

Fixpoint run (l : list (Action * Z)) (s : State) : option State :=
  match l with
  | [] => Some s
  | (a, t) :: l' =>
      match step a t s with
      | Some s' => run l' s'
      | None => None
      end
  end.

Definition reachable (s : State) : Prop := ∃ l, run l init = Some s.

(** ** The stream-control routes

    [socketServerInstance] is [null] until [setSocketServer] is called; it is
    modelled as an optional engine state. *)

Inductive Body :=
  | BError (error : string)
  | BStreams (activeStreams : list string) (configs : gmap string Config)
             (totalActive : nat)
  | BStarted (message : string) (config : Config)
  | BStopped (message : string) (streamName : string)
  | BMessage (message : string).

Record Response := { status : Z; body : Body }.

(** [res.json(b)] answers with status 200. *)
Definition json (b : Body) : Response := {| status := 200; body := b |}.

Definition not_initialized : Response :=
  {| status := 503; body := BError "Socket server not initialized" |}.

(** [!config.streamName]: the property is missing or the empty string. *)
Definition missing_streamName (config : Config) : bool :=
  match cfg_streamName config with
  | None => true
  | Some name => String.eqb name ""
  end.

Definition get_streams (socketServerInstance : option State)
  : Response * option State :=
  match socketServerInstance with
  | None => (not_initialized, None)
  | Some s =>
      let configs := fst (getStreamConfigs s) in
      let names := (map_to_list (activeStreams s)).*1 in
      (json (BStreams names configs (length names)), Some s)
  end.

Definition post_streams_start (socketServerInstance : option State)
    (config : Config) : Response * option State :=
  match socketServerInstance with
  | None => (not_initialized, None)
  | Some s =>
      if missing_streamName config
      then ({| status := 400; body := BError "streamName is required" |}, Some s)
      else (json (BStarted "Stream started" config),
            Some (exec (startStream NoopSocket config) s))
  end.

Definition post_streams_stop (socketServerInstance : option State)
    (name : string) : Response * option State :=
  match socketServerInstance with
  | None => (not_initialized, None)
  | Some s =>
      (json (BStopped "Stream stopped" name), Some (exec (stopStream name) s))
  end.

Definition post_streams_stop_all (socketServerInstance : option State)
  : Response * option State :=
  match socketServerInstance with
  | None => (not_initialized, None)
  | Some s => (json (BMessage "All streams stopped"), Some (exec stopAllStreams s))
  end.

(** ** The preset route

    The catalog of [POST /presets/:presetName]: for every preset, its
    properties in the order of the object literal. *)

Definition preset_config (name : string) (interval duration : Z)
    (errorRate duplicateRate : option Q) (delayVariation : option Z)
    (burstMode : option bool) (burstSize burstInterval : option Z) : Config :=
  {| cfg_streamName := Some name; cfg_interval := Some interval;
     cfg_duration := Some duration; cfg_errorRate := errorRate;
     cfg_duplicateRate := duplicateRate; cfg_delayVariation := delayVariation;
     cfg_burstMode := burstMode; cfg_burstSize := burstSize;
     cfg_burstInterval := burstInterval |}.

Definition presets : list (string * list (string * Config)) :=
  [("basic",
    [("books", preset_config "books" 2000 60000 None None None None None None);
     ("issues", preset_config "issues" 3000 60000 None None None None None None)]);
   ("throttleDebounce",
    [("books", preset_config "books" 500 60000 None None None
                 (Some true) (Some 5) (Some 8000))]);
   ("errorHandling",
    [("books", preset_config "books" 2000 90000 (Some 20%Q) None None
                 None None None)]);
   ("distinctDuplicates",
    [("books", preset_config "books" 2000 60000 None (Some 30%Q) None
                 None None None)]);
   ("combination",
    [("books", preset_config "books" 3000 120000 None None None None None None);
     ("issues", preset_config "issues" 2000 120000 None None None None None None)]);
   ("switching",
    [("books", preset_config "books" 4000 90000 None None (Some 2000)
                 None None None);
     ("issues", preset_config "issues" 1500 90000 None None (Some 1000)
                  None None None)]);
   ("buffering",
    [("books", preset_config "books" 800 60000 None None None None None None)]);
   ("timing",
    [("books", preset_config "books" 3000 120000 None None (Some 3000)
                 None None None)])].

(** The properties every object literal inherits from [Object.prototype]:
    functions, and for [__proto__] the prototype itself.  They are truthy and
    [Object.values] of them is empty. *)
Definition Object_prototype_keys : list string :=
  ["constructor"; "__defineGetter__"; "__defineSetter__"; "hasOwnProperty";
   "__lookupGetter__"; "__lookupSetter__"; "isPrototypeOf";
   "propertyIsEnumerable"; "toString"; "valueOf"; "__proto__";
   "toLocaleString"].

(** [Object.values(presets[presetName])] when [presets[presetName]] is
    truthy. *)
Definition presets_get (presetName : string) : option (list (string * Config)) :=
  match List.find (fun p => String.eqb p.1 presetName) presets with
  | Some p => Some p.2
  | None =>
      if bool_decide (presetName ∈ Object_prototype_keys) then Some [] else None
  end.

(** The JSON answers of the route; an inherited property given as preset is
    answered as a preset without streams. *)
Inductive PresetBody :=
  | PresetError (error : string)
  | PresetStarted (message : string) (preset : list (string * Config)).

Definition post_presets (socketServerInstance : option State)
    (presetName : string) : (Z * PresetBody) * option State :=
  match socketServerInstance with
  | None => ((503, PresetError "Socket server not initialized"), None)
  | Some s =>
      match presets_get presetName with
      | None => ((404, PresetError "Preset not found"), Some s)
      | Some preset =>
          ((200, PresetStarted ("Preset '" +:+ presetName +:+ "' started") preset),
           Some (exec (for_each preset.*2 (startStream NoopSocket)) s))
      end
  end.

(** ** The branch an attempt takes

    The four branches of [emitData], decided in the order in which the
    source tests them.  The error roll is the first draw of the attempt (made
    only when [errorRate > 0]) and the duplicate roll the next one (made only
    when [duplicateRate > 0]). *)

Inductive Branch :=
  | DurationComplete
  | ErrorInjection
  | DuplicateInjection
  | FreshEmission.

Definition error_rolled (c : Closure) (s : State) : bool :=
  Qltb 0 (errorRate c) && Qltb (random (drawn s) * 100) (errorRate c).

Definition after_error_roll (c : Closure) (s : State) : nat :=
  if Qltb 0 (errorRate c) then S (drawn s) else drawn s.

Definition duplicate_rolled (c : Closure) (s : State) : bool :=
  Qltb 0 (duplicateRate c)
  && Qltb (random (after_error_roll c s) * 100) (duplicateRate c).

Definition after_duplicate_roll (c : Closure) (s : State) : nat :=
  if Qltb 0 (duplicateRate c)
  then S (after_error_roll c s) else after_error_roll c s.

Definition branch (c : Closure) (s : State) : Branch :=
  if duration c <=? now s - startTime c then DurationComplete
  else if error_rolled c s then ErrorInjection
  else if duplicate_rolled c s && bool_decide (is_Some (lastEmittedData c))
  then DuplicateInjection
  else FreshEmission.

(** What an attempt is seen to do, read off the states before and after it:
    the events it sent and the timers it created. *)
Definition new_events (s s' : State) : list Event :=
  drop (length (emitted s)) (emitted s').

Definition new_timers (s s' : State) : list Timer :=
  filter (fun t => nextTimer s ≤ tid t)%nat (timers s').

Definition is_complete (e : Event) : bool :=
  match e with IoEmit _ (PComplete _ _ _) => true | _ => false end.

Definition is_error (e : Event) : bool :=
  match e with IoEmit _ (PError _ _ _) => true | _ => false end.

Definition is_data (e : Event) : bool :=
  match e with IoEmit _ (PData _) => true | _ => false end.

Definition is_stopped (e : Event) : bool :=
  match e with IoEmit _ (PStopped _) => true | _ => false end.

Definition is_started (e : Event) : bool :=
  match e with
  | IoEmit _ (PStarted _ _) | SocketEmit _ _ (PStarted _ _) => true
  | _ => false
  end.

Definition is_broadcast (t : Timer) : bool :=
  match t_cb t with CbBroadcast _ _ => true | _ => false end.

(** The four effects of the four branches, in the order of [Branch]:
    a completion event, an error event, a payload sent at once, a payload
    scheduled. *)
Definition effects (s s' : State) : list bool :=
  [existsb is_complete (new_events s s');
   existsb is_error (new_events s s');
   existsb is_data (new_events s s');
   existsb is_broadcast (new_timers s s')].

Definition effect_of (b : Branch) : list bool :=
  match b with
  | DurationComplete => [true; false; false; false]
  | ErrorInjection => [false; true; false; false]
  | DuplicateInjection => [false; false; true; false]
  | FreshEmission => [false; false; false; true]
  end.

(** The state an attempt of closure [sid] leaves, branch by branch. *)
Definition completed (c : Closure) (s : State) : State :=
  exec (stopStream (streamName c);;
        io_emit (streamName c +:+ "-complete")
          (PComplete (streamName c) (emissionCount c) (now s - startTime c))) s.

Definition errored (c : Closure) (s : State) : State :=
  exec (io_emit (streamName c +:+ "-error")
          (PError "Simulated error"
             "Random error for teaching error handling operators" (now s)))
       (with_drawn (after_error_roll c s) s).

Definition duplicated (sid : nat) (c : Closure) (last : Data) (s : State) : State :=
  exec (io_emit (streamName c) (PData last);;
        set_closure sid (incr_emissionCount c))
       (with_drawn (after_duplicate_roll c s) s).

Definition scheduled (sid : nat) (c : Closure) (n : nat) (data : Data) (delay : Z)
    (s : State) : State :=
  exec (set_closure sid (assign_lastEmittedData data c);;
        add_timer None (CbBroadcast sid data) delay;;
        mret tt)
       (with_drawn n s).

(** ** Predicates used in the statements *)

(** A computation that only reads the clock and draws random numbers. *)
Definition draws_only {A} (m : M A) : Prop :=
  ∀ s, ∃ n, (drawn s ≤ n)%nat ∧ snd (m s) = with_drawn n s.

(** The state [stopStream] leaves when [name] is registered with entry [a]. *)
Definition stopped (name : string) (a : ActiveStream) (s : State) : State :=
  with_emitted (emitted s ++ [IoEmit "stream-stopped" (PStopped name)])
    (with_maps (delete name (activeStreams s)) (delete name (streamConfigs s))
       (with_timers (filter (fun t => tid t ≠ intervalId a) (timers s))
          (nextTimer s) s)).

(** Identifiers of pending timers are below the next one to be given. *)
Definition timers_fresh (s : State) : Prop :=
  Forall (fun t => (tid t < nextTimer s)%nat) (timers s).

(** The variables a closure never assigns. *)
Definition constants (c : Closure) :=
  (streamName c, interval c, duration c, errorRate c, duplicateRate c,
   delayVariation c, burstMode c, burstSize c, burstInterval c, startTime c).

(** Which timers a closure may own: one-shot attempts exist in burst mode
    only, the burst timer is an interval timer of a burst-mode stream, a
    delayed broadcast is one-shot. *)
Definition kind_ok (t : Timer) (c : Closure) : Prop :=
  match t_cb t with
  | CbEmitData _ => t_repeat t = None → burstMode c = true
  | CbBurst _ => burstMode c = true ∧ is_Some (t_repeat t)
  | CbBroadcast _ _ => t_repeat t = None
  end.

(** The interval timer registered under a name.  While [startStream] runs,
    between [setInterval] and [activeStreams.set], the registration [p] of
    the new timer is pending. *)
Definition owner (p : option (string * nat)) (s : State) (name : string)
  : option nat :=
  match p with
  | Some (n, i) =>
      if decide (n = name) then Some i else intervalId <$> activeStreams s !! name
  | None => intervalId <$> activeStreams s !! name
  end.

(** Well-formed timer queues: identifiers are distinct and were given by
    the counter, every timer belongs to a closure, and every interval timer
    is the one registered under the name of its stream. *)
Record wfp (p : option (string * nat)) (s : State) : Prop := {
  wf_fresh : ∀ t, t ∈ timers s → (tid t < nextTimer s)%nat;
  wf_nodup : NoDup (tid <$> timers s);
  wf_closure : ∀ t, t ∈ timers s → is_Some (closures s !! cb_sid (t_cb t));
  wf_kind : ∀ t c, t ∈ timers s → closures s !! cb_sid (t_cb t) = Some c → kind_ok t c;
  wf_owner : ∀ t c, t ∈ timers s → is_Some (t_repeat t) →
             closures s !! cb_sid (t_cb t) = Some c →
             owner p s (streamName c) = Some (tid t);
  wf_pending : ∀ n i, p = Some (n, i) → activeStreams s !! n = None
}.

Definition wf : State → Prop := wfp None.

(** [closure_le c c']: [c'] is a later state of the closure [c]. *)
Definition closure_le (c c' : Closure) : Prop :=
  constants c' = constants c ∧ emissionCount c ≤ emissionCount c'.

(** The callbacks a callback passes to [setTimeout]. *)
Definition spawn (cb cb' : Callback) : Prop :=
  match cb with
  | CbEmitData sid => ∃ data, cb' = CbBroadcast sid data
  | CbBurst sid => cb' = CbEmitData sid
  | CbBroadcast _ _ => False
  end.

(** [effect fired s s']: from [s] to [s'] closures are only created, or
    assigned by the callback [fired] that ran; every timer of [s'] was in
    [s], or was created by [fired], or belongs to a closure created since. *)
Record effect (fired : option Callback) (s s' : State) : Prop := {
  eff_closure : ∀ sid c, closures s !! sid = Some c →
    ∃ c', closures s' !! sid = Some c'
          ∧ (c' = c ∨ (closure_le c c' ∧ ∃ cb, fired = Some cb ∧ cb_sid cb = sid));
  eff_timers : ∀ t', t' ∈ timers s' →
    (∃ t, t ∈ timers s ∧ t_cb t = t_cb t')
    ∨ (∃ cb, fired = Some cb ∧ spawn cb (t_cb t'))
    ∨ (length (closures s) ≤ cb_sid (t_cb t'))%nat
}.

(** No timer of closure [sid] is pending. *)
Definition quiet (sid : nat) (s : State) : Prop :=
  ∀ t, t ∈ timers s → cb_sid (t_cb t) ≠ sid.

(** No attempt of closure [sid] is pending: delayed broadcasts at most. *)
Definition no_attempts (sid : nat) (s : State) : Prop :=
  ∀ t, t ∈ timers s → t_cb t ≠ CbEmitData sid ∧ t_cb t ≠ CbBurst sid.

(** Every result of [Math.random()] is in [0, 1). *)
Definition unit_draws : Prop := ∀ n, (0 <= random n)%Q ∧ (random n < 1)%Q.

(** Nothing was, or is about to be, emitted by a closure whose [errorRate]
    is 100. *)
Definition silent (s : State) : Prop :=
  ∀ sid c, closures s !! sid = Some c → (errorRate c == 100)%Q →
    emissionCount c = 0 ∧ lastEmittedData c = None
    ∧ ∀ t data, t ∈ timers s → t_cb t ≠ CbBroadcast sid data.

(** From [s] to [s'] events were only appended, none of them a
    [stream-started] event. *)
Definition no_start_event (s s' : State) : Prop :=
  ∃ l, emitted s' = emitted s ++ l ∧ existsb is_started l = false.

(** ** Further predicates on states *)

(** The configuration listed under a name: the one of the registered entry,
    or, while [startStream] runs between [streamConfigs.set] and
    [activeStreams.set], the configuration [p] being installed. *)
Definition configs_of (p : option (string * Config)) (s : State) (n : string)
  : option Config :=
  match p with
  | Some (m, cfg) =>
      if decide (m = n) then Some cfg else as_config <$> activeStreams s !! n
  | None => as_config <$> activeStreams s !! n
  end.

Definition synced (p : option (string * Config)) (s : State) : Prop :=
  (∀ n, streamConfigs s !! n = configs_of p s n)
  ∧ (∀ m cfg, p = Some (m, cfg) → activeStreams s !! m = None).

(** The constants [startStream] destructures from [config], with their
    defaults, and the start time. *)
Definition destructured (config : Config) (t : Z) :=
  (default "books" (cfg_streamName config), default 3000 (cfg_interval config),
   default 120000 (cfg_duration config), default 0%Q (cfg_errorRate config),
   default 0%Q (cfg_duplicateRate config), default 0 (cfg_delayVariation config),
   default false (cfg_burstMode config), default 3 (cfg_burstSize config),
   default 10000 (cfg_burstInterval config), t).

(** [t] is the interval timer [startStream] creates for closure [sid]. *)
Definition interval_timer_of (c : Closure) (sid : nat) (t : Timer) : Prop :=
  t_repeat t
  = Some (timer_delay (inject_Z (if burstMode c then burstInterval c else interval c)))
  ∧ t_cb t = if burstMode c then CbBurst sid else CbEmitData sid.

(** Every registered entry has its closure, which was created from the
    entry's configuration under the entry's name, and its interval timer in
    the queue. *)
Definition live (s : State) : Prop :=
  ∀ name a, activeStreams s !! name = Some a →
    ∃ c t, closures s !! as_closure a = Some c
      ∧ constants c = destructured (as_config a) (as_startTime a)
      ∧ streamName c = name
      ∧ t ∈ timers s ∧ tid t = intervalId a
      ∧ interval_timer_of c (as_closure a) t.

(** ** Scenarios

    A random source that always returns 1/2, configurations for the stream
    ['books'], and runs of the event loop. *)

Definition half : nat → Q := fun _ => (1 # 2)%Q.

Definition books (interval duration : option Z) (errorRate : option Q)
    (delayVariation : option Z) (burstMode : option bool)
    (burstInterval : option Z) : Config :=
  {| cfg_streamName := Some "books"; cfg_interval := interval;
     cfg_duration := duration; cfg_errorRate := errorRate;
     cfg_duplicateRate := None; cfg_delayVariation := delayVariation;
     cfg_burstMode := burstMode; cfg_burstSize := None;
     cfg_burstInterval := burstInterval |}.

(** [{streamName: 'books', interval: 1000, duration: 3000}] *)
Definition plain_config : Config :=
  books (Some 1000) (Some 3000) None None None None.

(** [{streamName: 'books', interval: 1000, delayVariation: 5000}] *)
Definition delayed_config : Config :=
  books (Some 1000) None None (Some 5000) None None.

(** [{streamName: 'books', duration: 5000, burstMode: true,
      burstInterval: 5000}] *)
Definition burst_config : Config :=
  books None (Some 5000) None None (Some true) (Some 5000).

(** [{streamName: 'books', interval: 1000, errorRate: 100}] *)
Definition failing_config : Config :=
  books (Some 1000) None (Some 100%Q) None None None.

(** [{streamName: 'books', interval: 1000, duplicateRate: 100}] *)
Definition replay_config : Config :=
  {| cfg_streamName := Some "books"; cfg_interval := Some 1000;
     cfg_duration := None; cfg_errorRate := None;
     cfg_duplicateRate := Some 100%Q; cfg_delayVariation := None;
     cfg_burstMode := None; cfg_burstSize := None; cfg_burstInterval := None |}.

(** [{streamName: 'books', duration: 0}] *)
Definition zero_config : Config :=
  books None (Some 0) None None None None.

(** A stream is started at time 0 and has made its first attempt. *)
Definition started_run (config : Config) : list (Action * Z) :=
  [(CallStartStream config, 0)].

(** A stream with delayed broadcasts is started at 0 and stopped at 500,
    while the broadcast of its first payload, due at 2500, is pending. *)
Definition stopped_run : list (Action * Z) :=
  [(CallStartStream delayed_config, 0); (CallStopStream "books", 500)].

(** A stream is started at 0 and the broadcast of its first payload fires
    at 1: only its interval timer is pending. *)
Definition first_emission_run : list (Action * Z) :=
  [(CallStartStream plain_config, 0); (Fire 2, 1)].

(** A burst-mode stream of duration 5000: its interval timer (1) fires at
    5000 and schedules three attempts (timers 2, 3 and 4), which fire at
    5001, 5100 and 5200. *)
Definition burst_run : list (Action * Z) :=
  [(CallStartStream burst_config, 0); (Fire 1, 5000); (Fire 2, 5001);
   (Fire 3, 5100); (Fire 4, 5200)].

(** A burst-mode stream is started at 0; its interval timer fires at 5000,
    the first attempt of the burst at 5001 and the broadcast it scheduled at
    5002; at 5050 a stream is started under the same name, and the broadcast
    of its first payload fires at 5051. *)
Definition restart_run : list (Action * Z) :=
  [(CallStartStream (books None None None None (Some true) (Some 5000)), 0);
   (Fire 1, 5000); (Fire 2, 5001); (Fire 5, 5002);
   (CallStartStream plain_config, 5050); (Fire 7, 5051)].

(** A stream of interval 1000 is started at 0; it makes attempts at 0, 1000
    and 2000, and each payload is broadcast 1 ms after its attempt. *)
Definition plain_run : list (Action * Z) :=
  [(CallStartStream plain_config, 0); (Fire 2, 1); (Fire 1, 1000);
   (Fire 3, 1001); (Fire 1, 2000); (Fire 4, 2001)].

(** [{streamName: 'issues', interval: 1000}] *)
Definition issues_config : Config :=
  {| cfg_streamName := Some "issues"; cfg_interval := Some 1000;
     cfg_duration := None; cfg_errorRate := None; cfg_duplicateRate := None;
     cfg_delayVariation := None; cfg_burstMode := None; cfg_burstSize := None;
     cfg_burstInterval := None |}.

(** The first two turns of [burst_run]: the three attempts of the burst
    are pending. *)
Definition burst_pending_run : list (Action * Z) :=
  [(CallStartStream burst_config, 0); (Fire 1, 5000)].

(** The first three turns of [burst_run]: the first attempt of the burst
    has completed and the two others are pending. *)
Definition burst_completed_run : list (Action * Z) :=
  [(CallStartStream burst_config, 0); (Fire 1, 5000); (Fire 2, 5001)].

(** [{streamName: 'books', duration: 250, burstMode: true,
      burstInterval: 50}]: a burst of three attempts, 100 ms apart, every
    50 ms. *)
Definition overlap_config : Config :=
  books None (Some 250) None None (Some true) (Some 50).

(** The stream of [overlap_config] from its start at 0 until no timer is
    left: bursts at 50, 100, 150 and 200, every timer fired when it is due;
    the first attempt at or after 250 (timer 4) clears the interval timer,
    and the five other attempts that are pending then fire until 400. *)
Definition overlap_run : list (Action * Z) :=
  [(CallStartStream overlap_config, 0);
   (Fire 1, 50); (Fire 2, 51); (Fire 5, 52);
   (Fire 1, 100); (Fire 6, 101); (Fire 9, 102);
   (Fire 3, 150); (Fire 1, 150); (Fire 10, 151); (Fire 11, 151); (Fire 14, 152);
   (Fire 7, 200); (Fire 1, 200); (Fire 15, 201); (Fire 16, 201); (Fire 19, 202);
   (Fire 4, 250); (Fire 12, 250); (Fire 8, 300); (Fire 17, 300);
   (Fire 13, 350); (Fire 18, 400)].

(** A normal-mode stream of duration 0 is started at 0 and its interval
    timer fires at 3000. *)
Definition zero_run : list (Action * Z) :=
  [(CallStartStream zero_config, 0); (Fire 1, 3000)].


(** [{streamName: '__proto__', interval: 1000}] *)
Definition proto_config : Config :=
  {| cfg_streamName := Some "__proto__"; cfg_interval := Some 1000;
     cfg_duration := None; cfg_errorRate := None; cfg_duplicateRate := None;
     cfg_delayVariation := None; cfg_burstMode := None; cfg_burstSize := None;
     cfg_burstInterval := None |}.

(** The streams ['books'] and ['issues'] are started at 0. *)
Definition two_streams_run : list (Action * Z) :=
  [(CallStartStream plain_config, 0); (CallStartStream issues_config, 0)].

(** * Properties *)

(** ** Computations that only draw random numbers *)

Lemma draws_only_ret {A} (a : A) : draws_only (mret a).
Proof. intros s. exists (drawn s). split; [lia|]. by destruct s. Qed.

Lemma draws_only_bind {A B} (m : M A) (k : A → M B) :
  draws_only m → (∀ a, draws_only (k a)) → draws_only (m ≫= k).
Proof.
  intros Hm Hk s. unfold mbind, M_bind.
  destruct (Hm s) as (n & Hn & Hs). destruct (m s) as [a s1]. simpl in Hs. subst s1.
  destruct (Hk a (with_drawn n s)) as (n' & Hn' & Hs'). exists n'.
  split; [simpl in Hn'; lia|]. by rewrite Hs'.
Qed.

Lemma draws_only_random : draws_only Math_random.
Proof. intros s. exists (S (drawn s)). split; [lia|done]. Qed.

Lemma draws_only_now : draws_only Date_now.
Proof. apply (draws_only_ret 0). Qed.

Lemma draws_only_if {A} (b : bool) (m1 m2 : M A) :
  draws_only m1 → draws_only m2 → draws_only (if b then m1 else m2).
Proof. by destruct b. Qed.

Ltac draws :=
  repeat first
    [ apply draws_only_ret | apply draws_only_random | apply draws_only_now
    | apply draws_only_if | apply draws_only_bind; [|intros ?] ].

Lemma draws_only_pick arr : draws_only (pick arr).
Proof. unfold pick. draws. Qed.

Lemma draws_only_below n : draws_only (random_below n).
Proof. unfold random_below. draws. Qed.

Lemma draws_only_book index : draws_only (generateBookData index).
Proof.
  unfold generateBookData.
  repeat first [ apply draws_only_pick | apply draws_only_below | draws ].
Qed.

Lemma draws_only_issue index : draws_only (generateIssueData index).
Proof.
  unfold generateIssueData.
  repeat first [ apply draws_only_pick | apply draws_only_below | draws ].
Qed.

(** ** The attempt, branch by branch *)

Lemma timer_delay_pos after : 1 ≤ timer_delay after.
Proof.
  unfold timer_delay, floor.
  destruct (Qle_bool 1 after) eqn:H1; simpl; [|lia].
  destruct (Qle_bool after (inject_Z TIMEOUT_MAX)); [|lia].
  apply Qle_bool_iff in H1. change 1 with (Qfloor 1). by apply Qfloor_resp_le.
Qed.

Lemma with_drawn_id s : with_drawn (drawn s) s = s.
Proof. by destruct s. Qed.

Lemma emitFresh_scheduled sid c s k s1 :
  closures s !! sid = Some c →
  s1 = with_drawn k s →
  ∃ n data delay, (k ≤ n)%nat ∧ 1 ≤ delay
    ∧ (emitFresh sid c s1).2 = scheduled sid c n data delay s.
Proof.
  intros Hc ->. unfold emitFresh.
  set (gen := if String.eqb _ _ then _ else _).
  assert (Hgen : draws_only gen).
  { subst gen. apply draws_only_if; apply draws_only_bind;
      first [apply draws_only_book|apply draws_only_issue|intros; apply draws_only_ret]. }
  destruct (Hgen (with_drawn k s)) as (n1 & Hn1 & Hs1). simpl in Hn1.
  unfold mbind at 1, M_bind at 1. destruct (gen _) as [data s1]. simpl in Hs1.
  subst s1. unfold update_closure, mbind at 1, M_bind at 1. simpl. rewrite Hc.
  destruct (0 <? delayVariation c).
  - exists (S n1), data, (timer_delay (random n1 * inject_Z (delayVariation c))).
    split; [lia|]. split; [apply timer_delay_pos|done].
  - exists n1, data, (timer_delay 0). split; [lia|]. split; [apply timer_delay_pos|done].
Qed.

Lemma emitData_branch sid c s :
  closures s !! sid = Some c →
  match branch c s with
  | DurationComplete => exec (emitData sid) s = completed c s
  | ErrorInjection => exec (emitData sid) s = errored c s
  | DuplicateInjection =>
      ∃ last, lastEmittedData c = Some last
              ∧ exec (emitData sid) s = duplicated sid c last s
  | FreshEmission =>
      ∃ n data delay, (after_duplicate_roll c s ≤ n)%nat ∧ 1 ≤ delay
                      ∧ exec (emitData sid) s = scheduled sid c n data delay s
  end.
Proof.
  intros Hc. remember (exec (emitData sid) s) as s' eqn:Hs'.
  unfold exec, emitData in Hs'. rewrite Hc in Hs'.
  unfold branch, error_rolled, duplicate_rolled, after_duplicate_roll,
    after_error_roll.
  unfold mbind, M_bind, mret, M_ret, Math_random, Date_now, get in Hs'.
  destruct (duration c <=? now s - startTime c) eqn:Hd; [done|].
  assert (Hfresh : ∀ k s1, s1 = with_drawn k s → s' = (emitFresh sid c s1).2 →
    ∃ n data delay, (k ≤ n)%nat ∧ 1 ≤ delay ∧ s' = scheduled sid c n data delay s).
  { intros k s1 Hk ->. by apply emitFresh_scheduled. }
  assert (Hdupl : ∀ k last, lastEmittedData c = Some last →
     s' = (update_closure sid incr_emissionCount
            (with_emitted (emitted s ++ [IoEmit (streamName c) (PData last)])
               (with_drawn k s))).2 →
     s' = exec (io_emit (streamName c) (PData last);;
                set_closure sid (incr_emissionCount c)) (with_drawn k s)).
  { intros k last _ ->. unfold update_closure. simpl. by rewrite Hc. }
  destruct (Qltb 0 (errorRate c)) eqn:He; simpl in Hs'.
  - destruct (Qltb (random (drawn s) * 100) (errorRate c)) eqn:He'; simpl.
    { subst s'. unfold errored, after_error_roll. by rewrite He. }
    destruct (Qltb 0 (duplicateRate c)) eqn:Hdup; simpl in Hs' |- *.
    + destruct (Qltb (random (S (drawn s)) * 100) (duplicateRate c)); simpl;
        [destruct (lastEmittedData c) as [last|] eqn:Hl; simpl|].
      * exists last. split; [done|]. unfold duplicated, after_duplicate_roll,
          after_error_roll. rewrite Hdup, He. by apply Hdupl.
      * by apply (Hfresh _ _ eq_refl).
      * by apply (Hfresh _ _ eq_refl).
    + by apply (Hfresh _ _ eq_refl).
  - destruct (Qltb 0 (duplicateRate c)) eqn:Hdup; simpl in Hs' |- *.
    + destruct (Qltb (random (drawn s) * 100) (duplicateRate c)); simpl;
        [destruct (lastEmittedData c) as [last|] eqn:Hl; simpl|].
      * exists last. split; [done|]. unfold duplicated, after_duplicate_roll,
          after_error_roll. rewrite Hdup, He. by apply Hdupl.
      * by apply (Hfresh _ _ eq_refl).
      * by apply (Hfresh _ _ eq_refl).
    + apply (Hfresh _ s); [by rewrite with_drawn_id|done].
Qed.

(** ** Stopping a stream *)

Lemma stopStream_absent name s :
  activeStreams s !! name = None → stopStream name s = (tt, s).
Proof. intros H. unfold stopStream. by rewrite H. Qed.

Lemma stopStream_present name a s :
  activeStreams s !! name = Some a → stopStream name s = (tt, stopped name a s).
Proof. intros H. unfold stopStream. by rewrite H. Qed.

(** ** Identifiers of timers *)

Lemma filter_fresh_nil (n : nat) (l : list Timer) :
  Forall (fun t => (tid t < n)%nat) l →
  filter (fun t => (n ≤ tid t)%nat) l = [].
Proof.
  induction 1 as [|t l Ht _ IH]; [done|].
  rewrite filter_cons_False; [done|lia].
Qed.

Lemma new_timers_filtered (P : Timer → Prop) `{∀ t, Decision (P t)} s s' :
  timers_fresh s → timers s' = filter P (timers s) → new_timers s s' = [].
Proof.
  intros Hf Ht. unfold new_timers. rewrite Ht. apply filter_fresh_nil.
  unfold timers_fresh in Hf. rewrite Forall_forall in Hf |- *.
  intros t [_ Hin]%list_elem_of_filter. by apply Hf.
Qed.

Lemma new_timers_same s s' :
  timers_fresh s → timers s' = timers s → new_timers s s' = [].
Proof. intros Hf Ht. unfold new_timers. rewrite Ht. by apply filter_fresh_nil. Qed.

Lemma new_timers_added s s' t :
  timers_fresh s → timers s' = timers s ++ [t] → tid t = nextTimer s →
  new_timers s s' = [t].
Proof.
  intros Hf Ht Hid. unfold new_timers. rewrite Ht, filter_app, filter_fresh_nil by done.
  simpl. rewrite filter_cons_True by lia. done.
Qed.

Lemma new_events_app s s' l :
  emitted s' = emitted s ++ l → new_events s s' = l.
Proof. intros H. unfold new_events. rewrite H. apply drop_app_length. Qed.

(** ** One branch per attempt *)

Lemma completed_emitted c s :
  ∃ pre, emitted (completed c s) = emitted s ++ pre ++
           [IoEmit (streamName c +:+ "-complete")
              (PComplete (streamName c) (emissionCount c) (now s - startTime c))]
         ∧ (pre = [] ∨ pre = [IoEmit "stream-stopped" (PStopped (streamName c))])
         ∧ ∃ P : Timer → Prop, ∃ _ : ∀ t, Decision (P t),
             timers (completed c s) = filter P (timers s).
Proof.
  unfold completed, exec, mbind, M_bind.
  destruct (activeStreams s !! streamName c) as [a|] eqn:Ha.
  - rewrite (stopStream_present _ _ _ Ha). simpl.
    exists [IoEmit "stream-stopped" (PStopped (streamName c))].
    rewrite <- app_assoc. split; [done|]. split; [by right|]. by eexists _, _.
  - rewrite (stopStream_absent _ _ Ha). simpl. exists []. split; [done|].
    split; [by left|]. exists (fun _ => True), _.
    symmetry. clear. induction (timers s) as [|t l IH]; [done|].
    by rewrite filter_cons_True, IH.
Qed.

Lemma emitData_effects sid c s :
  closures s !! sid = Some c → timers_fresh s →
  effects s (exec (emitData sid) s) = effect_of (branch c s).
Proof.
  intros Hc Hf. pose proof (emitData_branch sid c s Hc) as Hb. unfold effects.
  destruct (branch c s).
  - rewrite Hb. destruct (completed_emitted c s) as (pre & He & Hpre & P & HP & Ht).
    rewrite (new_events_app _ _ _ He), (new_timers_filtered P _ _ Hf Ht).
    destruct Hpre as [-> | ->]; reflexivity.
  - rewrite Hb. unfold errored.
    rewrite (new_events_app s _ [IoEmit (streamName c +:+ "-error")
      (PError "Simulated error"
         "Random error for teaching error handling operators" (now s))]) by done.
    by rewrite new_timers_same.
  - destruct Hb as (last & Hl & ->). unfold duplicated.
    rewrite (new_events_app s _ [IoEmit (streamName c) (PData last)]) by done.
    by rewrite new_timers_same.
  - destruct Hb as (n & data & delay & _ & _ & ->). unfold scheduled.
    rewrite (new_events_app s _ []) by (simpl; by rewrite app_nil_r).
    by rewrite (new_timers_added s _
      {| tid := nextTimer s; t_repeat := None; t_due := now s + delay;
         t_cb := CbBroadcast sid data |}).
Qed.

(** C1. For every attempt of a stream (a call of [emitData] on its closure),
    the effects of exactly one of the four branches are seen, and the branch is
    the one selected by testing, in this order, duration, error roll,
    duplicate roll: a completion event, or an error event, or a payload sent
    at once, or a payload scheduled; never two of them. *)
Theorem emitData_exactly_one_branch sid c s :
  closures s !! sid = Some c →
  timers_fresh s →
  effects s (exec (emitData sid) s) = effect_of (branch c s)
  ∧ length (filter (fun b => b = true) (effects s (exec (emitData sid) s))) = 1%nat.
Proof.
  intros Hc Hf. rewrite (emitData_effects sid c s Hc Hf).
  split; [done|]. by destruct (branch c s).
Qed.

(** ** Well-formed timer queues *)

Lemma constants_incr c : constants (incr_emissionCount c) = constants c.
Proof. done. Qed.

Lemma constants_assign data c : constants (assign_lastEmittedData data c) = constants c.
Proof. done. Qed.

Lemma constants_streamName c c' : constants c = constants c' → streamName c = streamName c'.
Proof. intros H. by inversion H. Qed.

Lemma constants_burstMode c c' : constants c = constants c' → burstMode c = burstMode c'.
Proof. intros H. by inversion H. Qed.

Lemma wfp_init : wf init.
Proof.
  split; simpl; try by intros ? ?%elem_of_nil.
  - constructor.
  - by intros ? ? ?%elem_of_nil.
  - by intros ? ? ?%elem_of_nil.
  - done.
Qed.

(** Changes that touch neither timers, closures nor registry. *)
Lemma wfp_frame p s s' :
  timers s' = timers s → nextTimer s' = nextTimer s →
  closures s' = closures s → activeStreams s' = activeStreams s →
  wfp p s → wfp p s'.
Proof.
  intros Ht Hn Hc Ha [H1 H2 H3 H4 H5 H6].
  split; unfold owner in *; rewrite ?Ht, ?Hn, ?Hc, ?Ha; done.
Qed.

(** An assignment to a closure variable. *)
Lemma wfp_set_closure p s sid c c' :
  closures s !! sid = Some c → constants c' = constants c →
  wfp p s → wfp p (with_closures (<[sid := c']> (closures s)) s).
Proof.
  intros Hc Hk [H1 H2 H3 H4 H5 H6].
  assert (Hlook : ∀ j cj, <[sid := c']> (closures s) !! j = Some cj →
            ∃ cj', closures s !! j = Some cj' ∧ constants cj = constants cj').
  { intros j cj. destruct (decide (sid = j)) as [->|Hne].
    - rewrite list_lookup_insert_eq by (by eapply lookup_lt_Some).
      intros [= <-]. eauto.
    - rewrite list_lookup_insert_ne by done. eauto. }
  split; simpl; try done.
  - intros t Ht. destruct (H3 t Ht) as [ct Hct].
    apply lookup_lt_is_Some. rewrite length_insert. by eapply lookup_lt_Some.
  - intros t cj Ht Hj. destruct (Hlook _ _ Hj) as (cj' & Hj' & Hk').
    specialize (H4 t cj' Ht Hj'). unfold kind_ok in *.
    by rewrite (constants_burstMode _ _ Hk').
  - intros t cj Ht Hr Hj. destruct (Hlook _ _ Hj) as (cj' & Hj' & Hk').
    rewrite (constants_streamName _ _ Hk'). unfold owner in *. simpl.
    by apply H5.
Qed.

Lemma owner_same p s s' name :
  activeStreams s' = activeStreams s → owner p s' name = owner p s name.
Proof. intros H. unfold owner. by rewrite H. Qed.

(** A new one-shot timer. *)
Lemma wfp_add_timeout p s cb delay c :
  closures s !! cb_sid cb = Some c →
  match cb with
  | CbEmitData _ => burstMode c = true
  | CbBurst _ => False
  | CbBroadcast _ _ => True
  end →
  wfp p s → wfp p (exec (add_timer None cb delay) s).
Proof.
  intros Hc Hk [H1 H2 H3 H4 H5 H6]. unfold exec, add_timer. simpl.
  split; simpl.
  - intros t [Ht| ->%list_elem_of_singleton]%elem_of_app; simpl; [|lia].
    specialize (H1 t Ht). lia.
  - rewrite fmap_app. simpl. apply NoDup_app. split; [done|]. split; [|apply NoDup_singleton].
    intros i (t & -> & Ht)%list_elem_of_fmap Heq%list_elem_of_singleton.
    specialize (H1 t Ht). lia.
  - intros t [Ht| ->%list_elem_of_singleton]%elem_of_app; simpl; eauto.
  - intros t ct [Ht| ->%list_elem_of_singleton]%elem_of_app; simpl; [by apply H4|].
    intros Hct. rewrite Hc in Hct. injection Hct as <-.
    unfold kind_ok. simpl. by destruct cb.
  - intros t ct [Ht| ->%list_elem_of_singleton]%elem_of_app; simpl.
    + intros Hr Hct. exact (H5 t ct Ht Hr Hct).
    + by intros [? [=]].
  - done.
Qed.

Lemma NoDup_tid_filter (P : Timer → Prop) `{∀ t, Decision (P t)} (l : list Timer) :
  NoDup (tid <$> l) → NoDup (tid <$> filter P l).
Proof.
  induction l as [|t l IH]; [constructor|].
  simpl. intros [Hn Hl]%NoDup_cons.
  rewrite filter_cons. destruct (decide _); [|by apply IH].
  simpl. apply NoDup_cons. split; [|by apply IH].
  intros (t' & Ht' & [_ Hin]%list_elem_of_filter)%list_elem_of_fmap.
  apply Hn. apply list_elem_of_fmap. eauto.
Qed.

(** Timers that only leave the queue or change their due time. *)
Lemma wfp_timers_sub p s l :
  NoDup (tid <$> l) →
  (∀ t', t' ∈ l → ∃ t, t ∈ timers s ∧ tid t = tid t'
                      ∧ t_repeat t = t_repeat t' ∧ t_cb t = t_cb t') →
  wfp p s → wfp p (with_timers l (nextTimer s) s).
Proof.
  intros Hnd Hsub [H1 H2 H3 H4 H5 H6]. split; simpl; try done.
  - intros t' (t & Ht & <- & _)%Hsub. by apply H1.
  - intros t' (t & Ht & _ & _ & <-)%Hsub. by apply H3.
  - intros t' c (t & Ht & _ & Hr & Hcb)%Hsub. rewrite <- Hcb. intros Hc.
    specialize (H4 t c Ht Hc). unfold kind_ok in *. by rewrite <- Hcb, <- Hr.
  - intros t' c (t & Ht & Hid & Hr & Hcb)%Hsub. rewrite <- Hcb, <- Hr, <- Hid.
    apply H5. done.
Qed.

(** The effect of [stopStream] on a registered name. *)
Lemma wfp_stopped name a s :
  activeStreams s !! name = Some a → wf s → wf (stopped name a s).
Proof.
  intros Ha [H1 H2 H3 H4 H5 _]. unfold stopped. split; simpl.
  - intros t [_ Ht]%list_elem_of_filter. by apply H1.
  - by apply NoDup_tid_filter.
  - intros t [_ Ht]%list_elem_of_filter. by apply H3.
  - intros t c [_ Ht]%list_elem_of_filter. by apply H4.
  - intros t c [Hne Ht]%list_elem_of_filter Hr Hc.
    specialize (H5 t c Ht Hr Hc). unfold owner in *. simpl.
    destruct (decide (streamName c = name)) as [Heq|Hn].
    + rewrite Heq, Ha in H5. simpl in H5. congruence.
    + by rewrite lookup_delete_ne.
  - done.
Qed.

Lemma wfp_stopStream p name s :
  (∀ n i, p = Some (n, i) → n = name) →
  wfp p s → wfp p (exec (stopStream name) s).
Proof.
  intros Hp Hw. unfold exec.
  destruct (activeStreams s !! name) as [a|] eqn:Ha.
  - rewrite (stopStream_present _ _ _ Ha). simpl.
    destruct p as [[n i]|]; [|by apply wfp_stopped].
    rewrite <- (Hp n i eq_refl), (wf_pending _ _ Hw n i eq_refl) in Ha. done.
  - by rewrite (stopStream_absent _ _ Ha).
Qed.

(** A new closure. *)
Lemma wfp_new_closure p s c :
  wfp p s → wfp p (exec (new_closure c) s).
Proof.
  intros [H1 H2 H3 H4 H5 H6]. unfold exec, new_closure. simpl.
  assert (Hlook : ∀ t cj, t ∈ timers s →
            (closures s ++ [c]) !! cb_sid (t_cb t) = Some cj →
            closures s !! cb_sid (t_cb t) = Some cj).
  { intros t cj Ht. destruct (H3 t Ht) as [ct Hct].
    by rewrite (lookup_app_l_Some _ _ _ _ Hct), Hct. }
  split; simpl; try done.
  - intros t Ht. destruct (H3 t Ht) as [ct Hct].
    by rewrite (lookup_app_l_Some _ _ _ _ Hct).
  - intros t cj Ht Hj. apply H4; [done|]. by apply Hlook.
  - intros t cj Ht Hr Hj. unfold owner in *. simpl. apply H5; [done..|]. by apply Hlook.
Qed.

(** [setInterval] in [startStream], its registration pending. *)
Lemma wfp_add_interval s cb d d' c name :
  activeStreams s !! name = None →
  closures s !! cb_sid cb = Some c → streamName c = name →
  match cb with
  | CbEmitData _ => True
  | CbBurst _ => burstMode c = true
  | CbBroadcast _ _ => False
  end →
  wf s → wfp (Some (name, nextTimer s)) (exec (add_timer (Some d) cb d') s).
Proof.
  intros Ha Hc Hn Hk [H1 H2 H3 H4 H5 _]. unfold exec, add_timer. simpl.
  split; simpl.
  - intros t [Ht| ->%list_elem_of_singleton]%elem_of_app; simpl; [|lia].
    specialize (H1 t Ht). lia.
  - rewrite fmap_app. simpl. apply NoDup_app. split; [done|]. split; [|apply NoDup_singleton].
    intros i (t & -> & Ht)%list_elem_of_fmap Heq%list_elem_of_singleton.
    specialize (H1 t Ht). lia.
  - intros t [Ht| ->%list_elem_of_singleton]%elem_of_app; simpl; eauto.
  - intros t ct [Ht| ->%list_elem_of_singleton]%elem_of_app; simpl; [by apply H4|].
    intros Hct. rewrite Hc in Hct. injection Hct as <-.
    unfold kind_ok. simpl. destruct cb; [done|by eauto|done].
  - intros t ct [Ht| ->%list_elem_of_singleton]%elem_of_app; simpl.
    + intros Hr Hct. specialize (H5 t ct Ht Hr Hct). unfold owner in *. simpl.
      destruct (decide (name = streamName ct)) as [->|]; [|done].
      by rewrite Ha in H5.
    + intros _ Hct. rewrite Hc in Hct. injection Hct as <-.
      unfold owner. by rewrite decide_True.
  - by intros n i [= <- _].
Qed.

(** [activeStreams.set] in [startStream]. *)
Lemma wfp_register s name a :
  wfp (Some (name, intervalId a)) s → wf (exec (activeStreams_set name a) s).
Proof.
  intros [H1 H2 H3 H4 H5 H6]. unfold exec, activeStreams_set. split; simpl; try done.
  intros t c Ht Hr Hc. specialize (H5 t c Ht Hr Hc). unfold owner in *. simpl.
  destruct (decide (name = streamName c)) as [<-|Hne].
  - by rewrite lookup_insert_eq.
  - by rewrite lookup_insert_ne.
Qed.

(** A timer that fires. *)
Lemma wfp_rearm p s t tm :
  wfp p s → wfp p (exec (set_timers (rearm t tm (timers s))) s).
Proof.
  intros Hw. unfold exec, set_timers, modify. simpl. apply wfp_timers_sub; [| |done].
  - unfold rearm. destruct (t_repeat tm) as [d|].
    + rewrite <- list_fmap_compose.
      erewrite list_fmap_ext; [apply (wf_nodup _ _ Hw)|].
      intros i x _. simpl. by destruct (Nat.eqb _ _).
    + apply NoDup_tid_filter, (wf_nodup _ _ Hw).
  - intros t'. unfold rearm. destruct (t_repeat tm) as [d|].
    + intros (t0 & -> & Ht0)%list_elem_of_fmap. exists t0.
      split; [done|]. by destruct (Nat.eqb _ _).
    + intros [_ Ht']%list_elem_of_filter. eauto.
Qed.

(** ** The invariant along every run *)

Lemma exec_bind {A B} (m : M A) (k : A → M B) s :
  exec (m ≫= k) s = exec (k (m s).1) (m s).2.
Proof. unfold exec, mbind, M_bind. by destruct (m s). Qed.

Lemma for_each_inv {A} (I : State → Prop) (l : list A) (body : A → M unit) s :
  (∀ x s, I s → I (exec (body x) s)) → I s → I (exec (for_each l body) s).
Proof.
  intros Hbody. revert s. induction l as [|x l IH]; intros s Hs; [done|].
  simpl. rewrite exec_bind. apply IH, Hbody, Hs.
Qed.

Lemma wfp_emitData p sid c s :
  closures s !! sid = Some c →
  (∀ n i, p = Some (n, i) → n = streamName c) →
  wfp p s → wfp p (exec (emitData sid) s).
Proof.
  intros Hc Hp Hw. pose proof (emitData_branch sid c s Hc) as Hb.
  destruct (branch c s).
  - rewrite Hb. unfold completed. rewrite exec_bind.
    eapply wfp_frame; [..|apply (wfp_stopStream p (streamName c) s Hp Hw)]; done.
  - rewrite Hb. eapply wfp_frame; [..|apply Hw]; done.
  - destruct Hb as (last & _ & ->).
    apply (wfp_set_closure p
             (with_emitted (emitted s ++ [IoEmit (streamName c) (PData last)])
                (with_drawn (after_duplicate_roll c s) s)) sid c); [done..|].
    eapply wfp_frame; [..|apply Hw]; done.
  - destruct Hb as (n & data & delay & _ & _ & ->). unfold scheduled.
    rewrite exec_bind, exec_bind.
    apply (wfp_add_timeout p _ (CbBroadcast sid data) delay
             (assign_lastEmittedData data c)); [|done|].
    + simpl. apply list_lookup_insert_eq. by eapply lookup_lt_Some.
    + apply (wfp_set_closure p (with_drawn n s) sid c); [done..|].
      eapply wfp_frame; [..|apply Hw]; done.
Qed.

Lemma wfp_burst p sid c s :
  closures s !! sid = Some c → burstMode c = true →
  wfp p s → wfp p (exec (burst sid) s).
Proof.
  intros Hc Hb Hw. unfold exec at 1, burst. rewrite Hc.
  apply (for_each_inv (fun s => wfp p s ∧ closures s !! sid = Some c)); [|done].
  intros i s1 [Hw1 Hc1]. rewrite exec_bind. split; [|done].
  by apply (wfp_add_timeout p s1 (CbEmitData sid) _ c).
Qed.

Lemma wfp_broadcast p sid data s :
  wfp p s → wfp p (exec (broadcast sid data) s).
Proof.
  intros Hw. unfold exec, broadcast.
  destruct (closures s !! sid) as [c|] eqn:Hc; [|done].
  unfold mbind, M_bind, io_emit, emit, modify, update_closure. simpl. rewrite Hc.
  apply (wfp_set_closure p
           (with_emitted (emitted s ++ [IoEmit (streamName c) (PData data)]) s)
           sid c); [done..|].
  eapply wfp_frame; [..|apply Hw]; done.
Qed.

Lemma find_timer_Some id l tm :
  find_timer id l = Some tm → tm ∈ l ∧ tid tm = id.
Proof.
  intros [Hin Heq]%find_some. split; [by apply list_elem_of_In|].
  by apply Nat.eqb_eq.
Qed.

Lemma wfp_fire id t s s' : wf s → fire id t s = Some s' → wf s'.
Proof.
  intros Hw. unfold fire.
  destruct (find_timer id (timers s)) as [tm|] eqn:Hf; [|done].
  destruct (t_due tm <=? t); [|done]. intros [= <-].
  apply find_timer_Some in Hf as [Hin _]. rewrite exec_bind.
  pose proof (wfp_rearm None s t tm Hw) as Hw1.
  destruct (wf_closure _ _ Hw tm Hin) as [c Hc].
  pose proof (wf_kind _ _ Hw tm c Hin Hc) as Hk. unfold kind_ok in Hk.
  destruct (t_cb tm) as [sid|sid|sid data]; simpl in *.
  - by apply (wfp_emitData None sid c).
  - by apply (wfp_burst None sid c); [|apply Hk|].
  - by apply wfp_broadcast.
Qed.

Lemma stopStream_unregisters name s :
  activeStreams (exec (stopStream name) s) !! name = None.
Proof.
  unfold exec. destruct (activeStreams s !! name) as [a|] eqn:Ha.
  - rewrite (stopStream_present _ _ _ Ha). simpl. apply lookup_delete_eq.
  - by rewrite (stopStream_absent _ _ Ha).
Qed.

Lemma wfp_socket_emit p socket channel payload s :
  wfp p s → wfp p (exec (socket_emit socket channel payload) s).
Proof.
  intros Hw. destruct socket; [|done]. eapply wfp_frame; [..|apply Hw]; done.
Qed.

Lemma interval_then_emit cb after sid s :
  (id ← setInterval cb after; emitData sid;; mret id) s
  = (nextTimer s, exec (emitData sid) (exec (setInterval cb after) s)).
Proof.
  unfold mbind, M_bind, exec, setInterval, add_timer. simpl.
  by destruct (emitData sid _).
Qed.

Lemma wfp_startStream socket config s :
  wf s → wf (exec (startStream socket config) s).
Proof.
  intros Hw. unfold startStream.
  set (name := default "books" (cfg_streamName config)).
  rewrite exec_bind.
  pose proof (wfp_stopStream None name s ltac:(done) Hw) as Hw1.
  pose proof (stopStream_unregisters name s) as Ha1.
  fold (exec (stopStream name) s). set (s1 := exec (stopStream name) s) in *.
  rewrite exec_bind, exec_bind, exec_bind.
  set (s2 := (streamConfigs_set name config s1).2).
  assert (Hw2 : wf s2) by (eapply wfp_frame; [..|apply Hw1]; done).
  assert (Ha2 : activeStreams s2 !! name = None) by done.
  simpl (Date_now s2).1. simpl (Date_now s2).2.
  set (c0 := Build_Closure _ _ _ _ _ _ _ _ _ _ _ _).
  pose proof (wfp_new_closure None s2 c0 Hw2) as Hw3.
  fold (exec (new_closure c0) s2). set (s3 := exec (new_closure c0) s2) in *.
  assert (Hc3 : closures s3 !! length (closures s2) = Some c0).
  { subst s3. unfold exec, new_closure. simpl.
    rewrite lookup_app_r, Nat.sub_diag by lia. done. }
  simpl (new_closure c0 s2).1. set (sid := length (closures s2)) in *.
  rewrite exec_bind.
  set (m := if default false (cfg_burstMode config) then _ else _).
  assert (Hm : (m s3).1 = nextTimer s3 ∧ wfp (Some (name, nextTimer s3)) (m s3).2).
  { subst m. destruct (default false (cfg_burstMode config)) eqn:Hbm.
    - split; [done|]. by apply (wfp_add_interval s3 (CbBurst sid) _ _ c0 name).
    - rewrite interval_then_emit. split; [done|].
      apply (wfp_emitData _ sid c0); [done|by intros n i [= <- _]|].
      by apply (wfp_add_interval s3 (CbEmitData sid) _ _ c0 name). }
  destruct Hm as [Hid Hw4]. rewrite exec_bind. apply wfp_socket_emit.
  apply (wfp_register _ name (Build_ActiveStream (m s3).1 _ _ _)). simpl.
  by rewrite Hid.
Qed.

Lemma wfp_stopAllStreams s : wf s → wf (exec stopAllStreams s).
Proof.
  intros Hw. unfold exec at 1, stopAllStreams.
  apply (for_each_inv wf); [|done].
  intros name s1 Hw1. by apply wfp_stopStream.
Qed.

Lemma wfp_step a t s s' : wf s → step a t s = Some s' → wf s'.
Proof.
  intros Hw. unfold step. destruct (now s <=? t); [|done].
  assert (Hw1 : wf (exec (set_clock t) s)) by (eapply wfp_frame; [..|apply Hw]; done).
  destruct a; try (intros [= <-]).
  - by apply wfp_fire.
  - by apply wfp_socket_emit.
  - by apply wfp_startStream.
  - by apply wfp_stopStream.
  - by apply wfp_socket_emit.
  - by apply wfp_startStream.
  - by apply wfp_stopStream.
  - by apply wfp_stopAllStreams.
Qed.

Lemma wfp_run l s s' : wf s → run l s = Some s' → wf s'.
Proof.
  revert s. induction l as [|[a t] l IH]; intros s Hw; simpl.
  - by intros [= <-].
  - destruct (step a t s) as [s1|] eqn:Hs; [|done].
    apply IH. by eapply wfp_step.
Qed.

Lemma reachable_wf s : reachable s → wf s.
Proof. intros [l Hl]. eapply wfp_run; [apply wfp_init|done]. Qed.

(** ** What one turn of the event loop can change *)

Lemma closure_le_refl c : closure_le c c.
Proof. by split. Qed.

Lemma closure_le_trans c1 c2 c3 :
  closure_le c1 c2 → closure_le c2 c3 → closure_le c1 c3.
Proof. intros [H1 H2] [H3 H4]. split; [congruence|lia]. Qed.

Lemma effect_length fired s s' :
  effect fired s s' → (length (closures s) ≤ length (closures s'))%nat.
Proof.
  intros [Hc _]. destruct (closures s) as [|c0 l] eqn:Hl using rev_ind; [simpl; lia|].
  destruct (Hc (length l) c0) as (c' & Hc' & _).
  { rewrite lookup_app_r, Nat.sub_diag by lia. done. }
  apply lookup_lt_Some in Hc'. rewrite length_app. simpl. lia.
Qed.

Lemma effect_frame fired s s' :
  closures s' = closures s →
  (∀ t', t' ∈ timers s' → ∃ t, t ∈ timers s ∧ t_cb t = t_cb t') →
  effect fired s s'.
Proof.
  intros Hc Ht. split.
  - intros sid c H. exists c. rewrite Hc. eauto.
  - intros t' Ht'. left. by apply Ht.
Qed.

Lemma effect_refl fired s : effect fired s s.
Proof. apply effect_frame; eauto. Qed.

Lemma effect_trans fired s1 s2 s3 :
  effect fired s1 s2 → effect fired s2 s3 → effect fired s1 s3.
Proof.
  intros H12 H23. pose proof (effect_length _ _ _ H12) as Hlen.
  destruct H12 as [Hc12 Ht12], H23 as [Hc23 Ht23]. split.
  - intros sid c1 H1. destruct (Hc12 sid c1 H1) as (c2 & H2 & Hs12).
    destruct (Hc23 sid c2 H2) as (c3 & H3 & Hs23). exists c3. split; [done|].
    destruct Hs12 as [->|[Hle12 Hf]]; [done|].
    destruct Hs23 as [->|[Hle23 _]]; right; [done|].
    split; [by eapply closure_le_trans|done].
  - intros t3 Ht3. destruct (Ht23 t3 Ht3) as [(t2 & Ht2 & Hcb)|[Hsp|Hnew]].
    + rewrite <- Hcb. apply Ht12, Ht2.
    + by right; left.
    + right; right; lia.
Qed.

(** A callback of a closure created after [s] counts as part of that
    creation. *)
Lemma effect_absorb cb s s1 s2 :
  (length (closures s) ≤ cb_sid cb)%nat →
  effect None s s1 → effect (Some cb) s1 s2 → effect None s s2.
Proof.
  intros Hnew H1 H2. pose proof (effect_length _ _ _ H1) as Hlen.
  destruct H1 as [Hc1 Ht1], H2 as [Hc2 Ht2]. split.
  - intros sid c H. destruct (Hc1 sid c H) as (c1 & H1 & Hs1).
    destruct Hs1 as [->|[_ (? & [=] & _)]].
    destruct (Hc2 sid c H1) as (c2 & H2' & Hs2). exists c2. split; [done|].
    destruct Hs2 as [->|[_ (cb' & [= <-] & Hsid)]]; [by left|].
    apply lookup_lt_Some in H. lia.
  - intros t2 Ht2'. destruct (Ht2 t2 Ht2') as [(t1 & Hin1 & Hcb)|[(cb' & [= <-] & Hsp)|Hn]].
    + rewrite <- Hcb. destruct (Ht1 t1 Hin1) as [?|[(? & [=] & _)|?]]; eauto.
    + right; right. destruct cb; simpl in *.
      * destruct Hsp as [d ->]. done.
      * by rewrite Hsp.
      * done.
    + right; right; lia.
Qed.

Lemma effect_set_closure fired s sid c c' :
  closures s !! sid = Some c → closure_le c c' →
  (∃ cb, fired = Some cb ∧ cb_sid cb = sid) →
  effect fired s (with_closures (<[sid := c']> (closures s)) s).
Proof.
  intros Hc Hle Hf. split; simpl; [|eauto].
  intros j cj Hj. destruct (decide (sid = j)) as [<-|Hne].
  - exists c'. rewrite list_lookup_insert_eq by (by eapply lookup_lt_Some).
    split; [done|]. right. rewrite Hc in Hj. injection Hj as <-. done.
  - exists cj. rewrite list_lookup_insert_ne by done. eauto.
Qed.

Lemma effect_add_timer fired s rep cb' delay :
  (∃ cb, fired = Some cb ∧ spawn cb cb') ∨ (length (closures s) ≤ cb_sid cb')%nat →
  effect fired s (exec (add_timer rep cb' delay) s).
Proof.
  intros Hsp. split; simpl; [eauto|].
  intros t' [Ht'| ->%list_elem_of_singleton]%elem_of_app; [eauto|].
  right. done.
Qed.

Lemma effect_stopStream fired name s : effect fired s (exec (stopStream name) s).
Proof.
  unfold exec. destruct (activeStreams s !! name) as [a|] eqn:Ha.
  - rewrite (stopStream_present _ _ _ Ha). apply effect_frame; [done|].
    simpl. intros t' [_ Ht']%list_elem_of_filter. eauto.
  - rewrite (stopStream_absent _ _ Ha). apply effect_refl.
Qed.

Lemma effect_emitData sid s :
  effect (Some (CbEmitData sid)) s (exec (emitData sid) s).
Proof.
  destruct (closures s !! sid) as [c|] eqn:Hc;
    [|unfold exec, emitData; rewrite Hc; apply effect_refl].
  pose proof (emitData_branch sid c s Hc) as Hb.
  destruct (branch c s).
  - rewrite Hb. unfold completed. rewrite exec_bind.
    eapply effect_trans; [apply (effect_stopStream _ (streamName c))|].
    apply effect_frame; simpl; eauto.
  - rewrite Hb. apply effect_frame; simpl; eauto.
  - destruct Hb as (last & _ & ->).
    eapply effect_trans; [|apply (effect_set_closure _ _ sid c)]; simpl.
    + apply effect_frame; simpl; eauto.
    + done.
    + split; [done|simpl; lia].
    + eauto.
  - destruct Hb as (n & data & delay & _ & _ & ->). unfold scheduled.
    rewrite exec_bind, exec_bind.
    eapply effect_trans; [|apply effect_add_timer; left; eexists; split; [done|by exists data]].
    eapply effect_trans; [|apply (effect_set_closure _ (with_drawn n s) sid c)].
    + apply effect_frame; simpl; eauto.
    + done.
    + split; [done|simpl; lia].
    + eauto.
Qed.

Lemma effect_burst sid s : effect (Some (CbBurst sid)) s (exec (burst sid) s).
Proof.
  unfold exec at 1, burst. destruct (closures s !! sid) as [c|]; [|apply effect_refl].
  apply (for_each_inv (effect (Some (CbBurst sid)) s)); [|apply effect_refl].
  intros i s1 H1. rewrite exec_bind. eapply effect_trans; [apply H1|].
  apply effect_add_timer. left. by eexists.
Qed.

Lemma effect_broadcast sid data s :
  effect (Some (CbBroadcast sid data)) s (exec (broadcast sid data) s).
Proof.
  unfold exec, broadcast. destruct (closures s !! sid) as [c|] eqn:Hc; [|apply effect_refl].
  unfold mbind, M_bind, io_emit, emit, modify, update_closure. simpl. rewrite Hc.
  eapply effect_trans; [|apply (effect_set_closure _ _ sid c)]; simpl.
  - apply effect_frame; simpl; eauto.
  - done.
  - split; [done|simpl; lia].
  - eauto.
Qed.

Lemma effect_run_callback cb s : effect (Some cb) s (exec (run_callback cb) s).
Proof.
  destruct cb; [apply effect_emitData|apply effect_burst|apply effect_broadcast].
Qed.

Lemma effect_new_stream fired s c0 rep cb delay :
  cb_sid cb = length (closures s) →
  effect fired s (exec (add_timer rep cb delay) (exec (new_closure c0) s)).
Proof.
  intros Hsid. split; simpl.
  - intros sid c Hc. exists c. by rewrite (lookup_app_l_Some _ _ _ _ Hc); eauto.
  - intros t' [Ht'| ->%list_elem_of_singleton]%elem_of_app; [eauto|].
    right; right. simpl. lia.
Qed.

Lemma effect_socket_emit fired socket channel payload s :
  effect fired s (exec (socket_emit socket channel payload) s).
Proof. destruct socket; apply effect_frame; simpl; eauto. Qed.

Lemma effect_startStream socket config s :
  effect None s (exec (startStream socket config) s).
Proof.
  unfold startStream.
  set (name := default "books" (cfg_streamName config)).
  rewrite exec_bind.
  pose proof (effect_stopStream None name s) as H1.
  fold (exec (stopStream name) s). set (s1 := exec (stopStream name) s) in *.
  rewrite exec_bind, exec_bind, exec_bind.
  set (s2 := (streamConfigs_set name config s1).2).
  assert (H2 : effect None s s2).
  { eapply effect_trans; [apply H1|]. apply effect_frame; simpl; eauto. }
  simpl (Date_now s2).1. simpl (Date_now s2).2.
  set (c0 := Build_Closure _ _ _ _ _ _ _ _ _ _ _ _).
  fold (exec (new_closure c0) s2). set (s3 := exec (new_closure c0) s2) in *.
  simpl (new_closure c0 s2).1. set (sid := length (closures s2)) in *.
  rewrite exec_bind.
  set (m := if default false (cfg_burstMode config) then _ else _).
  assert (Hm : effect None s2 (m s3).2).
  { subst m. destruct (default false (cfg_burstMode config)).
    - by apply (effect_new_stream None s2 c0 _ (CbBurst sid)).
    - rewrite interval_then_emit. simpl.
      eapply (effect_absorb (CbEmitData sid)); [done| |apply effect_emitData].
      by apply (effect_new_stream None s2 c0 _ (CbEmitData sid)). }
  rewrite exec_bind.
  eapply effect_trans; [apply H2|]. eapply effect_trans; [apply Hm|].
  eapply effect_trans; [|apply effect_socket_emit].
  apply effect_frame; simpl; eauto.
Qed.

Lemma effect_stopAllStreams s : effect None s (exec stopAllStreams s).
Proof.
  unfold exec at 1, stopAllStreams.
  apply (for_each_inv (effect None s)); [|apply effect_refl].
  intros name s1 H1. eapply effect_trans; [apply H1|apply effect_stopStream].
Qed.

(** Every turn of the event loop: at most the callback of one timer of the
    queue runs. *)
Lemma effect_step a t s s' :
  step a t s = Some s' →
  ∃ fired, effect fired s s'
    ∧ ∀ cb, fired = Some cb → ∃ tm, tm ∈ timers s ∧ t_cb tm = cb ∧ a = Fire (tid tm).
Proof.
  unfold step. destruct (now s <=? t); [|done].
  set (s0 := exec (set_clock t) s).
  assert (H0 : ∀ fired, effect fired s s0) by (intros; apply effect_frame; simpl; eauto).
  assert (Hnone : ∀ s1, effect None s0 s1 → ∃ fired, effect fired s s1
    ∧ ∀ cb, fired = Some cb → ∃ tm, tm ∈ timers s ∧ t_cb tm = cb ∧ a = Fire (tid tm)).
  { intros s1 H1. exists None. split; [|done]. by eapply effect_trans. }
  destruct a; try (intros [= <-]; apply Hnone).
  - unfold fire. destruct (find_timer id (timers s0)) as [tm|] eqn:Hf; [|done].
    destruct (t_due tm <=? t); [|done]. intros [= <-].
    apply find_timer_Some in Hf as [Hin Hid]. exists (Some (t_cb tm)). split.
    + eapply effect_trans; [apply H0|]. rewrite exec_bind.
      eapply effect_trans; [|apply effect_run_callback].
      apply effect_frame; [done|]. simpl. intros t'. unfold rearm.
      destruct (t_repeat tm).
      * intros (t0 & -> & Ht0)%list_elem_of_fmap. exists t0.
        split; [done|]. by destruct (Nat.eqb _ _).
      * intros [_ Ht']%list_elem_of_filter. eauto.
    + intros cb [= <-]. exists tm. by rewrite Hid.
  - apply effect_socket_emit.
  - apply effect_startStream.
  - apply effect_stopStream.
  - apply effect_socket_emit.
  - apply effect_startStream.
  - apply effect_stopStream.
  - apply effect_stopAllStreams.
Qed.

(** ** Streams that have gone quiet *)

Lemma spawn_sid cb cb' : spawn cb cb' → cb_sid cb' = cb_sid cb.
Proof. destruct cb; simpl; [by intros [d ->]|by intros ->|done]. Qed.

Lemma quiet_step sid a t s s' :
  quiet sid s → (sid < length (closures s))%nat → step a t s = Some s' →
  quiet sid s' ∧ closures s' !! sid = closures s !! sid.
Proof.
  intros Hq Hlt (fired & [Hc Ht] & Hf)%effect_step. split.
  - intros t' Ht'. destruct (Ht t' Ht') as [(t0 & Hin & Hcb)|[(cb & Hfi & Hsp)|Hnew]].
    + rewrite <- Hcb. by apply Hq.
    + destruct (Hf cb Hfi) as (tm & Hin & <- & _).
      rewrite (spawn_sid _ _ Hsp). by apply Hq.
    + lia.
  - destruct (lookup_lt_is_Some_2 _ _ Hlt) as [c Hsid].
    destruct (Hc sid c Hsid) as (c' & Hc' & [->|[_ (cb & Hfi & Hcb)]]); [congruence|].
    destruct (Hf cb Hfi) as (tm & Hin & <- & _). by destruct (Hq tm Hin).
Qed.

Lemma no_attempts_step sid a t s s' :
  no_attempts sid s → (sid < length (closures s))%nat → step a t s = Some s' →
  no_attempts sid s'.
Proof.
  intros Hq Hlt (fired & [Hc Ht] & Hf)%effect_step.
  intros t' Ht'. destruct (Ht t' Ht') as [(t0 & Hin & Hcb)|[(cb & Hfi & Hsp)|Hnew]].
  - rewrite <- Hcb. by apply Hq.
  - destruct (Hf cb Hfi) as (tm & Hin & <- & _).
    destruct (Hq tm Hin) as [Hq1 Hq2].
    destruct (t_cb tm) as [sid'|sid'|sid' d]; simpl in Hsp; [| |done].
    + destruct Hsp as [d ->]. done.
    + rewrite Hsp. split; [|done]. intros [= ->]. done.
  - split; intros Heq; rewrite Heq in Hnew; simpl in Hnew; lia.
Qed.

Lemma step_length a t s s' :
  step a t s = Some s' → (length (closures s) ≤ length (closures s'))%nat.
Proof. intros (fired & He & _)%effect_step. by eapply effect_length. Qed.

Lemma quiet_run sid l s s' :
  quiet sid s → (sid < length (closures s))%nat → run l s = Some s' →
  quiet sid s' ∧ closures s' !! sid = closures s !! sid.
Proof.
  revert s. induction l as [|[a t] l IH]; intros s Hq Hlt; simpl.
  - by intros [= <-].
  - destruct (step a t s) as [s1|] eqn:Hs; [|done]. intros Hr.
    destruct (quiet_step _ _ _ _ _ Hq Hlt Hs) as [Hq1 Hc1].
    pose proof (step_length _ _ _ _ Hs).
    destruct (IH s1 Hq1 ltac:(lia) Hr) as [Hq' Hc']. split; [done|congruence].
Qed.

Lemma no_attempts_run sid l s s' :
  no_attempts sid s → (sid < length (closures s))%nat → run l s = Some s' →
  no_attempts sid s'.
Proof.
  revert s. induction l as [|[a t] l IH]; intros s Hq Hlt; simpl.
  - by intros [= <-].
  - destruct (step a t s) as [s1|] eqn:Hs; [|done]. intros Hr.
    pose proof (step_length _ _ _ _ Hs).
    apply (IH s1); [by eapply no_attempts_step|lia|done].
Qed.

Lemma step_closure_le sid c a t s s' :
  closures s !! sid = Some c → step a t s = Some s' →
  ∃ c', closures s' !! sid = Some c' ∧ closure_le c c'.
Proof.
  intros Hc (fired & [He _] & _)%effect_step.
  destruct (He sid c Hc) as (c' & Hc' & [->|[Hle _]]); eauto using closure_le_refl.
Qed.

Lemma run_closure_le sid c l s s' :
  closures s !! sid = Some c → run l s = Some s' →
  ∃ c', closures s' !! sid = Some c' ∧ closure_le c c'.
Proof.
  revert s c. induction l as [|[a t] l IH]; intros s c Hc; simpl.
  - intros [= <-]. eauto using closure_le_refl.
  - destruct (step a t s) as [s1|] eqn:Hs; [|done]. intros Hr.
    destruct (step_closure_le _ _ _ _ _ _ Hc Hs) as (c1 & Hc1 & Hle1).
    destruct (IH s1 c1 Hc1 Hr) as (c' & Hc' & Hle'). eauto using closure_le_trans.
Qed.

Lemma run_app l1 l2 s s1 s2 :
  run l1 s = Some s1 → run l2 s1 = Some s2 → run (l1 ++ l2) s = Some s2.
Proof.
  revert s. induction l1 as [|[a t] l1 IH]; intros s; simpl.
  - by intros [= <-].
  - destruct (step a t s); [apply IH|done].
Qed.

Lemma reachable_run l s s' : reachable s → run l s = Some s' → reachable s'.
Proof. intros [l0 H0] Hr. exists (l0 ++ l). by eapply run_app. Qed.

(** ** Claims about stopping *)

Lemma stopStream_idempotent name s :
  exec (stopStream name) (exec (stopStream name) s) = exec (stopStream name) s.
Proof.
  unfold exec at 1. by rewrite stopStream_absent by apply stopStream_unregisters.
Qed.

(** C5. [stopStream] on a name that is not registered changes nothing and
    sends nothing; on a registered name it clears the interval timer of the
    entry, deletes the entry and its configuration and broadcasts
    [stream-stopped]; stopping twice is stopping once; and the route
    [POST /streams/stop/:streamName] answers 200 with the same body whether
    or not the stream existed. *)
Theorem stopStream_idempotent_200 name s :
  (activeStreams s !! name = None → exec (stopStream name) s = s)
  ∧ (∀ a, activeStreams s !! name = Some a →
       let s' := exec (stopStream name) s in
       timers s' = filter (fun t => tid t ≠ intervalId a) (timers s)
       ∧ activeStreams s' = delete name (activeStreams s)
       ∧ streamConfigs s' = delete name (streamConfigs s)
       ∧ emitted s' = emitted s ++ [IoEmit "stream-stopped" (PStopped name)]
       ∧ closures s' = closures s ∧ nextTimer s' = nextTimer s
       ∧ now s' = now s ∧ drawn s' = drawn s)
  ∧ exec (stopStream name) (exec (stopStream name) s) = exec (stopStream name) s
  ∧ post_streams_stop (Some s) name
    = ({| status := 200; body := BStopped "Stream stopped" name |},
       Some (exec (stopStream name) s)).
Proof.
  split; [|split; [|split]].
  - intros Ha. unfold exec. by rewrite stopStream_absent.
  - intros a Ha. unfold exec. by rewrite (stopStream_present _ _ _ Ha).
  - apply stopStream_idempotent.
  - done.
Qed.

(** ** Claims about one attempt *)

(** C8. An attempt that takes the error branch broadcasts the error event
    and nothing else; closures (so [emissionCount] and [lastEmittedData]),
    registry, configurations and timers are as before.  Only the position in
    the random source has moved, by the one draw of the error roll. *)
Theorem error_tick_frame sid c s :
  closures s !! sid = Some c →
  branch c s = ErrorInjection →
  let s' := exec (emitData sid) s in
  new_events s s'
  = [IoEmit (streamName c +:+ "-error")
       (PError "Simulated error"
          "Random error for teaching error handling operators" (now s))]
  ∧ closures s' = closures s
  ∧ activeStreams s' = activeStreams s
  ∧ streamConfigs s' = streamConfigs s
  ∧ timers s' = timers s ∧ nextTimer s' = nextTimer s
  ∧ now s' = now s ∧ drawn s' = S (drawn s).
Proof.
  intros Hc Hb. pose proof (emitData_branch sid c s Hc) as He. rewrite Hb in He.
  simpl. rewrite He. unfold errored.
  split; [by apply new_events_app|]. repeat (split; [done|]). simpl.
  unfold branch, error_rolled in Hb. unfold after_error_roll.
  destruct (duration c <=? now s - startTime c); [done|].
  destruct (Qltb 0 (errorRate c)); [done|]. simpl in Hb.
  by destruct (duplicate_rolled c s && _).
Qed.

(** ** Streams that always fail *)

Lemma Qltb_true x y : Qltb x y = true ↔ (x < y)%Q.
Proof.
  unfold Qltb. rewrite negb_true_iff. split.
  - intros H. apply Qnot_le_lt. intros Hle%Qle_bool_iff. congruence.
  - intros H. destruct (Qle_bool y x) eqn:E; [|done].
    apply Qle_bool_iff in E. by apply Qlt_not_le in H.
Qed.

Lemma error_rolled_100 c s :
  unit_draws → (errorRate c == 100)%Q → error_rolled c s = true.
Proof.
  intros Hu He. unfold error_rolled. apply andb_true_iff. split; apply Qltb_true.
  - by rewrite He.
  - rewrite He. destruct (Hu (drawn s)) as [_ Hlt].
    apply (Qlt_le_trans _ (1 * 100)); [by apply Qmult_lt_compat_r|].
    unfold Qle. simpl. lia.
Qed.

Lemma constants_errorRate c c' : constants c = constants c' → errorRate c = errorRate c'.
Proof. intros H. by inversion H. Qed.

Lemma silent_frame s s' :
  closures s' = closures s →
  (∀ t', t' ∈ timers s' → ∃ t, t ∈ timers s ∧ t_cb t = t_cb t') →
  silent s → silent s'.
Proof.
  intros Hc Ht Hs sid c Hsid He. rewrite Hc in Hsid.
  destruct (Hs sid c Hsid He) as (H1 & H2 & H3). repeat (split; [done|]).
  intros t' d (t & Hin & <-)%Ht. by apply H3.
Qed.

Lemma silent_set_closure s sid c c' :
  closures s !! sid = Some c → constants c' = constants c →
  ¬ (errorRate c == 100)%Q →
  silent s → silent (with_closures (<[sid := c']> (closures s)) s).
Proof.
  intros Hc Hk Hne Hs j cj. simpl. destruct (decide (sid = j)) as [<-|Hn].
  - rewrite list_lookup_insert_eq by (by eapply lookup_lt_Some).
    intros [= <-]. rewrite (constants_errorRate _ _ Hk). done.
  - rewrite list_lookup_insert_ne by done. apply Hs.
Qed.

Lemma silent_add_timer s rep cb delay :
  (∀ sid data c, cb = CbBroadcast sid data → closures s !! sid = Some c →
     ¬ (errorRate c == 100)%Q) →
  silent s → silent (exec (add_timer rep cb delay) s).
Proof.
  intros Hcb Hs sid c Hsid He. simpl in Hsid.
  destruct (Hs sid c Hsid He) as (H1 & H2 & H3). repeat (split; [done|]).
  intros t d [Ht| ->%list_elem_of_singleton]%elem_of_app; [by apply H3|].
  simpl. intros ->. by eapply Hcb.
Qed.

Lemma silent_stopStream name s : silent s → silent (exec (stopStream name) s).
Proof.
  intros Hs. unfold exec. destruct (activeStreams s !! name) as [a|] eqn:Ha.
  - rewrite (stopStream_present _ _ _ Ha). eapply silent_frame; [..|apply Hs]; [done|].
    simpl. intros t' [_ Ht']%list_elem_of_filter. eauto.
  - by rewrite (stopStream_absent _ _ Ha).
Qed.

Lemma branch_100 c s :
  unit_draws → (errorRate c == 100)%Q →
  branch c s = if duration c <=? now s - startTime c
               then DurationComplete else ErrorInjection.
Proof. intros Hu He. unfold branch. by rewrite (error_rolled_100 c s Hu He). Qed.

Lemma silent_emitData sid s :
  unit_draws → silent s → silent (exec (emitData sid) s).
Proof.
  intros Hu Hs. destruct (closures s !! sid) as [c|] eqn:Hc;
    [|unfold exec, emitData; by rewrite Hc].
  pose proof (emitData_branch sid c s Hc) as Hb.
  assert (Hne : branch c s = DuplicateInjection ∨ branch c s = FreshEmission →
                ¬ (errorRate c == 100)%Q).
  { intros Hbr He. rewrite (branch_100 c s Hu He) in Hbr.
    destruct (duration c <=? now s - startTime c); by destruct Hbr. }
  destruct (branch c s).
  - rewrite Hb. unfold completed. rewrite exec_bind.
    eapply silent_frame; [..|apply (silent_stopStream (streamName c) s Hs)]; simpl; eauto.
  - rewrite Hb. eapply silent_frame; [..|apply Hs]; simpl; eauto.
  - destruct Hb as (last & _ & ->).
    apply (silent_set_closure
             (with_emitted (emitted s ++ [IoEmit (streamName c) (PData last)])
                (with_drawn (after_duplicate_roll c s) s)) sid c); [done|done|auto|].
    eapply silent_frame; [..|apply Hs]; simpl; eauto.
  - destruct Hb as (n & data & delay & _ & _ & ->). unfold scheduled.
    rewrite exec_bind, exec_bind. apply silent_add_timer.
    + simpl. intros sid' d c' [= <- _].
      rewrite list_lookup_insert_eq by (by eapply lookup_lt_Some).
      intros [= <-]. auto.
    + apply (silent_set_closure (with_drawn n s) sid c); [done|done|auto|].
      eapply silent_frame; [..|apply Hs]; simpl; eauto.
Qed.

Lemma silent_burst sid s : silent s → silent (exec (burst sid) s).
Proof.
  intros Hs. unfold exec at 1, burst. destruct (closures s !! sid) as [c|]; [|done].
  apply (for_each_inv silent); [|done].
  intros i s1 H1. rewrite exec_bind. by apply silent_add_timer.
Qed.

Lemma silent_broadcast sid data s :
  (∀ c, closures s !! sid = Some c → ¬ (errorRate c == 100)%Q) →
  silent s → silent (exec (broadcast sid data) s).
Proof.
  intros Hne Hs. unfold exec, broadcast.
  destruct (closures s !! sid) as [c|] eqn:Hc; [|done].
  unfold mbind, M_bind, io_emit, emit, modify, update_closure. simpl. rewrite Hc.
  apply (silent_set_closure
           (with_emitted (emitted s ++ [IoEmit (streamName c) (PData data)]) s)
           sid c); [done|done|auto|].
  eapply silent_frame; [..|apply Hs]; simpl; eauto.
Qed.

Lemma silent_fire id t s s' :
  unit_draws → silent s → fire id t s = Some s' → silent s'.
Proof.
  intros Hu Hs. unfold fire.
  destruct (find_timer id (timers s)) as [tm|] eqn:Hf; [|done].
  destruct (t_due tm <=? t); [|done]. intros [= <-].
  apply find_timer_Some in Hf as [Hin _]. rewrite exec_bind.
  assert (Hs1 : silent (set_timers (rearm t tm (timers s)) s).2).
  { eapply silent_frame; [..|apply Hs]; [done|]. simpl. intros t'. unfold rearm.
    destruct (t_repeat tm).
    - intros (t0 & -> & Ht0)%list_elem_of_fmap. exists t0.
      split; [done|]. by destruct (Nat.eqb _ _).
    - intros [_ Ht']%list_elem_of_filter. eauto. }
  destruct (t_cb tm) as [sid|sid|sid data] eqn:Hcb; simpl.
  - by apply silent_emitData.
  - by apply silent_burst.
  - apply silent_broadcast; [|done]. simpl. intros c Hc He.
    destruct (Hs sid c Hc He) as (_ & _ & H3). by apply (H3 tm data).
Qed.

Lemma silent_new_closure c0 s :
  wf s → emissionCount c0 = 0 → lastEmittedData c0 = None →
  silent s → silent (exec (new_closure c0) s).
Proof.
  intros Hw H0 Hl Hs sid c. simpl. intros Hsid He.
  apply lookup_app_Some in Hsid as [Hsid|[Hlen Hsid]].
  - by apply Hs.
  - apply list_lookup_singleton_Some in Hsid as [Hz <-]. repeat (split; [done|]).
    intros t d Ht Hcb. destruct (wf_closure _ _ Hw t Ht) as [ct Hct%lookup_lt_Some].
    rewrite Hcb in Hct. simpl in Hct. lia.
Qed.

Lemma silent_socket_emit socket channel payload s :
  silent s → silent (exec (socket_emit socket channel payload) s).
Proof. intros Hs. destruct socket; [|done]. eapply silent_frame; [..|apply Hs]; simpl; eauto. Qed.

Lemma silent_startStream socket config s :
  unit_draws → wf s → silent s → silent (exec (startStream socket config) s).
Proof.
  intros Hu Hw Hs. unfold startStream.
  set (name := default "books" (cfg_streamName config)).
  rewrite exec_bind.
  pose proof (wfp_stopStream None name s ltac:(done) Hw) as Hw1.
  pose proof (silent_stopStream name s Hs) as Hs1.
  fold (exec (stopStream name) s). set (s1 := exec (stopStream name) s) in *.
  rewrite exec_bind, exec_bind, exec_bind.
  set (s2 := (streamConfigs_set name config s1).2).
  assert (Hw2 : wf s2) by (eapply wfp_frame; [..|apply Hw1]; done).
  assert (Hs2 : silent s2) by (eapply silent_frame; [..|apply Hs1]; simpl; eauto).
  simpl (Date_now s2).1. simpl (Date_now s2).2.
  set (c0 := Build_Closure _ _ _ _ _ _ _ _ _ _ _ _).
  pose proof (silent_new_closure c0 s2 Hw2 eq_refl eq_refl Hs2) as Hs3.
  fold (exec (new_closure c0) s2). set (s3 := exec (new_closure c0) s2) in *.
  simpl (new_closure c0 s2).1. set (sid := length (closures s2)) in *.
  rewrite exec_bind.
  set (m := if default false (cfg_burstMode config) then _ else _).
  assert (Hm : silent (m s3).2).
  { subst m. destruct (default false (cfg_burstMode config)).
    - by apply silent_add_timer.
    - rewrite interval_then_emit. simpl. apply silent_emitData; [done|].
      by apply silent_add_timer. }
  rewrite exec_bind. apply silent_socket_emit.
  eapply silent_frame; [..|apply Hm]; simpl; eauto.
Qed.

Lemma silent_step a t s s' :
  unit_draws → wf s → silent s → step a t s = Some s' → silent s'.
Proof.
  intros Hu Hw Hs. unfold step. destruct (now s <=? t); [|done].
  assert (Hw1 : wf (exec (set_clock t) s)) by (eapply wfp_frame; [..|apply Hw]; done).
  assert (Hs1 : silent (exec (set_clock t) s))
    by (eapply silent_frame; [..|apply Hs]; simpl; eauto).
  destruct a; try (intros [= <-]).
  - by apply silent_fire.
  - by apply silent_socket_emit.
  - by apply silent_startStream.
  - by apply silent_stopStream.
  - by apply silent_socket_emit.
  - by apply silent_startStream.
  - by apply silent_stopStream.
  - unfold exec at 1, stopAllStreams. apply (for_each_inv silent); [|done].
    intros name s1. apply silent_stopStream.
Qed.

Lemma silent_run l s s' :
  unit_draws → wf s → silent s → run l s = Some s' → silent s'.
Proof.
  intros Hu. revert s. induction l as [|[a t] l IH]; intros s Hw Hs; simpl.
  - by intros [= <-].
  - destruct (step a t s) as [s1|] eqn:Hst; [|done].
    apply IH; [by eapply wfp_step|by eapply silent_step].
Qed.

(** C6. With draws in [0, 1), a stream started with [errorRate = 100] never
    emits: in every reachable state its [emissionCount] is 0, it has no
    [lastEmittedData] and no broadcast of it is scheduled; and each of its
    attempts takes the error branch as long as the duration has not elapsed
    (and the completion branch afterwards). *)
Theorem errorRate_100_only_errors sid c s :
  unit_draws → reachable s →
  closures s !! sid = Some c → (errorRate c == 100)%Q →
  (emissionCount c = 0 ∧ lastEmittedData c = None
   ∧ ∀ t data, t ∈ timers s → t_cb t ≠ CbBroadcast sid data)
  ∧ (now s - startTime c < duration c →
     branch c s = ErrorInjection ∧ exec (emitData sid) s = errored c s)
  ∧ (duration c ≤ now s - startTime c →
     branch c s = DurationComplete ∧ exec (emitData sid) s = completed c s).
Proof.
  intros Hu [l Hl] Hc He. split; [|split].
  - apply (silent_run l init s Hu wfp_init); [|done..].
    intros sid0 c0 H0. simpl in H0. by rewrite lookup_nil in H0.
  - intros Hlt. pose proof (emitData_branch sid c s Hc) as Hb.
    rewrite (branch_100 c s Hu He) in *.
    by destruct (Z.leb_spec (duration c) (now s - startTime c)); [lia|].
  - intros Hle. pose proof (emitData_branch sid c s Hc) as Hb.
    rewrite (branch_100 c s Hu He) in *.
    by destruct (Z.leb_spec (duration c) (now s - startTime c)); [|lia].
Qed.

(** ** Claims about the closure variables *)

Lemma stopStream_closures name s : closures (exec (stopStream name) s) = closures s.
Proof.
  unfold exec. destruct (activeStreams s !! name) as [a|] eqn:Ha.
  - by rewrite (stopStream_present _ _ _ Ha).
  - by rewrite (stopStream_absent _ _ Ha).
Qed.

Lemma stopStream_timers name s t :
  t ∈ timers (exec (stopStream name) s) →
  t ∈ timers s ∧ ∀ a, activeStreams s !! name = Some a → tid t ≠ intervalId a.
Proof.
  unfold exec. destruct (activeStreams s !! name) as [a|] eqn:Ha.
  - rewrite (stopStream_present _ _ _ Ha). simpl.
    intros [Hne Hin]%list_elem_of_filter. split; [done|]. by intros ? [= <-].
  - rewrite (stopStream_absent _ _ Ha). done.
Qed.

Lemma emitData_closure sid c s :
  closures s !! sid = Some c →
  let s' := exec (emitData sid) s in
  ∃ c', closures s' !! sid = Some c'
    ∧ match branch c s with
      | DurationComplete | ErrorInjection => c' = c
      | DuplicateInjection => c' = incr_emissionCount c
      | FreshEmission =>
          ∃ data t, c' = assign_lastEmittedData data c ∧ t ∈ timers s'
                    ∧ t_cb t = CbBroadcast sid data ∧ t_repeat t = None
      end.
Proof.
  intros Hc. simpl. pose proof (emitData_branch sid c s Hc) as Hb.
  pose proof (lookup_lt_Some _ _ _ Hc) as Hlt.
  destruct (branch c s).
  - exists c. rewrite Hb. unfold completed. rewrite exec_bind. simpl.
    fold (exec (stopStream (streamName c)) s). by rewrite stopStream_closures.
  - exists c. by rewrite Hb.
  - destruct Hb as (last & _ & ->). exists (incr_emissionCount c). simpl.
    by rewrite list_lookup_insert_eq.
  - destruct Hb as (n & data & delay & _ & _ & ->).
    exists (assign_lastEmittedData data c). simpl.
    rewrite list_lookup_insert_eq by done. split; [done|].
    exists data, {| tid := nextTimer s; t_repeat := None; t_due := now s + delay;
                    t_cb := CbBroadcast sid data |}.
    split; [done|]. split; [|done].
    apply elem_of_app. right. by apply list_elem_of_singleton.
Qed.

Lemma broadcast_present sid c data s :
  closures s !! sid = Some c →
  exec (broadcast sid data) s
  = with_closures (<[sid := incr_emissionCount c]> (closures s))
      (with_emitted (emitted s ++ [IoEmit (streamName c) (PData data)]) s).
Proof.
  intros Hc. unfold exec, broadcast. rewrite Hc.
  unfold mbind, M_bind, io_emit, emit, modify, update_closure. simpl. by rewrite Hc.
Qed.

(** After [stopStream] on its name, a stream whose only pending timer was
    its interval timer has no timer left. *)
Lemma stopStream_quiet sid c s :
  wf s → closures s !! sid = Some c →
  (∀ t, t ∈ timers s → cb_sid (t_cb t) = sid → is_Some (t_repeat t)) →
  quiet sid (exec (stopStream (streamName c)) s).
Proof.
  intros Hw Hc Hint t [Hin Hne]%stopStream_timers Hsid.
  pose proof (Hint t Hin Hsid) as Hr. rewrite <- Hsid in Hc.
  pose proof (wf_owner _ _ Hw t c Hin Hr Hc) as Ho. unfold owner in Ho.
  destruct (activeStreams s !! streamName c) as [a|]; [|done].
  injection Ho as Ho. by apply (Hne a).
Qed.

(** ** Claims about completion *)

Lemma timers_same_tid (l : list Timer) t1 t2 :
  NoDup (tid <$> l) → t1 ∈ l → t2 ∈ l → tid t1 = tid t2 → t1 = t2.
Proof.
  intros Hnd (i & Hi)%list_elem_of_lookup (j & Hj)%list_elem_of_lookup Heq.
  assert (i = j) as ->; [|congruence].
  apply (NoDup_lookup (tid <$> l) i j (tid t1)); [done|..].
  - by rewrite list_lookup_fmap, Hi.
  - by rewrite list_lookup_fmap, Hj, Heq.
Qed.

Lemma completed_no_attempts sid c s :
  wf s → closures s !! sid = Some c → burstMode c = false →
  no_attempts sid (completed c s).
Proof.
  intros Hw Hc Hb t. unfold completed. rewrite exec_bind. simpl.
  fold (exec (stopStream (streamName c)) s).
  intros [Hin Hne]%stopStream_timers.
  split; intros Hcb.
  - assert (Hct : closures s !! cb_sid (t_cb t) = Some c) by (by rewrite Hcb).
    pose proof (wf_kind _ _ Hw t c Hin Hct) as Hk. unfold kind_ok in Hk.
    rewrite Hcb in Hk. destruct (t_repeat t) as [d|] eqn:Hr; [|by rewrite Hk in Hb].
    assert (Hs : is_Some (t_repeat t)) by (by rewrite Hr).
    pose proof (wf_owner _ _ Hw t c Hin Hs Hct) as Ho. unfold owner in Ho.
    destruct (activeStreams s !! streamName c) as [a|]; [|done].
    injection Ho as Ho. by apply (Hne a).
  - assert (Hct : closures s !! cb_sid (t_cb t) = Some c) by (by rewrite Hcb).
    pose proof (wf_kind _ _ Hw t c Hin Hct) as Hk. unfold kind_ok in Hk.
    rewrite Hcb in Hk. destruct Hk as [Hk _]. by rewrite Hk in Hb.
Qed.

Lemma branch_complete c s :
  branch c s = DurationComplete ↔ duration c ≤ now s - startTime c.
Proof.
  unfold branch. destruct (Z.leb_spec (duration c) (now s - startTime c)).
  - done.
  - split; [|lia]. destruct (error_rolled c s); [done|].
    by destruct (duplicate_rolled c s && _).
Qed.

(** ** Claims about starting *)

Lemma startStream_after_stop socket config s :
  exec (startStream socket config)
    (exec (stopStream (default "books" (cfg_streamName config))) s)
  = exec (startStream socket config) s.
Proof.
  unfold startStream. rewrite !(exec_bind (stopStream _)).
  fold (exec (stopStream (default "books" (cfg_streamName config))) s).
  fold (exec (stopStream (default "books" (cfg_streamName config)))
          (exec (stopStream (default "books" (cfg_streamName config))) s)).
  by rewrite stopStream_idempotent.
Qed.

Lemma socket_emit_activeStreams socket channel payload s :
  activeStreams (exec (socket_emit socket channel payload) s) = activeStreams s.
Proof. by destruct socket. Qed.

Lemma startStream_installs socket config s :
  ∃ a, activeStreams (exec (startStream socket config) s)
         !! default "books" (cfg_streamName config) = Some a
       ∧ as_closure a = length (closures s) ∧ as_config a = config.
Proof.
  unfold startStream. rewrite !exec_bind. rewrite socket_emit_activeStreams.
  unfold activeStreams_set at 1. simpl. rewrite lookup_insert_eq.
  eexists. split; [done|]. simpl. split; [|done].
  fold (exec (stopStream (default "books" (cfg_streamName config))) s).
  by rewrite stopStream_closures.
Qed.

(** C4 (as amended).  [startStream] under a name begins with [stopStream] on
    that name, so starting over a running stream is stopping it and then
    starting; the new closure is then registered under the name.  In every
    reachable state each interval timer is the one registered under the
    name of its stream, hence there is at most one interval timer per name.
    (One-shot timers of the stopped stream are not covered: they stay in the
    queue.) *)
Theorem one_interval_timer_per_name s :
  reachable s →
  (∀ socket config,
     exec (startStream socket config) s
     = exec (startStream socket config)
         (exec (stopStream (default "books" (cfg_streamName config))) s)
     ∧ ∃ a, activeStreams (exec (startStream socket config) s)
              !! default "books" (cfg_streamName config) = Some a
            ∧ as_closure a = length (closures s))
  ∧ (∀ t c, t ∈ timers s → is_Some (t_repeat t) →
       closures s !! cb_sid (t_cb t) = Some c →
       ∃ a, activeStreams s !! streamName c = Some a ∧ intervalId a = tid t)
  ∧ (∀ t1 t2 c1 c2,
       t1 ∈ timers s → t2 ∈ timers s →
       is_Some (t_repeat t1) → is_Some (t_repeat t2) →
       closures s !! cb_sid (t_cb t1) = Some c1 →
       closures s !! cb_sid (t_cb t2) = Some c2 →
       streamName c1 = streamName c2 → t1 = t2).
Proof.
  intros Hw%reachable_wf.
  assert (Hown : ∀ t c, t ∈ timers s → is_Some (t_repeat t) →
            closures s !! cb_sid (t_cb t) = Some c →
            ∃ a, activeStreams s !! streamName c = Some a ∧ intervalId a = tid t).
  { intros t c Hin Hr Hc. pose proof (wf_owner _ _ Hw t c Hin Hr Hc) as Ho.
    unfold owner in Ho. destruct (activeStreams s !! streamName c) as [a|]; [|done].
    injection Ho as Ho. eauto. }
  split; [|split; [done|]].
  - intros socket config. split; [by rewrite startStream_after_stop|].
    destruct (startStream_installs socket config s) as (a & Ha & Hsid & _). eauto.
  - intros t1 t2 c1 c2 Hin1 Hin2 Hr1 Hr2 Hc1 Hc2 Hn.
    destruct (Hown t1 c1 Hin1 Hr1 Hc1) as (a1 & Ha1 & Hi1).
    destruct (Hown t2 c2 Hin2 Hr2 Hc2) as (a2 & Ha2 & Hi2).
    apply (timers_same_tid (timers s)); [apply (wf_nodup _ _ Hw)|done..|].
    rewrite Hn, Ha2 in Ha1. injection Ha1 as <-. congruence.
Qed.

(** ** Claims about the replayed payload *)

Lemma burst_closures sid s : closures (exec (burst sid) s) = closures s.
Proof.
  unfold exec at 1, burst. destruct (closures s !! sid) as [c|]; [|done].
  by apply (for_each_inv (fun s1 => closures s1 = closures s)).
Qed.

Lemma effect_other_closure cb sid c s s' :
  effect (Some cb) s s' → cb_sid cb ≠ sid → closures s !! sid = Some c →
  closures s' !! sid = Some c.
Proof.
  intros [He _] Hne Hc. destruct (He sid c Hc) as (c' & Hc' & [->|[_ (cb' & [= <-] & ?)]]);
    done.
Qed.

Lemma run_callback_lastEmittedData cb sid c c' s :
  closures s !! sid = Some c →
  closures (exec (run_callback cb) s) !! sid = Some c' →
  lastEmittedData c' = lastEmittedData c
  ∨ (cb = CbEmitData sid ∧ branch c s = FreshEmission).
Proof.
  intros Hc Hc'. destruct (decide (cb_sid cb = sid)) as [Heq|Hne].
  - destruct cb as [sid'|sid'|sid' data]; simpl in Heq; subst sid'; simpl in Hc'.
    + destruct (emitData_closure sid c s Hc) as (c'' & Hc'' & Hb). simpl in Hc''.
      rewrite Hc'' in Hc'. injection Hc' as ->.
      destruct (branch c s); try (left; by subst c'); by right.
    + rewrite burst_closures, Hc in Hc'. injection Hc' as <-. by left.
    + rewrite (broadcast_present sid c data s Hc) in Hc'. simpl in Hc'.
      rewrite list_lookup_insert_eq in Hc' by (by eapply lookup_lt_Some).
      injection Hc' as <-. by left.
  - rewrite (effect_other_closure cb sid c s _ (effect_run_callback cb s) Hne Hc) in Hc'.
    injection Hc' as <-. by left.
Qed.

Lemma branch_duplicate_Some c s :
  branch c s = DuplicateInjection → is_Some (lastEmittedData c).
Proof.
  unfold branch. destruct (duration c <=? now s - startTime c); [done|].
  destruct (error_rolled c s); [done|].
  destruct (duplicate_rolled c s); simpl; [|done].
  case_bool_decide; done.
Qed.

Lemma startStream_closure socket config s :
  let s' := exec (startStream socket config) s in
  let sid := length (closures s) in
  ∃ c', closures s' !! sid = Some c' ∧ emissionCount c' = 0
    ∧ (lastEmittedData c' = None
       ∨ (default false (cfg_burstMode config) = false
          ∧ ∃ data t, lastEmittedData c' = Some data ∧ t ∈ timers s'
                      ∧ t_cb t = CbBroadcast sid data)).
Proof.
  simpl. unfold startStream.
  set (name := default "books" (cfg_streamName config)).
  rewrite exec_bind.
  pose proof (stopStream_closures name s) as Hc1.
  fold (exec (stopStream name) s). set (s1 := exec (stopStream name) s) in *.
  rewrite <- Hc1. rewrite exec_bind, exec_bind, exec_bind.
  set (s2 := (streamConfigs_set name config s1).2).
  change (closures s1) with (closures s2).
  simpl (Date_now s2).1. simpl (Date_now s2).2.
  set (c0 := Build_Closure _ _ _ _ _ _ _ _ _ _ _ _).
  fold (exec (new_closure c0) s2). set (s3 := exec (new_closure c0) s2) in *.
  assert (Hc3 : closures s3 !! length (closures s2) = Some c0).
  { subst s3. unfold exec, new_closure. simpl.
    rewrite lookup_app_r, Nat.sub_diag by lia. done. }
  simpl (new_closure c0 s2).1. set (sid := length (closures s2)) in *.
  rewrite exec_bind.
  set (m := if default false (cfg_burstMode config) then _ else _).
  rewrite exec_bind.
  set (s5 := (m s3).2).
  set (s6 := (activeStreams_set _ _ s5).2).
  assert (Hclo : closures (exec (socket_emit socket "stream-started"
                   (PStarted name config)) s6) = closures s5) by (by destruct socket).
  assert (Htim : timers (exec (socket_emit socket "stream-started"
                   (PStarted name config)) s6) = timers s5) by (by destruct socket).
  rewrite Hclo, Htim. subst s5 m. clear Hclo Htim s6.
  destruct (default false (cfg_burstMode config)).
  - exists c0. split; [done|]. split; [done|by left].
  - rewrite interval_then_emit. simpl.
    set (s4 := exec (setInterval _ _) s3).
    assert (Hc4 : closures s4 !! sid = Some c0) by done.
    destruct (emitData_closure sid c0 s4 Hc4) as (c' & Hc' & Hb).
    exists c'. split; [done|].
    pose proof (branch_duplicate_Some c0 s4) as Hdup.
    destruct (branch c0 s4).
    + subst c'. split; [done|by left].
    + subst c'. split; [done|by left].
    + by destruct Hdup as [? [=]].
    + destruct Hb as (data & t & -> & Hin & Hcb & _). split; [done|].
      right. split; [done|]. by exists data, t.
Qed.

(** C7. A closure is created without [lastEmittedData]; running a callback
    changes the [lastEmittedData] of a stream only when the callback is an
    attempt of that stream taking the fresh branch, which stores the very
    payload it schedules for broadcast.  An attempt that takes the duplicate
    branch (possible only when a payload is stored) broadcasts that stored
    payload, adds 1 to [emissionCount] and leaves [lastEmittedData] as it
    was. *)
Theorem lastEmittedData_replay sid c s :
  closures s !! sid = Some c →
  let s' := exec (emitData sid) s in
  (∀ cb c', closures (exec (run_callback cb) s) !! sid = Some c' →
     lastEmittedData c' = lastEmittedData c
     ∨ (cb = CbEmitData sid ∧ branch c s = FreshEmission))
  ∧ (branch c s = DuplicateInjection →
     ∃ last c', lastEmittedData c = Some last
       ∧ new_events s s' = [IoEmit (streamName c) (PData last)]
       ∧ closures s' !! sid = Some c'
       ∧ emissionCount c' = emissionCount c + 1
       ∧ lastEmittedData c' = Some last)
  ∧ (branch c s = FreshEmission →
     ∃ data t, closures s' !! sid = Some (assign_lastEmittedData data c)
       ∧ t ∈ timers s' ∧ t_cb t = CbBroadcast sid data)
  ∧ (lastEmittedData c = None → branch c s ≠ DuplicateInjection)
  ∧ (∀ socket config,
       let s1 := exec (startStream socket config) s in
       ∃ c1, closures s1 !! length (closures s) = Some c1 ∧ emissionCount c1 = 0
         ∧ (lastEmittedData c1 = None
            ∨ (default false (cfg_burstMode config) = false
               ∧ ∃ data t, lastEmittedData c1 = Some data ∧ t ∈ timers s1
                           ∧ t_cb t = CbBroadcast (length (closures s)) data))).
Proof.
  intros Hc. simpl. split; [|split; [|split; [|split]]].
  - intros cb c'. by apply run_callback_lastEmittedData.
  - intros Hb. pose proof (emitData_branch sid c s Hc) as He. rewrite Hb in He.
    destruct He as (last & Hl & ->). exists last, (incr_emissionCount c).
    split; [done|]. split; [by apply new_events_app|]. simpl.
    rewrite list_lookup_insert_eq by (by eapply lookup_lt_Some). done.
  - intros Hb. destruct (emitData_closure sid c s Hc) as (c' & Hc' & He).
    rewrite Hb in He. destruct He as (data & t & -> & Hin & Hcb & _). eauto.
  - intros Hn Hb%branch_duplicate_Some. rewrite Hn in Hb. by destruct Hb.
  - intros socket config. apply startStream_closure.
Qed.

(** ** Claims about the lifecycle events *)

Lemma no_start_event_frame s s' : emitted s' = emitted s → no_start_event s s'.
Proof. intros H. exists []. by rewrite app_nil_r. Qed.

Lemma no_start_event_trans s1 s2 s3 :
  no_start_event s1 s2 → no_start_event s2 s3 → no_start_event s1 s3.
Proof.
  intros (l1 & H1 & E1) (l2 & H2 & E2). exists (l1 ++ l2).
  rewrite H2, H1, app_assoc. split; [done|]. by rewrite existsb_app, E1, E2.
Qed.

Lemma no_start_event_stopStream name s : no_start_event s (exec (stopStream name) s).
Proof.
  unfold exec. destruct (activeStreams s !! name) as [a|] eqn:Ha.
  - rewrite (stopStream_present _ _ _ Ha). by eexists [_].
  - rewrite (stopStream_absent _ _ Ha). by apply no_start_event_frame.
Qed.

Lemma no_start_event_emitData sid s : no_start_event s (exec (emitData sid) s).
Proof.
  destruct (closures s !! sid) as [c|] eqn:Hc;
    [|unfold exec, emitData; rewrite Hc; by apply no_start_event_frame].
  pose proof (emitData_branch sid c s Hc) as Hb.
  destruct (branch c s).
  - rewrite Hb. destruct (completed_emitted c s) as (pre & He & Hpre & _).
    eexists. split; [done|]. by destruct Hpre as [-> | ->].
  - rewrite Hb. by eexists [_].
  - destruct Hb as (last & _ & ->). by eexists [_].
  - destruct Hb as (n & data & delay & _ & _ & ->). by apply no_start_event_frame.
Qed.

Lemma startStream_events socket config s :
  let name := default "books" (cfg_streamName config) in
  ∃ pre, new_events s (exec (startStream socket config) s)
         = pre ++ match socket with
                  | Conn conn =>
                      [SocketEmit conn "stream-started" (PStarted name config)]
                  | NoopSocket => []
                  end
         ∧ existsb is_started pre = false.
Proof.
  simpl. unfold startStream.
  set (name := default "books" (cfg_streamName config)).
  rewrite exec_bind.
  pose proof (no_start_event_stopStream name s) as H1.
  fold (exec (stopStream name) s). set (s1 := exec (stopStream name) s) in *.
  rewrite exec_bind, exec_bind, exec_bind.
  set (s2 := (streamConfigs_set name config s1).2).
  simpl (Date_now s2).1. simpl (Date_now s2).2.
  set (c0 := Build_Closure _ _ _ _ _ _ _ _ _ _ _ _).
  fold (exec (new_closure c0) s2). set (s3 := exec (new_closure c0) s2) in *.
  simpl (new_closure c0 s2).1. set (sid := length (closures s2)) in *.
  assert (H3 : no_start_event s s3).
  { eapply no_start_event_trans; [apply H1|]. by apply no_start_event_frame. }
  rewrite exec_bind.
  set (m := if default false (cfg_burstMode config) then _ else _).
  assert (Hm : no_start_event s (m s3).2).
  { eapply no_start_event_trans; [apply H3|]. subst m.
    destruct (default false (cfg_burstMode config)).
    - by apply no_start_event_frame.
    - rewrite interval_then_emit. simpl.
      eapply no_start_event_trans; [|apply no_start_event_emitData].
      by apply no_start_event_frame. }
  rewrite exec_bind. set (s6 := (activeStreams_set _ _ _).2).
  destruct Hm as (pre & Hpre & Es). exists pre. split; [|done].
  destruct socket as [conn|].
  - apply new_events_app. simpl. by rewrite Hpre, app_assoc.
  - apply new_events_app. simpl. by rewrite Hpre, app_nil_r.
Qed.

(** C9 (as amended).  A [start-stream] message on a connection sends
    [stream-started] with the stream's name and the configuration to that
    connection only ([socket.emit]); it is the last event of the start and
    no other [stream-started] event is sent.  A start through
    [POST /streams/start] answers 200 and sends no [stream-started] event at
    all. *)
Theorem stream_started_targeted conn config s :
  (∃ pre, new_events s (exec (on_start_stream conn config) s)
          = pre ++ [SocketEmit conn "stream-started"
                      (PStarted (default "books" (cfg_streamName config)) config)]
          ∧ existsb is_started pre = false)
  ∧ (missing_streamName config = false →
     post_streams_start (Some s) config
     = (json (BStarted "Stream started" config),
        Some (exec (startStream NoopSocket config) s))
     ∧ existsb is_started
         (new_events s (exec (startStream NoopSocket config) s)) = false).
Proof.
  split.
  - apply (startStream_events (Conn conn) config s).
  - intros Hm. unfold post_streams_start. rewrite Hm. split; [done|].
    destruct (startStream_events NoopSocket config s) as (pre & -> & Hpre).
    by rewrite app_nil_r.
Qed.

(** * Further properties *)

(** ** The data generators *)

Lemma floor_below r n :
  (0 <= r)%Q → (r < 1)%Q → 0 < n → 0 ≤ floor (r * inject_Z n) < n.
Proof.
  intros H0 H1 Hn. unfold floor.
  assert (Hq : (0 < inject_Z n)%Q).
  { change (inject_Z 0 < inject_Z n)%Q. by rewrite <- Zlt_Qlt. }
  split.
  - change 0 with (Qfloor 0). apply Qfloor_resp_le.
    apply Qmult_le_0_compat; [done|by apply Qlt_le_weak].
  - rewrite Zlt_Qlt. eapply Qle_lt_trans; [apply Qfloor_le|].
    apply (Qlt_le_trans _ (1 * inject_Z n)); [by apply Qmult_lt_compat_r|].
    rewrite Qmult_1_l. apply Qle_refl.
Qed.

Lemma at_index_elem (arr : list string) i :
  0 ≤ i < Z.of_nat (length arr) → at_index arr i ∈ arr.
Proof.
  intros [H0 H1]. unfold at_index. destruct (Z.ltb_spec i 0); [lia|].
  apply list_elem_of_In, nth_In. lia.
Qed.

Lemma pick_elem (arr : list string) s :
  unit_draws → arr ≠ [] →
  (pick arr s).1 ∈ arr ∧ (pick arr s).2 = with_drawn (S (drawn s)) s.
Proof.
  intros Hu Harr. split; [|done]. apply at_index_elem, floor_below; try apply Hu.
  destruct arr; [done|]. simpl. lia.
Qed.

Lemma random_below_range n s :
  unit_draws → 0 < n →
  0 ≤ (random_below n s).1 < n
  ∧ (random_below n s).2 = with_drawn (S (drawn s)) s.
Proof. intros Hu Hn. split; [|done]. apply floor_below; try apply Hu; done. Qed.

Lemma generateBookData_eq index s :
  generateBookData index s
  = ({| book_id := 1000 + index;
        title := at_index bookTitles (floor (random (drawn s) * inject_Z 15))
                 +:+ " #" +:+ pretty (floor (random (1 + drawn s) * inject_Z 100));
        author := at_index users (floor (random (2 + drawn s) * inject_Z 8));
        isbn := "978-" +:+ pretty (floor (random (3 + drawn s) * inject_Z 10))
                +:+ pretty (floor (random (4 + drawn s) * inject_Z 100000000));
        publishedYear := 2000 + floor (random (5 + drawn s) * inject_Z 24);
        available := Qltb (3 # 10) (random (6 + drawn s));
        book_timestamp := now s;
        category := at_index categories (floor (random (7 + drawn s) * inject_Z 5)) |},
     with_drawn (8 + drawn s) s).
Proof. reflexivity. Qed.

(** X1.  With draws in [0, 1), [generateBookData(index)] returns a book whose id
    is [1000 + index], whose title is a title of the vocabulary followed by
    [" #"] and a number below 100, whose author, category, year (2000 to
    2023) and ISBN digits are in range, and whose timestamp is the current
    time; it makes eight draws and changes nothing else. *)
Theorem generateBookData_ranges index s :
  unit_draws →
  let b := (generateBookData index s).1 in
  book_id b = 1000 + index
  ∧ (∃ t n, t ∈ bookTitles ∧ 0 ≤ n < 100 ∧ title b = t +:+ " #" +:+ pretty n)
  ∧ author b ∈ users
  ∧ (∃ d e, 0 ≤ d < 10 ∧ 0 ≤ e < 100000000
            ∧ isbn b = "978-" +:+ pretty d +:+ pretty e)
  ∧ 2000 ≤ publishedYear b < 2024
  ∧ category b ∈ categories
  ∧ book_timestamp b = now s
  ∧ (generateBookData index s).2 = with_drawn (8 + drawn s) s.
Proof.
  intros Hu. rewrite generateBookData_eq.
  assert (Hf : ∀ k n, 0 < n → 0 ≤ floor (random k * inject_Z n) < n).
  { intros k n Hn. apply floor_below; [apply Hu..|done]. }
  cbn [fst snd book_id title author isbn publishedYear category book_timestamp].
  split; [done|]. split.
  { eexists _, _. split; [|split; [|done]].
    - apply at_index_elem, (Hf _ 15). lia.
    - apply (Hf _ 100). lia. }
  split; [apply at_index_elem, (Hf _ 8); lia|]. split.
  { eexists _, _. split; [|split; [|done]]; apply Hf; lia. }
  split; [pose proof (Hf (5 + drawn s)%nat 24); lia|].
  split; [apply at_index_elem, (Hf _ 5); lia|]. done.
Qed.






(** ** Rates outside of 0..100 *)

Lemma Qltb_false x y : Qltb x y = false ↔ (y <= x)%Q.
Proof.
  unfold Qltb. rewrite negb_false_iff. apply Qle_bool_iff.
Qed.

Lemma roll_below r rate :
  (0 <= r)%Q → (r < 1)%Q → (100 <= rate)%Q →
  Qltb 0 rate && Qltb (r * 100) rate = true.
Proof.
  intros H0 H1 Hr. apply andb_true_iff. split; apply Qltb_true.
  - eapply Qlt_le_trans; [|apply Hr]. done.
  - eapply Qlt_le_trans; [|apply Hr].
    apply (Qlt_le_trans _ (1 * 100)); [by apply Qmult_lt_compat_r|].
    unfold Qle. simpl. lia.
Qed.

(** X3.  The rates are used as given.  With [errorRate <= 0] no attempt sends an
    error event, and with [duplicateRate <= 0] no attempt replays a payload.
    With draws in [0, 1), [errorRate >= 100] means that no attempt sends or
    schedules a payload, and [duplicateRate >= 100] that no attempt of a
    stream that has a stored payload schedules a fresh one. *)
Theorem rates_are_not_clamped sid c s :
  closures s !! sid = Some c →
  timers_fresh s →
  let s' := exec (emitData sid) s in
  ((errorRate c <= 0)%Q → existsb is_error (new_events s s') = false)
  ∧ ((duplicateRate c <= 0)%Q → existsb is_data (new_events s s') = false)
  ∧ (unit_draws → (100 <= errorRate c)%Q →
     existsb is_data (new_events s s') = false
     ∧ existsb is_broadcast (new_timers s s') = false)
  ∧ (unit_draws → (100 <= duplicateRate c)%Q → is_Some (lastEmittedData c) →
     existsb is_broadcast (new_timers s s') = false).
Proof.
  intros Hc Hf. simpl. pose proof (emitData_effects sid c s Hc Hf) as He.
  unfold effects in He.
  assert (Hb : ∀ b, branch c s = b →
            [existsb is_complete (new_events s (exec (emitData sid) s));
             existsb is_error (new_events s (exec (emitData sid) s));
             existsb is_data (new_events s (exec (emitData sid) s));
             existsb is_broadcast (new_timers s (exec (emitData sid) s))]
            = effect_of b) by (by intros b <-).
  clear He. split; [|split; [|split]].
  - intros Hle%Qltb_false.
    assert (branch c s ≠ ErrorInjection).
    { unfold branch, error_rolled. rewrite Hle. simpl.
      destruct (duration c <=? now s - startTime c); [done|].
      by destruct (duplicate_rolled c s && _). }
    destruct (branch c s) eqn:E; try done; by injection (Hb _ eq_refl).
  - intros Hle%Qltb_false.
    assert (branch c s ≠ DuplicateInjection).
    { unfold branch, duplicate_rolled. rewrite Hle. simpl.
      destruct (duration c <=? now s - startTime c); [done|].
      by destruct (error_rolled c s). }
    destruct (branch c s) eqn:E; try done; by injection (Hb _ eq_refl).
  - intros Hu Hr.
    assert (branch c s = DurationComplete ∨ branch c s = ErrorInjection).
    { unfold branch, error_rolled.
      rewrite (roll_below _ _ (proj1 (Hu _)) (proj2 (Hu _)) Hr).
      destruct (duration c <=? now s - startTime c); auto. }
    destruct (branch c s) eqn:E; try (by destruct H);
      by injection (Hb _ eq_refl).
  - intros Hu Hr Hl.
    assert (branch c s ≠ FreshEmission).
    { unfold branch, duplicate_rolled.
      rewrite (roll_below _ _ (proj1 (Hu _)) (proj2 (Hu _)) Hr).
      rewrite (bool_decide_eq_true_2 _ Hl). simpl.
      destruct (duration c <=? now s - startTime c); [done|].
      by destruct (error_rolled c s). }
    destruct (branch c s) eqn:E; try done; by injection (Hb _ eq_refl).
Qed.

(** ** The fresh branch *)

Lemma timer_delay_le r dv :
  (0 <= r)%Q → (r < 1)%Q → 0 < dv →
  timer_delay (r * inject_Z dv) ≤ Z.max 1 dv.
Proof.
  intros H0 H1 Hdv. unfold timer_delay.
  destruct (Qle_bool 1 _ && Qle_bool _ _); [|lia].
  pose proof (floor_below r dv H0 H1 Hdv). lia.
Qed.

Lemma emitData_fresh sid c s :
  closures s !! sid = Some c → branch c s = FreshEmission →
  exec (emitData sid) s
  = exec (emitFresh sid c) (with_drawn (after_duplicate_roll c s) s).
Proof.
  intros Hc Hb. unfold exec, emitData. rewrite Hc.
  unfold branch, error_rolled, duplicate_rolled in Hb.
  unfold after_duplicate_roll, after_error_roll in *.
  unfold mbind, M_bind, mret, M_ret, Math_random, Date_now, get.
  destruct (duration c <=? now s - startTime c); [done|].
  destruct (Qltb 0 (errorRate c)); simpl in Hb |- *.
  - destruct (Qltb (random (drawn s) * 100) (errorRate c)); [done|].
    destruct (Qltb 0 (duplicateRate c)); simpl in Hb |- *; [|done].
    destruct (Qltb (random (S (drawn s)) * 100) (duplicateRate c)); [|done].
    destruct (lastEmittedData c); [|done].
    simpl in Hb. first [done | by rewrite bool_decide_eq_true_2 in Hb].
  - destruct (Qltb 0 (duplicateRate c)); simpl in Hb |- *;
      [|by rewrite with_drawn_id].
    destruct (Qltb (random (drawn s) * 100) (duplicateRate c)); [|done].
    destruct (lastEmittedData c); [|done].
    simpl in Hb. first [done | by rewrite bool_decide_eq_true_2 in Hb].
Qed.

Lemma emitFresh_details sid c s :
  closures s !! sid = Some c →
  let data := if String.eqb (streamName c) "books"
              then Book (generateBookData (emissionCount c) s).1
              else Issue (generateIssueData (emissionCount c) s).1 in
  ∃ n delay, exec (emitFresh sid c) s = scheduled sid c n data delay s
    ∧ 1 ≤ delay ∧ (unit_draws → delay ≤ Z.max 1 (delayVariation c)).
Proof.
  intros Hc. simpl. unfold exec, emitFresh.
  set (gen := if String.eqb _ _ then _ else _).
  assert (Hgen : ∃ n, gen s
    = (if String.eqb (streamName c) "books"
       then Book (generateBookData (emissionCount c) s).1
       else Issue (generateIssueData (emissionCount c) s).1, with_drawn n s)).
  { subst gen. destruct (String.eqb (streamName c) "books").
    - destruct (draws_only_book (emissionCount c) s) as (n & _ & Hn). exists n.
      unfold mbind, M_bind, mret, M_ret.
      destruct (generateBookData (emissionCount c) s). simpl in *. by subst.
    - destruct (draws_only_issue (emissionCount c) s) as (n & _ & Hn). exists n.
      unfold mbind, M_bind, mret, M_ret.
      destruct (generateIssueData (emissionCount c) s). simpl in *. by subst. }
  destruct Hgen as (n1 & Hgen). unfold mbind at 1, M_bind at 1. rewrite Hgen.
  unfold update_closure, mbind at 1, M_bind at 1. simpl. rewrite Hc.
  destruct (Z.ltb_spec 0 (delayVariation c)).
  - exists (S n1), (timer_delay (random n1 * inject_Z (delayVariation c))).
    split; [done|]. split; [apply timer_delay_pos|].
    intros Hu. apply timer_delay_le; [apply Hu..|done].
  - exists n1, (timer_delay 0). split; [done|]. split; [apply timer_delay_pos|].
    intros _. change (timer_delay 0) with 1. lia.
Qed.

(** X4.  An attempt that takes the fresh branch sends nothing itself: it stores
    the generated payload as [lastEmittedData] and schedules its broadcast on
    one new one-shot timer, due (with draws in [0, 1)) between 1 ms and
    [max(1, delayVariation)] ms later.  The payload is a book exactly when
    the stream is named ['books'], and its id is 1000 (books) or 5000
    (others) plus the [emissionCount] at the time of the attempt. *)
Theorem fresh_attempt_schedules sid c s :
  closures s !! sid = Some c →
  timers_fresh s →
  branch c s = FreshEmission →
  let s' := exec (emitData sid) s in
  ∃ data t,
    new_events s s' = []
    ∧ new_timers s s' = [t]
    ∧ tid t = nextTimer s ∧ t_repeat t = None ∧ t_cb t = CbBroadcast sid data
    ∧ now s + 1 ≤ t_due t
    ∧ (unit_draws → t_due t ≤ now s + Z.max 1 (delayVariation c))
    ∧ closures s' !! sid = Some (assign_lastEmittedData data c)
    ∧ match data with
      | Book b => streamName c = "books" ∧ book_id b = 1000 + emissionCount c
      | Issue i => streamName c ≠ "books" ∧ issue_id i = 5000 + emissionCount c
      end.
Proof.
  intros Hc Hf Hb. simpl. rewrite (emitData_fresh sid c s Hc Hb).
  set (s1 := with_drawn (after_duplicate_roll c s) s).
  assert (Hc1 : closures s1 !! sid = Some c) by done.
  destruct (emitFresh_details sid c s1 Hc1) as (n & delay & -> & Hd1 & Hd2).
  eexists _, {| tid := nextTimer s; t_repeat := None; t_due := now s + delay;
                t_cb := CbBroadcast sid _ |}.
  split; [apply new_events_app; simpl; by rewrite app_nil_r|].
  split; [by apply new_timers_added|].
  split; [done|]. split; [done|]. split; [done|]. split; [simpl; lia|].
  split; [intros Hu; specialize (Hd2 Hu); simpl; lia|].
  split; [simpl; apply list_lookup_insert_eq; by eapply lookup_lt_Some|].
  destruct (String.eqb_spec (streamName c) "books") as [Hn|Hn].
  - split; [done|]. by rewrite generateBookData_eq.
  - split; [done|]. clear.
    cbv beta iota zeta delta [generateIssueData pick random_below mbind M_bind
      mret M_ret Math_random Date_now get fst].
    by repeat (destruct (String.eqb _ _)).
Qed.

(** ** The burst timer *)

Lemma for_each_setTimeout cb (after : Z → Q) (l : list Z) s :
  exec (for_each l (fun i => setTimeout cb (after i);; mret tt)) s
  = with_timers
      (timers s ++
       imap (fun k i => {| tid := nextTimer s + k; t_repeat := None;
                           t_due := now s + timer_delay (after i);
                           t_cb := cb |}) l)
      (nextTimer s + length l) s.
Proof.
  revert s. induction l as [|x l IH]; intros s.
  - simpl. rewrite app_nil_r, Nat.add_0_r. by destruct s.
  - simpl for_each. rewrite exec_bind, IH. rewrite imap_cons.
    unfold with_timers. simpl. rewrite <- app_assoc. simpl.
    rewrite Nat.add_0_r. f_equal; [|lia]. f_equal. f_equal.
    apply imap_ext. intros k i _. simpl. f_equal. lia.
Qed.

Lemma timer_delay_Z z :
  1 ≤ z ≤ TIMEOUT_MAX → timer_delay (inject_Z z) = z.
Proof.
  intros [H1 H2]. unfold timer_delay, floor.
  assert (Qle_bool 1 (inject_Z z) = true) as ->.
  { apply Qle_bool_iff. change (inject_Z 1 <= inject_Z z)%Q. by rewrite <- Zle_Qle. }
  assert (Qle_bool (inject_Z z) (inject_Z TIMEOUT_MAX) = true) as ->.
  { apply Qle_bool_iff. by rewrite <- Zle_Qle. }
  apply Qfloor_Z.
Qed.

(** X5.  When the interval timer of a burst-mode stream fires, exactly
    [burstSize] one-shot attempts are put in the queue (none when
    [burstSize <= 0]), with consecutive identifiers; the first is due 1 ms
    later and attempt [k] is due [100 * k] ms later (as long as this is below
    Node's largest delay).  Nothing is sent and no closure or registry entry
    changes. *)
Theorem burst_schedules sid c s :
  closures s !! sid = Some c →
  let s' := exec (burst sid) s in
  let n := Z.to_nat (burstSize c) in
  (∃ new, timers s' = timers s ++ new ∧ length new = n
     ∧ ∀ k, (k < n)%nat →
         ∃ t, new !! k = Some t ∧ tid t = (nextTimer s + k)%nat
           ∧ t_repeat t = None ∧ t_cb t = CbEmitData sid
           ∧ (k = 0%nat → t_due t = now s + 1)
           ∧ (0 < Z.of_nat k * 100 ≤ TIMEOUT_MAX →
              t_due t = now s + Z.of_nat k * 100))
  ∧ nextTimer s' = (nextTimer s + n)%nat
  ∧ emitted s' = emitted s ∧ closures s' = closures s
  ∧ activeStreams s' = activeStreams s ∧ streamConfigs s' = streamConfigs s.
Proof.
  intros Hc. simpl. unfold exec at 1 2 3 4 5 6, burst. rewrite Hc.
  fold (exec (for_each (seqZ 0 (burstSize c))
    (fun i => setTimeout (CbEmitData sid) (inject_Z (i * 100));; mret tt)) s).
  rewrite (for_each_setTimeout (CbEmitData sid) (fun i => inject_Z (i * 100))).
  simpl. rewrite length_seqZ. split; [|done].
  eexists. split; [done|]. split; [by rewrite length_imap, length_seqZ|].
  intros k Hk. rewrite list_lookup_imap, lookup_seqZ_lt by lia. simpl.
  eexists. split; [done|]. simpl. split; [done|]. split; [done|]. split; [done|].
  split.
  - by intros ->.
  - intros Hr. rewrite timer_delay_Z by lia. done.
Qed.

(** ** Stopping every stream *)

Lemma stop_each (l : list string) s :
  NoDup l → (∀ n, n ∈ l → is_Some (activeStreams s !! n)) →
  let s' := exec (for_each l stopStream) s in
  (∀ n, activeStreams s' !! n = if decide (n ∈ l) then None else activeStreams s !! n)
  ∧ (∀ n, streamConfigs s' !! n = if decide (n ∈ l) then None else streamConfigs s !! n)
  ∧ emitted s' = emitted s ++ ((fun n => IoEmit "stream-stopped" (PStopped n)) <$> l)
  ∧ closures s' = closures s.
Proof.
  revert s. induction l as [|x l IH]; intros s Hnd Hin; simpl.
  - split; [done|]. split; [done|]. by rewrite app_nil_r.
  - apply NoDup_cons in Hnd as [Hx Hnd]. rewrite exec_bind.
    destruct (Hin x) as [a Ha]; [by left|].
    rewrite (stopStream_present _ _ _ Ha). simpl.
    destruct (IH (stopped x a s) Hnd) as (H1 & H2 & H3 & H4).
    { intros n Hn. simpl. rewrite lookup_delete_ne by (by intros ->).
      apply Hin. by right. }
    split; [|split; [|split]].
    + intros n. rewrite H1. simpl.
      destruct (decide (n ∈ l)) as [Hl|Hl], (decide (n ∈ x :: l)) as [Hxl|Hxl];
        try done.
      * exfalso. apply Hxl. by right.
      * apply elem_of_cons in Hxl as [->|?]; [apply lookup_delete_eq|done].
      * apply lookup_delete_ne. intros ->. apply Hxl. by left.
    + intros n. rewrite H2. simpl.
      destruct (decide (n ∈ l)) as [Hl|Hl], (decide (n ∈ x :: l)) as [Hxl|Hxl];
        try done.
      * exfalso. apply Hxl. by right.
      * apply elem_of_cons in Hxl as [->|?]; [apply lookup_delete_eq|done].
      * apply lookup_delete_ne. intros ->. apply Hxl. by left.
    + rewrite H3. simpl. by rewrite <- app_assoc.
    + by rewrite H4.
Qed.

(** X6.  [stopAllStreams] leaves no stream registered, removes the
    configuration of every stream that was, and broadcasts exactly one
    [stream-stopped] per stream that was registered; closures are
    untouched.  In a reachable state no interval timer
    is left in the queue afterwards. *)
Theorem stopAllStreams_stops_all s :
  let s' := exec stopAllStreams s in
  let names := (map_to_list (activeStreams s)).*1 in
  activeStreams s' = ∅
  ∧ (∀ n, is_Some (activeStreams s !! n) → streamConfigs s' !! n = None)
  ∧ (∀ n, activeStreams s !! n = None → streamConfigs s' !! n = streamConfigs s !! n)
  ∧ new_events s s' ≡ₚ (fun n => IoEmit "stream-stopped" (PStopped n)) <$> names
  ∧ length (new_events s s') = size (activeStreams s)
  ∧ closures s' = closures s
  ∧ (reachable s → ∀ t, t ∈ timers s' → t_repeat t = None).
Proof.
  simpl. set (names := (map_to_list (activeStreams s)).*1).
  assert (Hmem : ∀ n, n ∈ names ↔ is_Some (activeStreams s !! n)).
  { intros n. subst names. rewrite list_elem_of_fmap. split.
    - intros ([n' a] & -> & Hin%elem_of_map_to_list). by exists a.
    - intros [a Ha]. exists (n, a). split; [done|]. by apply elem_of_map_to_list. }
  destruct (stop_each names s) as (H1 & H2 & H3 & H4).
  { apply NoDup_fst_map_to_list. }
  { intros n. apply Hmem. }
  unfold exec at 1 2 3 4 5 6 7, stopAllStreams. fold names.
  fold (exec (for_each names stopStream) s).
  assert (Hempty : activeStreams (exec (for_each names stopStream) s) = ∅).
  { apply map_eq. intros n. rewrite H1, lookup_empty.
    destruct (decide (n ∈ names)) as [|Hn]; [done|].
    apply eq_None_not_Some. by rewrite <- Hmem. }
  split; [done|]. split; [|split; [|split; [|split; [|split]]]].
  - intros n Hn%Hmem. rewrite H2. by rewrite decide_True.
  - intros n Hn. rewrite H2. rewrite decide_False; [done|].
    rewrite Hmem, Hn. by intros [? [=]].
  - by rewrite (new_events_app _ _ _ H3).
  - rewrite (new_events_app _ _ _ H3), length_fmap. subst names.
    by rewrite length_fmap, length_map_to_list.
  - done.
  - intros Hr t Ht. destruct (t_repeat t) as [d|] eqn:Hrep; [|done].
    assert (Hw : wf (exec (for_each names stopStream) s)).
    { apply (wfp_stopAllStreams s (reachable_wf s Hr)). }
    destruct (wf_closure _ _ Hw t Ht) as [c Hc].
    pose proof (wf_owner _ _ Hw t c Ht ltac:(by rewrite Hrep) Hc) as Ho.
    unfold owner in Ho. by rewrite Hempty, lookup_empty in Ho.
Qed.

(** ** Configurations and registry *)

Lemma synced_frame p s s' :
  activeStreams s' = activeStreams s → streamConfigs s' = streamConfigs s →
  synced p s → synced p s'.
Proof. intros Ha Hc [H1 H2]. split; unfold configs_of in *; rewrite ?Ha, ?Hc; done. Qed.

Lemma synced_stopStream p name s :
  (∀ m cfg, p = Some (m, cfg) → m = name) →
  synced p s → synced p (exec (stopStream name) s).
Proof.
  intros Hp [H1 H2]. unfold exec.
  destruct (activeStreams s !! name) as [a|] eqn:Ha.
  - destruct p as [[m cfg]|].
    { rewrite <- (Hp m cfg eq_refl), (H2 m cfg eq_refl) in Ha. done. }
    rewrite (stopStream_present _ _ _ Ha). split; [|done]. simpl. intros n.
    destruct (decide (name = n)) as [->|Hne].
    + by rewrite !lookup_delete_eq.
    + rewrite !lookup_delete_ne by done. apply H1.
  - by rewrite (stopStream_absent _ _ Ha).
Qed.

Lemma synced_emitData p sid c s :
  closures s !! sid = Some c →
  (∀ m cfg, p = Some (m, cfg) → m = streamName c) →
  synced p s → synced p (exec (emitData sid) s).
Proof.
  intros Hc Hp Hs. pose proof (emitData_branch sid c s Hc) as Hb.
  destruct (branch c s).
  - rewrite Hb. unfold completed. rewrite exec_bind.
    eapply synced_frame; [..|apply (synced_stopStream p (streamName c) s Hp Hs)]; done.
  - rewrite Hb. eapply synced_frame; [..|apply Hs]; done.
  - destruct Hb as (last & _ & ->). eapply synced_frame; [..|apply Hs]; done.
  - destruct Hb as (n & data & delay & _ & _ & ->).
    eapply synced_frame; [..|apply Hs]; done.
Qed.

Lemma burst_maps sid s :
  activeStreams (exec (burst sid) s) = activeStreams s
  ∧ streamConfigs (exec (burst sid) s) = streamConfigs s.
Proof.
  unfold exec at 1 2, burst. destruct (closures s !! sid) as [c|]; [|done].
  apply (for_each_inv (fun s1 => activeStreams s1 = activeStreams s
                                 ∧ streamConfigs s1 = streamConfigs s)); done.
Qed.

Lemma broadcast_maps sid data s :
  activeStreams (exec (broadcast sid data) s) = activeStreams s
  ∧ streamConfigs (exec (broadcast sid data) s) = streamConfigs s.
Proof.
  destruct (closures s !! sid) as [c|] eqn:Hc.
  - by rewrite (broadcast_present sid c data s Hc).
  - unfold exec, broadcast. by rewrite Hc.
Qed.

Lemma synced_startStream socket config s :
  synced None s → synced None (exec (startStream socket config) s).
Proof.
  intros Hs. unfold startStream.
  set (name := default "books" (cfg_streamName config)).
  rewrite exec_bind.
  pose proof (synced_stopStream None name s ltac:(done) Hs) as Hs1.
  pose proof (stopStream_unregisters name s) as Ha1.
  fold (exec (stopStream name) s). set (s1 := exec (stopStream name) s) in *.
  rewrite exec_bind, exec_bind, exec_bind.
  set (s2 := (streamConfigs_set name config s1).2).
  assert (Hs2 : synced (Some (name, config)) s2).
  { destruct Hs1 as [H1 _]. split.
    - intros n. simpl. destruct (decide (name = n)) as [->|Hne].
      + by rewrite lookup_insert_eq.
      + rewrite lookup_insert_ne by done. apply H1.
    - by intros m cfg [= <- _]. }
  simpl (Date_now s2).1. simpl (Date_now s2).2.
  set (c0 := Build_Closure _ _ _ _ _ _ _ _ _ _ _ _).
  fold (exec (new_closure c0) s2). set (s3 := exec (new_closure c0) s2) in *.
  assert (Hc3 : closures s3 !! length (closures s2) = Some c0).
  { subst s3. unfold exec, new_closure. simpl.
    rewrite lookup_app_r, Nat.sub_diag by lia. done. }
  simpl (new_closure c0 s2).1. set (sid := length (closures s2)) in *.
  rewrite exec_bind.
  set (m := if default false (cfg_burstMode config) then _ else _).
  assert (Hm : synced (Some (name, config)) (m s3).2).
  { subst m. destruct (default false (cfg_burstMode config)).
    - eapply synced_frame; [..|apply Hs2]; done.
    - rewrite interval_then_emit. simpl.
      apply (synced_emitData _ sid c0); [done|by intros ? ? [= <- _]|].
      eapply synced_frame; [..|apply Hs2]; done. }
  rewrite exec_bind. set (s6 := (activeStreams_set _ _ _).2).
  apply (synced_frame None s6);
    [by rewrite socket_emit_activeStreams|by destruct socket|].
  destruct Hm as [H1 H2]. split; [|done]. intros n. subst s6. simpl.
  specialize (H1 n). simpl in H1. destruct (decide (name = n)) as [->|Hne].
  - by rewrite lookup_insert_eq.
  - by rewrite lookup_insert_ne.
Qed.

Lemma synced_step a t s s' : synced None s → step a t s = Some s' → synced None s'.
Proof.
  intros Hs. unfold step. destruct (now s <=? t); [|done].
  assert (Hs1 : synced None (exec (set_clock t) s))
    by (eapply synced_frame; [..|apply Hs]; done).
  destruct a; try (intros [= <-]).
  - unfold fire. destruct (find_timer id _) as [tm|]; [|done].
    destruct (t_due tm <=? t); [|done]. intros [= <-]. rewrite exec_bind.
    set (sr := (set_timers _ _).2).
    assert (Hsr : synced None sr) by (eapply synced_frame; [..|apply Hs1]; done).
    destruct (t_cb tm) as [sid|sid|sid data]; simpl.
    + destruct (closures sr !! sid) as [c|] eqn:Hc.
      * by apply (synced_emitData None sid c).
      * unfold exec, emitData. by rewrite Hc.
    + eapply synced_frame; [apply burst_maps..|done].
    + eapply synced_frame; [apply broadcast_maps..|done].
  - eapply synced_frame; [..|apply Hs1]; done.
  - by apply synced_startStream.
  - by apply synced_stopStream.
  - eapply synced_frame; [..|apply Hs1]; done.
  - by apply synced_startStream.
  - by apply synced_stopStream.
  - unfold exec at 1, stopAllStreams. apply (for_each_inv (synced None)); [|done].
    intros name s1. by apply synced_stopStream.
Qed.

Lemma reachable_synced s : reachable s → synced None s.
Proof.
  intros [l Hl]. assert (H0 : synced None init) by done.
  revert Hl H0. generalize init. induction l as [|[a t] l IH]; intros s0; simpl.
  - by intros [= <-].
  - destruct (step a t s0) as [s1|] eqn:Hs; [|done]. intros Hr H0.
    apply (IH s1 Hr). by eapply synced_step.
Qed.

Lemma streamConfigs_match_activeStreams_aux s :
  reachable s →
  streamConfigs s = as_config <$> activeStreams s
  ∧ ∀ n, is_Some (streamConfigs s !! n) ↔ is_Some (activeStreams s !! n).
Proof.
  intros [H1 _]%reachable_synced.
  assert (Heq : streamConfigs s = as_config <$> activeStreams s).
  { apply map_eq. intros n. rewrite H1, lookup_fmap. done. }
  split; [done|]. intros n. rewrite Heq, lookup_fmap. apply fmap_is_Some.
Qed.

(** X7.  In every reachable state [streamConfigs] has exactly the names of
    [activeStreams], each with the configuration object its stream was
    started with. *)
Theorem streamConfigs_match_activeStreams s :
  reachable s →
  streamConfigs s = as_config <$> activeStreams s
  ∧ ∀ n, is_Some (streamConfigs s !! n) ↔ is_Some (activeStreams s !! n).
Proof. apply streamConfigs_match_activeStreams_aux. Qed.

Lemma getStreamConfigs_eq s :
  getStreamConfigs s = (delete "__proto__" (streamConfigs s), s).
Proof.
  unfold getStreamConfigs, get, mbind, M_bind, mret, M_ret. simpl. f_equal.
  apply (map_fold_weak_ind
           (fun r (m : gmap string Config) => r = delete "__proto__" m)).
  - by rewrite delete_empty.
  - intros n x m r Hn ->. unfold assign_property.
    destruct (decide (n = "__proto__")) as [->|Hne].
    + by rewrite delete_insert_eq.
    + by rewrite delete_insert_ne.
Qed.

(** X8.  What clients are told about the running streams.  In every reachable
    state, [GET /streams] answers 200 with the names of the registered
    streams, without repetition, and their number as [totalActive]; its
    [configs] object holds the configuration each registered stream was
    started with, except that a stream named ['__proto__'] is counted and
    named but has no property in [configs].  A new connection (or a
    [get-configs] message) is sent the same object, on that connection only.
    Neither changes the state of the engine. *)
Theorem running_streams_reported conn s :
  reachable s →
  let configs := delete "__proto__" (as_config <$> activeStreams s) in
  (∃ names,
     get_streams (Some s)
     = ({| status := 200;
           body := BStreams names configs (size (activeStreams s)) |}, Some s)
     ∧ NoDup names
     ∧ (∀ n, n ∈ names ↔ is_Some (activeStreams s !! n))
     ∧ (∀ n, is_Some (configs !! n) ↔ n ∈ names ∧ n ≠ "__proto__"))
  ∧ exec (on_connection conn) s
    = with_emitted
        (emitted s ++ [SocketEmit conn "stream-configs" (PConfigs configs)]) s
  ∧ exec (on_get_configs conn) s = exec (on_connection conn) s.
Proof.
  intros [Heq Hdom]%streamConfigs_match_activeStreams_aux configs.
  assert (Hnames : ∀ n, n ∈ (map_to_list (activeStreams s)).*1
                        ↔ is_Some (activeStreams s !! n)).
  { intros n. rewrite list_elem_of_fmap. split.
    - intros ([n' a] & -> & Hin%elem_of_map_to_list). by exists a.
    - intros [a Ha]. exists (n, a). split; [done|]. by apply elem_of_map_to_list. }
  split; [|split].
  - eexists. unfold get_streams, json. rewrite getStreamConfigs_eq. simpl.
    rewrite length_fmap, length_map_to_list, Heq. split; [done|].
    split; [apply NoDup_fst_map_to_list|]. split; [done|].
    intros n. rewrite Hnames. unfold configs.
    destruct (decide (n = "__proto__")) as [->|Hne].
    + rewrite lookup_delete_eq. split; [by intros [? ?]|by intros [_ ?]].
    + rewrite lookup_delete_ne by done. rewrite lookup_fmap, fmap_is_Some.
      split; [done|by intros [? _]].
  - unfold exec, on_connection, mbind, M_bind. rewrite getStreamConfigs_eq.
    simpl. by rewrite Heq.
  - done.
Qed.

(** ** Registered streams are running *)

Lemma interval_timer_of_sid c sid t :
  interval_timer_of c sid t → cb_sid (t_cb t) = sid ∧ is_Some (t_repeat t).
Proof. intros [Hr Hcb]. rewrite Hr, Hcb. split; [by destruct (burstMode c)|by eexists]. Qed.

Lemma interval_timer_of_constants c c' sid t :
  constants c' = constants c → interval_timer_of c sid t → interval_timer_of c' sid t.
Proof. intros H. unfold interval_timer_of. inversion H. congruence. Qed.

Lemma live_preserved s s' :
  (∀ sid c, closures s !! sid = Some c →
     ∃ c', closures s' !! sid = Some c' ∧ constants c' = constants c) →
  (∀ name a, activeStreams s' !! name = Some a → activeStreams s !! name = Some a) →
  (∀ name a t, activeStreams s' !! name = Some a → t ∈ timers s →
     tid t = intervalId a → is_Some (t_repeat t) →
     ∃ t', t' ∈ timers s' ∧ tid t' = tid t ∧ t_repeat t' = t_repeat t
           ∧ t_cb t' = t_cb t) →
  live s → live s'.
Proof.
  intros Hc Ha Ht Hl name a Hna.
  destruct (Hl name a (Ha _ _ Hna)) as (c & t & Hca & Hk & Hn & Hin & Hid & Hit).
  destruct (Hc _ _ Hca) as (c' & Hc' & Hk').
  destruct (Ht name a t Hna Hin Hid (proj2 (interval_timer_of_sid _ _ _ Hit)))
    as (t' & Hin' & Hid' & Hr' & Hcb').
  exists c', t'. split; [done|]. split; [congruence|].
  split; [by rewrite (constants_streamName _ _ Hk')|].
  split; [done|]. split; [congruence|].
  apply (interval_timer_of_constants c); [done|].
  destruct Hit as [Hr Hcb]. split; congruence.
Qed.

Lemma live_frame s s' :
  closures s' = closures s → activeStreams s' = activeStreams s →
  (∀ t, t ∈ timers s → t ∈ timers s') →
  live s → live s'.
Proof.
  intros Hc Ha Ht. apply live_preserved.
  - intros sid c H. exists c. by rewrite Hc.
  - intros name a. by rewrite Ha.
  - intros name a t _ Hin _ _. exists t. eauto.
Qed.

Lemma live_set_closure s sid c c' :
  closures s !! sid = Some c → constants c' = constants c →
  live s → live (with_closures (<[sid := c']> (closures s)) s).
Proof.
  intros Hc Hk. apply live_preserved; simpl.
  - intros j cj Hj. destruct (decide (sid = j)) as [<-|Hne].
    + exists c'. rewrite list_lookup_insert_eq by (by eapply lookup_lt_Some).
      split; [done|]. congruence.
    + exists cj. by rewrite list_lookup_insert_ne.
  - done.
  - intros name a t _ Hin _ _. exists t. eauto.
Qed.

Lemma live_add_timer s rep cb delay :
  live s → live (exec (add_timer rep cb delay) s).
Proof.
  apply live_frame; [done..|]. simpl. intros t Ht. apply elem_of_app. by left.
Qed.

Lemma live_entry_distinct s name a name' a' :
  NoDup (tid <$> timers s) → live s →
  activeStreams s !! name = Some a → activeStreams s !! name' = Some a' →
  intervalId a = intervalId a' → name = name'.
Proof.
  intros Hnd Hl Ha Ha' Hid.
  destruct (Hl name a Ha) as (c & t & Hc & _ & Hn & Hin & Ht & Hit).
  destruct (Hl name' a' Ha') as (c' & t' & Hc' & _ & Hn' & Hin' & Ht' & Hit').
  assert (t = t') as <- by (apply (timers_same_tid (timers s)); congruence).
  apply interval_timer_of_sid in Hit as [Hs _], Hit' as [Hs' _].
  congruence.
Qed.

Lemma live_stopStream name s :
  NoDup (tid <$> timers s) → live s → live (exec (stopStream name) s).
Proof.
  intros Hnd Hl. unfold exec. destruct (activeStreams s !! name) as [a|] eqn:Ha.
  - rewrite (stopStream_present _ _ _ Ha).
    apply (live_preserved s); simpl; [| | |done].
    + eauto.
    + intros n' a' [Hne H]%lookup_delete_Some. done.
    + intros n' a' t [Hne H]%lookup_delete_Some Hin Hid _. exists t.
      split; [|done]. apply list_elem_of_filter. split; [|done].
      intros Heq. apply Hne.
      apply (live_entry_distinct s name a n' a'); [done..|congruence].
  - by rewrite (stopStream_absent _ _ Ha).
Qed.

Lemma live_rearm s t tm :
  NoDup (tid <$> timers s) → tm ∈ timers s →
  live s → live (exec (set_timers (rearm t tm (timers s))) s).
Proof.
  intros Hnd Hin. apply live_preserved; simpl; [eauto|done|].
  intros name a t0 _ Hin0 _ Hr. unfold rearm.
  destruct (t_repeat tm) as [d|] eqn:Hrep.
  - eexists. split; [apply list_elem_of_fmap; eexists; split; [done|apply Hin0]|].
    by destruct (Nat.eqb _ _).
  - exists t0. split; [|done]. apply list_elem_of_filter. split; [|done].
    intros Heq. assert (t0 = tm) as -> by (by apply (timers_same_tid (timers s))).
    rewrite Hrep in Hr. by destruct Hr.
Qed.

Lemma live_emitData sid s :
  NoDup (tid <$> timers s) → live s → live (exec (emitData sid) s).
Proof.
  intros Hnd Hl. destruct (closures s !! sid) as [c|] eqn:Hc;
    [|unfold exec, emitData; by rewrite Hc].
  pose proof (emitData_branch sid c s Hc) as Hb.
  destruct (branch c s).
  - rewrite Hb. unfold completed. rewrite exec_bind.
    eapply live_frame; [..|apply (live_stopStream (streamName c) s Hnd Hl)]; done.
  - rewrite Hb. eapply live_frame; [..|apply Hl]; done.
  - destruct Hb as (last & _ & ->).
    apply (live_set_closure
             (with_emitted (emitted s ++ [IoEmit (streamName c) (PData last)])
                (with_drawn (after_duplicate_roll c s) s)) sid c); [done..|].
    eapply live_frame; [..|apply Hl]; done.
  - destruct Hb as (n & data & delay & _ & _ & ->). unfold scheduled.
    rewrite exec_bind, exec_bind. apply live_add_timer.
    apply (live_set_closure (with_drawn n s) sid c); [done..|].
    eapply live_frame; [..|apply Hl]; done.
Qed.

Lemma live_burst sid s : live s → live (exec (burst sid) s).
Proof.
  intros Hl. unfold exec at 1, burst. destruct (closures s !! sid) as [c|]; [|done].
  apply (for_each_inv live); [|done].
  intros i s1 H1. rewrite exec_bind. by apply live_add_timer.
Qed.

Lemma live_broadcast sid data s : live s → live (exec (broadcast sid data) s).
Proof.
  intros Hl. destruct (closures s !! sid) as [c|] eqn:Hc;
    [|unfold exec, broadcast; by rewrite Hc].
  rewrite (broadcast_present sid c data s Hc).
  apply (live_set_closure
           (with_emitted (emitted s ++ [IoEmit (streamName c) (PData data)]) s)
           sid c); [done..|].
  eapply live_frame; [..|apply Hl]; done.
Qed.

(** While the name of its stream is not registered, an attempt removes no
    timer. *)
Lemma emitData_keeps_timers sid c s t :
  closures s !! sid = Some c → activeStreams s !! streamName c = None →
  t ∈ timers s → t ∈ timers (exec (emitData sid) s).
Proof.
  intros Hc Ha Hin. pose proof (emitData_branch sid c s Hc) as Hb.
  destruct (branch c s).
  - rewrite Hb. unfold completed. rewrite exec_bind.
    by rewrite (stopStream_absent _ _ Ha).
  - by rewrite Hb.
  - by destruct Hb as (last & _ & ->).
  - destruct Hb as (n & data & delay & _ & _ & ->). simpl.
    apply elem_of_app. by left.
Qed.

Lemma emitData_constants sid c s :
  closures s !! sid = Some c →
  ∃ c', closures (exec (emitData sid) s) !! sid = Some c'
        ∧ constants c' = constants c.
Proof.
  intros Hc. destruct (emitData_closure sid c s Hc) as (c' & Hc' & Hb).
  exists c'. split; [done|]. destruct (branch c s); try by subst.
  by destruct Hb as (data & t & -> & _).
Qed.

Lemma live_startStream socket config s :
  wf s → live s → live (exec (startStream socket config) s).
Proof.
  intros Hw Hl. unfold startStream.
  set (name := default "books" (cfg_streamName config)).
  rewrite exec_bind.
  pose proof (wfp_stopStream None name s ltac:(done) Hw) as Hw1.
  pose proof (live_stopStream name s (wf_nodup _ _ Hw) Hl) as Hl1.
  pose proof (stopStream_unregisters name s) as Ha1.
  fold (exec (stopStream name) s). set (s1 := exec (stopStream name) s) in *.
  rewrite exec_bind, exec_bind, exec_bind.
  set (s2 := (streamConfigs_set name config s1).2).
  assert (Hw2 : wf s2) by (eapply wfp_frame; [..|apply Hw1]; done).
  assert (Hl2 : live s2) by (eapply live_frame; [..|apply Hl1]; done).
  simpl (Date_now s2).1. simpl (Date_now s2).2.
  set (c0 := Build_Closure _ _ _ _ _ _ _ _ _ _ _ _).
  pose proof (wfp_new_closure None s2 c0 Hw2) as Hw3.
  fold (exec (new_closure c0) s2). set (s3 := exec (new_closure c0) s2) in *.
  assert (Hl3 : live s3).
  { apply (live_preserved s2); [| | |done].
    - intros j cj Hj. exists cj. split; [|done]. by apply lookup_app_l_Some.
    - done.
    - intros n a t _ Hin _ _. exists t. eauto. }
  assert (Hc3 : closures s3 !! length (closures s2) = Some c0).
  { subst s3. unfold exec, new_closure. simpl.
    rewrite lookup_app_r, Nat.sub_diag by lia. done. }
  simpl (new_closure c0 s2).1. set (sid := length (closures s2)) in *.
  rewrite exec_bind.
  set (m := if default false (cfg_burstMode config) then _ else _).
  assert (Hm : live (m s3).2
    ∧ ∃ c t, closures (m s3).2 !! sid = Some c ∧ constants c = constants c0
        ∧ t ∈ timers (m s3).2 ∧ tid t = (m s3).1
        ∧ interval_timer_of c0 sid t
        ∧ activeStreams (m s3).2 = activeStreams s3).
  { subst m. unfold interval_timer_of.
    destruct (default false (cfg_burstMode config)) eqn:Hbm.
    - split; [by apply live_add_timer|]. eexists c0, _.
      split; [done|]. split; [done|].
      split; [simpl; apply elem_of_app; right; by apply list_elem_of_singleton|].
      simpl. rewrite ?Hbm. done.
    - rewrite interval_then_emit.
      set (s4 := exec (setInterval _ _) s3).
      assert (Hw4 : wfp (Some (name, nextTimer s3)) s4)
        by (by apply (wfp_add_interval s3 (CbEmitData sid) _ _ c0 name)).
      assert (Hc4 : closures s4 !! sid = Some c0) by done.
      split; [apply live_emitData; [apply (wf_nodup _ _ Hw4)|by apply live_add_timer]|].
      destruct (emitData_constants sid c0 s4 Hc4) as (c & Hc & Hk).
      eexists c, _. split; [done|]. split; [done|]. split.
      { apply (emitData_keeps_timers sid c0 s4); [done|done|].
        simpl. apply elem_of_app. right. by apply list_elem_of_singleton. }
      simpl. rewrite ?Hbm. split; [done|]. split; [done|].
      pose proof (emitData_branch sid c0 s4 Hc4) as Hb.
      change (activeStreams (exec (emitData sid) s4) = activeStreams s4).
      destruct (branch c0 s4).
      + rewrite Hb. unfold completed. rewrite exec_bind.
        by rewrite (stopStream_absent (streamName c0) s4).
      + by rewrite Hb.
      + by destruct Hb as (last & _ & ->).
      + by destruct Hb as (n & data & delay & _ & _ & ->). }
  destruct Hm as (Hl5 & c & t & Hc & Hk & Hin & Hid & Hit & Hact).
  rewrite exec_bind. set (s6 := (activeStreams_set _ _ _).2).
  apply (live_frame s6); [by destruct socket..| |].
  { intros t0. by destruct socket. }
  intros n a. subst s6. simpl. destruct (decide (name = n)) as [<-|Hne].
  - rewrite lookup_insert_eq. intros [= <-]. simpl. exists c, t.
    split; [done|]. split; [by rewrite Hk|].
    split; [by rewrite (constants_streamName _ _ Hk)|].
    split; [done|]. split; [done|]. by apply (interval_timer_of_constants c0).
  - rewrite lookup_insert_ne by done. apply Hl5.
Qed.

Lemma live_step a t s s' : wf s → live s → step a t s = Some s' → live s'.
Proof.
  intros Hw Hl. unfold step. destruct (now s <=? t); [|done].
  assert (Hw1 : wf (exec (set_clock t) s)) by (eapply wfp_frame; [..|apply Hw]; done).
  assert (Hl1 : live (exec (set_clock t) s)) by (eapply live_frame; [..|apply Hl]; done).
  pose proof (wf_nodup _ _ Hw1) as Hnd.
  destruct a; try (intros [= <-]).
  - unfold fire. destruct (find_timer id _) as [tm|] eqn:Hf; [|done].
    destruct (t_due tm <=? t); [|done]. intros [= <-].
    apply find_timer_Some in Hf as [Hin _]. rewrite exec_bind.
    pose proof (wfp_rearm None _ t tm Hw1) as Hwr.
    pose proof (live_rearm _ t tm Hnd Hin Hl1) as Hlr.
    destruct (t_cb tm) as [sid|sid|sid data]; simpl.
    + apply live_emitData; [apply (wf_nodup _ _ Hwr)|done].
    + by apply live_burst.
    + by apply live_broadcast.
  - eapply live_frame; [..|apply Hl1]; done.
  - by apply live_startStream.
  - by apply live_stopStream.
  - eapply live_frame; [..|apply Hl1]; done.
  - by apply live_startStream.
  - by apply live_stopStream.
  - assert (H : wf (exec stopAllStreams (exec (set_clock t) s))
                ∧ live (exec stopAllStreams (exec (set_clock t) s))); [|apply H].
    unfold exec at 1 3, stopAllStreams.
    apply (for_each_inv (fun s1 => wf s1 ∧ live s1)); [|done].
    intros name s1 [Hw' Hl']. split; [by apply wfp_stopStream|].
    apply live_stopStream; [apply (wf_nodup _ _ Hw')|done].
Qed.

Lemma reachable_live s : reachable s → live s.
Proof.
  intros [l Hl]. assert (H0 : wf init ∧ live init).
  { split; [apply wfp_init|]. intros n a. simpl. by rewrite lookup_empty. }
  revert Hl H0. generalize init. induction l as [|[a t] l IH]; intros s0; simpl.
  - intros [= <-] [_ H]. done.
  - destruct (step a t s0) as [s1|] eqn:Hs; [|done]. intros Hr [Hw0 Hl0].
    apply (IH s1 Hr). split; [by eapply wfp_step|by eapply live_step].
Qed.

(** X9.  In every reachable state, a registered stream is running: the key it
    is registered under is the [streamName] of its configuration (['books']
    when there is none); its closure exists and holds the constants
    destructured, with their defaults, from the stored configuration and the
    stored start time; and its interval timer is in the queue, with the
    stored [intervalId], a period of [interval] (or [burstInterval] in burst
    mode) and the attempt (or the burst) of that closure as callback. *)
Theorem registered_streams_are_running name a s :
  reachable s →
  activeStreams s !! name = Some a →
  name = default "books" (cfg_streamName (as_config a))
  ∧ ∃ c t,
      closures s !! as_closure a = Some c
      ∧ constants c = destructured (as_config a) (as_startTime a)
      ∧ t ∈ timers s ∧ tid t = intervalId a
      ∧ t_repeat t
        = Some (timer_delay
                  (inject_Z (if burstMode c then burstInterval c else interval c)))
      ∧ t_cb t = if burstMode c then CbBurst (as_closure a)
                 else CbEmitData (as_closure a).
Proof.
  intros Hr Ha.
  destruct (reachable_live s Hr name a Ha) as (c & t & Hc & Hk & Hn & Hin & Hid & Hrep & Hcb).
  split; [|by exists c, t].
  rewrite <- Hn. unfold constants, destructured in Hk. by inversion Hk.
Qed.

Lemma emitData_activeStreams_other sid c s name :
  closures s !! sid = Some c → streamName c ≠ name →
  activeStreams (exec (emitData sid) s) !! name = activeStreams s !! name
  ∧ streamConfigs (exec (emitData sid) s) !! name = streamConfigs s !! name.
Proof.
  intros Hc Hne. pose proof (emitData_branch sid c s Hc) as Hb.
  destruct (branch c s).
  - rewrite Hb. unfold completed. rewrite exec_bind. simpl.
    destruct (activeStreams s !! streamName c) as [a|] eqn:Ha.
    + rewrite (stopStream_present _ _ _ Ha). simpl.
      by rewrite !lookup_delete_ne.
    + by rewrite (stopStream_absent _ _ Ha).
  - by rewrite Hb.
  - by destruct Hb as (last & _ & ->).
  - by destruct Hb as (n & data & delay & _ & _ & ->).
Qed.

(** X10.  Stopping is by name.  In a reachable state, [stopStream] on one name,
    and an attempt of a stream of another name (even one that completes),
    leave a stream registered under a different name as it is: same entry,
    same configuration, and its interval timer still in the queue. *)
Theorem other_streams_untouched name name' a' s :
  reachable s →
  name ≠ name' →
  activeStreams s !! name' = Some a' →
  (let s' := exec (stopStream name) s in
   activeStreams s' !! name' = Some a'
   ∧ streamConfigs s' !! name' = streamConfigs s !! name'
   ∧ ∃ t, t ∈ timers s' ∧ tid t = intervalId a' ∧ is_Some (t_repeat t))
  ∧ (∀ sid c, closures s !! sid = Some c → streamName c = name →
     let s' := exec (emitData sid) s in
     activeStreams s' !! name' = Some a'
     ∧ streamConfigs s' !! name' = streamConfigs s !! name'
     ∧ ∃ t, t ∈ timers s' ∧ tid t = intervalId a' ∧ is_Some (t_repeat t)).
Proof.
  intros Hr Hne Ha'. pose proof (reachable_wf s Hr) as Hw.
  pose proof (reachable_live s Hr) as Hl.
  assert (Hlive : ∀ s', live s' → activeStreams s' !! name' = Some a' →
            ∃ t, t ∈ timers s' ∧ tid t = intervalId a' ∧ is_Some (t_repeat t)).
  { intros s' Hl' H. destruct (Hl' name' a' H) as (c & t & _ & _ & _ & Hin & Hid & Hit).
    exists t. split; [done|]. split; [done|]. by apply (interval_timer_of_sid c (as_closure a')). }
  split.
  - simpl. assert (Hs : activeStreams (exec (stopStream name) s) !! name' = Some a'
      ∧ streamConfigs (exec (stopStream name) s) !! name' = streamConfigs s !! name').
    { unfold exec. destruct (activeStreams s !! name) as [a|] eqn:Ha.
      - rewrite (stopStream_present _ _ _ Ha). simpl. by rewrite !lookup_delete_ne.
      - by rewrite (stopStream_absent _ _ Ha). }
    destruct Hs as [Hs1 Hs2]. split; [done|]. split; [done|].
    apply Hlive; [|done]. apply live_stopStream; [apply (wf_nodup _ _ Hw)|done].
  - intros sid c Hc Hn. simpl.
    destruct (emitData_activeStreams_other sid c s name' Hc ltac:(congruence))
      as [H1 H2].
    rewrite H1, H2. split; [done|]. split; [done|].
    apply Hlive; [|by rewrite H1]. apply live_emitData; [apply (wf_nodup _ _ Hw)|done].
Qed.

(** ** Starting, as seen in the registry *)

Lemma stopStream_maps name s :
  activeStreams (exec (stopStream name) s) = delete name (activeStreams s)
  ∧ ∀ config, <[name := config]> (streamConfigs (exec (stopStream name) s))
              = <[name := config]> (streamConfigs s).
Proof.
  unfold exec. destruct (activeStreams s !! name) as [a|] eqn:Ha.
  - rewrite (stopStream_present _ _ _ Ha). simpl. split; [done|].
    intros. apply insert_delete_eq.
  - rewrite (stopStream_absent _ _ Ha). by rewrite delete_id.
Qed.

Lemma emitData_maps_absent sid c s :
  closures s !! sid = Some c → activeStreams s !! streamName c = None →
  activeStreams (exec (emitData sid) s) = activeStreams s
  ∧ streamConfigs (exec (emitData sid) s) = streamConfigs s.
Proof.
  intros Hc Ha. pose proof (emitData_branch sid c s Hc) as Hb.
  destruct (branch c s).
  - rewrite Hb. unfold completed. rewrite exec_bind.
    by rewrite (stopStream_absent _ _ Ha).
  - by rewrite Hb.
  - by destruct Hb as (last & _ & ->).
  - by destruct Hb as (n & data & delay & _ & _ & ->).
Qed.

Lemma startStream_maps socket config s :
  let name := default "books" (cfg_streamName config) in
  let s' := exec (startStream socket config) s in
  activeStreams s'
  = <[name := {| intervalId := nextTimer s; as_config := config;
                 as_startTime := now s; as_closure := length (closures s) |}]>
      (activeStreams s)
  ∧ streamConfigs s' = <[name := config]> (streamConfigs s).
Proof.
  simpl. unfold startStream.
  set (name := default "books" (cfg_streamName config)).
  rewrite exec_bind.
  destruct (stopStream_maps name s) as (Ha1 & Hc1).
  pose proof (stopStream_closures name s) as Hcl1.
  pose proof (stopStream_unregisters name s) as Hn1.
  assert (Hnow : now (exec (stopStream name) s) = now s
                 ∧ nextTimer (exec (stopStream name) s) = nextTimer s).
  { unfold exec. destruct (activeStreams s !! name) as [a|] eqn:Ha.
    - by rewrite (stopStream_present _ _ _ Ha).
    - by rewrite (stopStream_absent _ _ Ha). }
  destruct Hnow as [Hnow Hnext].
  fold (exec (stopStream name) s). set (s1 := exec (stopStream name) s) in *.
  rewrite exec_bind, exec_bind, exec_bind.
  set (s2 := (streamConfigs_set name config s1).2).
  simpl (Date_now s2).1. simpl (Date_now s2).2.
  set (c0 := Build_Closure _ _ _ _ _ _ _ _ _ _ _ _).
  fold (exec (new_closure c0) s2). set (s3 := exec (new_closure c0) s2) in *.
  assert (Hc3 : closures s3 !! length (closures s2) = Some c0).
  { subst s3. unfold exec, new_closure. simpl.
    rewrite lookup_app_r, Nat.sub_diag by lia. done. }
  simpl (new_closure c0 s2).1. set (sid := length (closures s2)) in *.
  rewrite exec_bind.
  set (m := if default false (cfg_burstMode config) then _ else _).
  assert (Hm : (m s3).1 = nextTimer s3
               ∧ activeStreams (m s3).2 = activeStreams s3
               ∧ streamConfigs (m s3).2 = streamConfigs s3).
  { subst m. destruct (default false (cfg_burstMode config)); [done|].
    rewrite interval_then_emit. split; [done|]. cbn [snd].
    set (s4 := exec (setInterval _ _) s3).
    apply (emitData_maps_absent sid c0 s4); done. }
  destruct Hm as (Hid & Ha5 & Hc5).
  rewrite exec_bind. rewrite socket_emit_activeStreams.
  assert (Hse : ∀ s6, streamConfigs (exec (socket_emit socket "stream-started"
            (PStarted name config)) s6) = streamConfigs s6) by (by destruct socket).
  rewrite Hse. simpl. rewrite Hid, Ha5, Hc5. simpl.
  change (closures s2) with (closures s1). change (nextTimer s3) with (nextTimer s1).
  change (now s2) with (now s1).
  rewrite Hcl1, Hnow, Hnext, Ha1, Hc1. by rewrite insert_delete_eq.
Qed.


(** ** Delayed payloads and stopping *)

Lemma tid_inj_in (l : list Timer) t t' :
  NoDup (tid <$> l) → t ∈ l → t' ∈ l → tid t = tid t' → t = t'.
Proof.
  induction l as [|x l IH]; simpl; [by intros _ ?%elem_of_nil|].
  intros [Hx Hnd]%NoDup_cons [->|Ht]%elem_of_cons [->|Ht']%elem_of_cons Heq;
    [done| | |by apply IH].
  - destruct Hx. rewrite Heq. by apply list_elem_of_fmap_2.
  - destruct Hx. rewrite <- Heq. by apply list_elem_of_fmap_2.
Qed.

Lemma find_timer_nodup (l : list Timer) t :
  NoDup (tid <$> l) → t ∈ l → find_timer (tid t) l = Some t.
Proof.
  intros Hnd Hin. unfold find_timer.
  destruct (List.find _ l) as [t'|] eqn:Hf.
  - apply find_timer_Some in Hf as [Hin' Heq]. f_equal. by eapply tid_inj_in.
  - apply list_elem_of_In in Hin. apply (List.find_none _ _ Hf) in Hin.
    by rewrite Nat.eqb_refl in Hin.
Qed.

Lemma stopStream_now name s : now (exec (stopStream name) s) = now s.
Proof.
  unfold exec. destruct (activeStreams s !! name) as [a|] eqn:Ha.
  - by rewrite (stopStream_present _ _ _ Ha).
  - by rewrite (stopStream_absent _ _ Ha).
Qed.

(** X12.  A payload whose delayed broadcast is pending when a stream is stopped is
    still sent: [stopStream], of any name, leaves the timeout in the queue,
    and when it fires the payload goes to all clients on the channel of its
    stream, after the [stream-stopped] event, and the emission count of its
    closure grows by one. *)
Theorem pending_broadcast_outlives_stop name sid data t s :
  reachable s → t ∈ timers s → t_cb t = CbBroadcast sid data →
  let s1 := exec (stopStream name) s in
  t ∈ timers s1
  ∧ ∃ c, closures s1 !! sid = Some c
      ∧ ∀ time, now s ≤ time → t_due t ≤ time →
          ∃ s2, step (Fire (tid t)) time s1 = Some s2
            ∧ new_events s1 s2 = [IoEmit (streamName c) (PData data)]
            ∧ closures s2 !! sid = Some (incr_emissionCount c)
            ∧ t ∉ timers s2.
Proof.
  intros Hr Hin Hcb s1.
  pose proof (reachable_wf s Hr) as Hw. pose proof (reachable_live s Hr) as Hl.
  assert (Hw1 : wf s1) by (by apply wfp_stopStream).
  destruct (wf_closure _ _ Hw t Hin) as [c Hc]. rewrite Hcb in Hc. simpl in Hc.
  assert (Hrep : t_repeat t = None).
  { pose proof (wf_kind _ _ Hw t c Hin) as Hk. rewrite Hcb in Hk.
    specialize (Hk Hc). unfold kind_ok in Hk. by rewrite Hcb in Hk. }
  assert (Hin1 : t ∈ timers s1).
  { subst s1. unfold exec. destruct (activeStreams s !! name) as [a|] eqn:Ha.
    - rewrite (stopStream_present _ _ _ Ha). simpl.
      apply list_elem_of_filter. split; [|done]. intros Heq.
      destruct (Hl name a Ha) as (c' & t' & _ & _ & _ & Hin' & Hid & Hrep' & _).
      assert (t = t') as <- by (eapply tid_inj_in; [apply Hw|done..|congruence]).
      by rewrite Hrep in Hrep'.
    - by rewrite (stopStream_absent _ _ Ha). }
  split; [done|]. exists c.
  assert (Hc1 : closures s1 !! sid = Some c).
  { subst s1. by rewrite stopStream_closures. }
  split; [done|]. intros time Hnow Hdue.
  unfold step. replace (now s1) with (now s) by (symmetry; apply stopStream_now).
  destruct (Z.leb_spec (now s) time) as [_|]; [|lia].
  unfold fire. set (s1' := exec (set_clock time) s1).
  change (timers s1') with (timers s1).
  rewrite (find_timer_nodup _ t (wf_nodup _ _ Hw1) Hin1).
  destruct (Z.leb_spec (t_due t) time) as [_|]; [|lia].
  eexists. split; [done|]. rewrite Hcb, exec_bind. simpl run_callback.
  set (s1'' := (set_timers (rearm time t (timers s1)) s1').2).
  assert (Hc'' : closures s1'' !! sid = Some c) by done.
  rewrite (broadcast_present sid c data s1'' Hc''). simpl.
  split; [|split].
  - unfold new_events. simpl. by rewrite drop_app_length.
  - by rewrite list_lookup_insert_eq by (by eapply lookup_lt_Some).
  - unfold rearm. rewrite Hrep. intros [Hne _]%list_elem_of_filter. done.
Qed.

(** ** One-shot timers outlive a stop *)

Lemma timeout_survives_stop name t s :
  wf s → live s → t ∈ timers s → t_repeat t = None →
  t ∈ timers (exec (stopStream name) s).
Proof.
  intros Hw Hl Hin Hrep. unfold exec.
  destruct (activeStreams s !! name) as [a|] eqn:Ha.
  - rewrite (stopStream_present _ _ _ Ha). simpl.
    apply list_elem_of_filter. split; [|done]. intros Heq.
    destruct (Hl name a Ha) as (c' & t' & _ & _ & _ & Hin' & Hid & Hrep' & _).
    assert (t = t') as <- by (eapply tid_inj_in; [apply Hw|done..|congruence]).
    by rewrite Hrep in Hrep'.
  - by rewrite (stopStream_absent _ _ Ha).
Qed.

Lemma fire_pending t time s :
  wf s → t ∈ timers s → now s ≤ time → t_due t ≤ time →
  step (Fire (tid t)) time s
  = Some (exec (run_callback (t_cb t))
            (exec (set_timers (rearm time t (timers s)))
               (exec (set_clock time) s))).
Proof.
  intros Hw Hin Hnow Hdue. unfold step.
  destruct (Z.leb_spec (now s) time) as [_|]; [|lia].
  unfold fire. change (timers (exec (set_clock time) s)) with (timers s).
  rewrite (find_timer_nodup _ t (wf_nodup _ _ Hw) Hin).
  destruct (Z.leb_spec (t_due t) time) as [_|]; [|lia].
  by rewrite exec_bind.
Qed.

(** C2 (as amended).  [emissionCount] grows by exactly 1 when an attempt
    replays a duplicate and when the scheduled broadcast of a fresh payload
    fires, and by 0 in the attempt itself otherwise (error, completion, and
    the fresh attempt that only schedules); it never decreases along a run;
    and after [stopStream] on the stream's name it never changes again,
    provided no one-shot timer of the stream was still pending at the stop.
    A one-shot timer that is pending at the stop is not cancelled.  If it is
    a delayed broadcast, it adds 1 when it fires.  If it is an attempt of a
    burst, it runs as any attempt does when it fires: it adds 1 if it
    replays a duplicate and nothing otherwise. *)
Theorem emissionCount_evolution sid c s :
  reachable s →
  closures s !! sid = Some c →
  (∃ c', closures (exec (emitData sid) s) !! sid = Some c'
     ∧ emissionCount c'
       = match branch c s with
         | DuplicateInjection => emissionCount c + 1
         | _ => emissionCount c
         end)
  ∧ (∀ data, ∃ c',
       closures (exec (broadcast sid data) s) !! sid = Some c'
       ∧ emissionCount c' = emissionCount c + 1
       ∧ new_events s (exec (broadcast sid data) s)
         = [IoEmit (streamName c) (PData data)])
  ∧ (∀ l s', run l s = Some s' →
       ∃ c', closures s' !! sid = Some c' ∧ emissionCount c ≤ emissionCount c')
  ∧ ((∀ t, t ∈ timers s → cb_sid (t_cb t) = sid → is_Some (t_repeat t)) →
     ∀ l s', run l (exec (stopStream (streamName c)) s) = Some s' →
       closures s' !! sid = Some c)
  ∧ (∀ t data time,
       t ∈ timers s → t_cb t = CbBroadcast sid data →
       now s ≤ time → t_due t ≤ time →
       let s1 := exec (stopStream (streamName c)) s in
       t ∈ timers s1
       ∧ ∃ s2 c', step (Fire (tid t)) time s1 = Some s2
           ∧ closures s2 !! sid = Some c'
           ∧ emissionCount c' = emissionCount c + 1)
  ∧ (∀ t time,
       t ∈ timers s → t_cb t = CbEmitData sid → t_repeat t = None →
       now s ≤ time → t_due t ≤ time →
       let s1 := exec (stopStream (streamName c)) s in
       t ∈ timers s1
       ∧ ∃ s2 c', step (Fire (tid t)) time s1 = Some s2
           ∧ closures s2 !! sid = Some c'
           ∧ emissionCount c'
             = match branch c (exec (set_clock time) s1) with
               | DuplicateInjection => emissionCount c + 1
               | _ => emissionCount c
               end).
Proof.
  intros Hr Hc. pose proof (lookup_lt_Some _ _ _ Hc) as Hlt.
  pose proof (reachable_wf s Hr) as Hw. pose proof (reachable_live s Hr) as Hl.
  assert (Hw1 : wf (exec (stopStream (streamName c)) s))
    by (by apply wfp_stopStream).
  assert (Hc1 : closures (exec (stopStream (streamName c)) s) !! sid = Some c)
    by (by rewrite stopStream_closures).
  split; [|split; [|split; [|split; [|split]]]].
  - destruct (emitData_closure sid c s Hc) as (c' & Hc' & Hb). exists c'.
    split; [done|]. destruct (branch c s); try by subst c'.
    by destruct Hb as (data & t & -> & _).
  - intros data. exists (incr_emissionCount c).
    rewrite (broadcast_present sid c data s Hc). simpl.
    rewrite list_lookup_insert_eq by done. split; [done|]. split; [done|].
    by apply new_events_app.
  - intros l s' Hrun.
    destruct (run_closure_le sid c l s s' Hc Hrun) as (c' & Hc' & _ & Hle).
    eauto.
  - intros Hint l s' Hrun.
    pose proof (stopStream_quiet sid c s Hw Hc Hint) as Hq.
    destruct (quiet_run sid l _ s' Hq) as [_ Heq]; [|done|].
    + by rewrite stopStream_closures.
    + by rewrite Heq, stopStream_closures.
  - intros t data time Hin Hcb Hnow Hdue s1.
    assert (Hrep : t_repeat t = None).
    { pose proof (wf_kind _ _ Hw t c Hin) as Hk. rewrite Hcb in Hk.
      specialize (Hk Hc). unfold kind_ok in Hk. by rewrite Hcb in Hk. }
    assert (Hin1 : t ∈ timers s1) by (by apply timeout_survives_stop).
    split; [done|].
    rewrite (fire_pending t time s1 Hw1 Hin1)
      by (by unfold s1; rewrite ?stopStream_now).
    rewrite Hcb. simpl run_callback.
    set (sr := exec (set_timers _) _).
    assert (Hcr : closures sr !! sid = Some c) by done.
    exists (exec (broadcast sid data) sr), (incr_emissionCount c).
    split; [done|]. rewrite (broadcast_present sid c data sr Hcr). simpl.
    by rewrite list_lookup_insert_eq by (by eapply lookup_lt_Some).
  - intros t time Hin Hcb Hrep Hnow Hdue s1.
    assert (Hin1 : t ∈ timers s1) by (by apply timeout_survives_stop).
    split; [done|].
    rewrite (fire_pending t time s1 Hw1 Hin1)
      by (by unfold s1; rewrite ?stopStream_now).
    rewrite Hcb. simpl run_callback.
    set (sr := exec (set_timers _) _).
    assert (Hcr : closures sr !! sid = Some c) by done.
    destruct (emitData_closure sid c sr Hcr) as (c' & Hc' & Hb).
    exists (exec (emitData sid) sr), c'. split; [done|]. split; [done|].
    change (branch c (exec (set_clock time) s1)) with (branch c sr).
    destruct (branch c sr); try by subst c'.
    by destruct Hb as (data & t' & -> & _).
Qed.

(** C3 (as amended).  An attempt sends a completion event exactly when the
    time elapsed since [startTime] has reached [duration], never earlier
    (under either scheduling).  It then sends one, carrying the stream's
    name, its [emissionCount] and the elapsed time; the name is no longer
    registered and the interval timer that was registered under it is
    cancelled.  Under normal scheduling, once an attempt fired by the
    interval timer has completed, none of the stream's attempts is pending
    in any later state.  A completion is not limited to one per stream:
    every pending timer of the stream's attempts that fires once the
    duration has passed sends the completion event again, and a completion
    cancels none of the pending one-shot timers, the other attempts of a
    burst among them. *)
Theorem completion_fires sid c s :
  reachable s →
  closures s !! sid = Some c →
  let s' := exec (emitData sid) s in
  (existsb is_complete (new_events s s') = true
   ↔ duration c ≤ now s - startTime c)
  ∧ (duration c ≤ now s - startTime c →
     (∃ pre, new_events s s'
             = pre ++ [IoEmit (streamName c +:+ "-complete")
                         (PComplete (streamName c) (emissionCount c)
                            (now s - startTime c))]
             ∧ existsb is_complete pre = false)
     ∧ activeStreams s' !! streamName c = None
     ∧ ∀ a t, activeStreams s !! streamName c = Some a →
              t ∈ timers s' → tid t ≠ intervalId a)
  ∧ (∀ tm t s1,
       tm ∈ timers s → t_cb tm = CbEmitData sid → burstMode c = false →
       step (Fire (tid tm)) t s = Some s1 →
       duration c ≤ t - startTime c →
       ∀ l s2, run l s1 = Some s2 → no_attempts sid s2)
  ∧ (∀ tm t,
       tm ∈ timers s → t_cb tm = CbEmitData sid →
       now s ≤ t → t_due tm ≤ t → duration c ≤ t - startTime c →
       ∃ s1, step (Fire (tid tm)) t s = Some s1
         ∧ (∃ pre, new_events s s1
                   = pre ++ [IoEmit (streamName c +:+ "-complete")
                               (PComplete (streamName c) (emissionCount c)
                                  (t - startTime c))]
                   ∧ existsb is_complete pre = false)
         ∧ ∀ tm', tm' ∈ timers s → t_repeat tm' = None → tid tm' ≠ tid tm →
                  tm' ∈ timers s1).
Proof.
  intros Hr Hc. pose proof (reachable_wf s Hr) as Hw.
  pose proof (reachable_live s Hr) as Hl.
  assert (Hf : timers_fresh s).
  { apply Forall_forall. apply (wf_fresh _ _ Hw). }
  split; [|split; [|split]].
  - pose proof (emitData_effects sid c s Hc Hf) as He.
    unfold effects in He. rewrite <- branch_complete.
    destruct (branch c s); simpl in He; injection He as -> _; done.
  - intros Hd%branch_complete. pose proof (emitData_branch sid c s Hc) as Hb.
    rewrite Hd in Hb. simpl. rewrite Hb.
    destruct (completed_emitted c s) as (pre & He & Hpre & _).
    split; [|split].
    + exists pre. split; [by apply new_events_app|]. by destruct Hpre as [-> | ->].
    + unfold completed. rewrite exec_bind. simpl. apply stopStream_unregisters.
    + intros a t Ha. unfold completed. rewrite exec_bind. simpl.
      fold (exec (stopStream (streamName c)) s).
      intros [_ Hne]%stopStream_timers. by apply Hne.
  - intros tm t s1 Hin Hcb Hbm Hstep Hd l s2 Hrun.
    apply (no_attempts_run sid l s1 s2); [|by apply lookup_lt_Some in Hc;
      pose proof (step_length _ _ _ _ Hstep); lia|done].
    unfold step in Hstep. destruct (now s <=? t); [|done].
    set (s0 := exec (set_clock t) s) in *.
    assert (Hw0 : wf s0) by (eapply wfp_frame; [..|apply Hw]; done).
    unfold fire in Hstep.
    destruct (find_timer (tid tm) (timers s0)) as [tm'|] eqn:Hfind; [|done].
    destruct (t_due tm' <=? t); [|done]. injection Hstep as <-.
    apply find_timer_Some in Hfind as [Hin' Hid].
    assert (tm' = tm) as -> by (by apply (timers_same_tid (timers s) _ _ (wf_nodup _ _ Hw))).
    rewrite Hcb, exec_bind.
    change (run_callback (CbEmitData sid)) with (emitData sid).
    set (sr := (set_timers _ s0).2).
    assert (Hwr : wf sr) by apply (wfp_rearm None s0 t tm Hw0).
    assert (Hcr : closures sr !! sid = Some c) by done.
    pose proof (emitData_branch sid c sr Hcr) as Hb.
    assert (Hbr : branch c sr = DurationComplete) by (by apply branch_complete).
    rewrite Hbr in Hb. rewrite Hb. by apply completed_no_attempts.
  - intros tm t Hin Hcb Hnow Hdue Hd.
    rewrite (fire_pending tm t s Hw Hin Hnow Hdue), Hcb.
    change (run_callback (CbEmitData sid)) with (emitData sid).
    set (s0 := exec (set_clock t) s).
    assert (Hw0 : wf s0) by (eapply wfp_frame; [..|apply Hw]; done).
    assert (Hl0 : live s0) by (by apply (live_frame s)).
    set (sr := exec (set_timers (rearm t tm (timers s))) s0).
    assert (Hwr : wf sr) by exact (wfp_rearm None s0 t tm Hw0).
    assert (Hlr : live sr)
      by exact (live_rearm s0 t tm (wf_nodup _ _ Hw0) Hin Hl0).
    assert (Hcr : closures sr !! sid = Some c) by done.
    pose proof (emitData_branch sid c sr Hcr) as Hb.
    assert (Hbr : branch c sr = DurationComplete) by (by apply branch_complete).
    rewrite Hbr in Hb. eexists. split; [done|]. rewrite Hb.
    destruct (completed_emitted c sr) as (pre & He & Hpre & _).
    split.
    + exists pre. split; [by apply new_events_app|]. by destruct Hpre as [-> | ->].
    + intros tm' Hin' Hrep' Hne. unfold completed. rewrite exec_bind. simpl.
      fold (exec (stopStream (streamName c)) sr).
      apply timeout_survives_stop; [done..| |done].
      change (timers sr) with (rearm t tm (timers s)). unfold rearm.
      destruct (t_repeat tm) as [d|].
      * apply list_elem_of_fmap. exists tm'. split; [|done].
        by destruct (Nat.eqb_spec (tid tm') (tid tm)).
      * by apply list_elem_of_filter.
Qed.

(** ** The start routes *)

Lemma for_each_inv_in {A} (I : State → Prop) (l : list A) (body : A → M unit) s :
  (∀ x s, x ∈ l → I s → I (exec (body x) s)) → I s → I (exec (for_each l body) s).
Proof.
  revert s. induction l as [|x l IH]; intros s Hbody Hs; [done|].
  simpl. rewrite exec_bind. apply IH.
  - intros y s1 Hy. apply Hbody. by right.
  - apply Hbody; [by left|done].
Qed.

Lemma start_each socket (l : list Config) s :
  NoDup ((fun c => default "books" (cfg_streamName c)) <$> l) →
  let s' := exec (for_each l (startStream socket)) s in
  (∀ config, config ∈ l →
     ∃ a, activeStreams s' !! default "books" (cfg_streamName config) = Some a
          ∧ as_config a = config
          ∧ streamConfigs s' !! default "books" (cfg_streamName config) = Some config)
  ∧ (∀ n, n ∉ (fun c => default "books" (cfg_streamName c)) <$> l →
       activeStreams s' !! n = activeStreams s !! n
       ∧ streamConfigs s' !! n = streamConfigs s !! n).
Proof.
  revert s. induction l as [|x l IH]; intros s Hnd; simpl.
  - split; [by intros ? ?%elem_of_nil|done].
  - simpl in Hnd. apply NoDup_cons in Hnd as [Hx Hnd]. rewrite exec_bind.
    fold (exec (startStream socket x) s).
    set (s1 := exec (startStream socket x) s).
    destruct (IH s1 Hnd) as [H1 H2].
    destruct (startStream_maps socket x s) as [Ha Hc]. fold s1 in Ha, Hc.
    split.
    + intros config [->|Hin]%elem_of_cons; [|by apply H1].
      destruct (H2 _ Hx) as [-> ->]. rewrite Ha, Hc, !lookup_insert_eq.
      by eexists.
    + intros n Hn. apply not_elem_of_cons in Hn as [Hne Hn].
      destruct (H2 n Hn) as [-> ->]. rewrite Ha, Hc.
      by rewrite !lookup_insert_ne.
Qed.

Lemma presets_get_own presetName preset :
  (presetName, preset) ∈ presets →
  presets_get presetName = Some preset
  ∧ NoDup ((fun c => default "books" (cfg_streamName c)) <$> preset.*2)
  ∧ (fun c => default "books" (cfg_streamName c)) <$> preset.*2 = preset.*1.
Proof.
  unfold presets. intros Hin.
  repeat (apply elem_of_cons in Hin as [[= -> ->]|Hin];
          [split; [reflexivity|]; split; [|reflexivity];
           cbn; apply NoDup_ListNoDup; repeat constructor; simpl;
           intuition discriminate|]).
  by apply elem_of_nil in Hin.
Qed.

Lemma presets_get_inherited presetName :
  presetName ∈ Object_prototype_keys → presets_get presetName = Some [].
Proof.
  unfold Object_prototype_keys. intros H.
  repeat (apply elem_of_cons in H as [->|H]; [reflexivity|]).
  by apply elem_of_nil in H.
Qed.

Lemma presets_get_unknown presetName :
  presetName ∉ presets.*1 → presetName ∉ Object_prototype_keys →
  presets_get presetName = None.
Proof.
  intros Hown Hinh. unfold presets_get.
  destruct (List.find _ presets) as [p|] eqn:Hf.
  - apply List.find_some in Hf as [Hin Heq]. apply String.eqb_eq in Heq.
    destruct Hown. rewrite <- Heq. apply list_elem_of_fmap.
    exists p. split; [done|]. by apply list_elem_of_In.
  - by rewrite bool_decide_eq_false_2.
Qed.


(** X14.  [POST /presets/:presetName] answers 404 and leaves the server as it is
    for a name that is neither a preset nor a property inherited from
    [Object.prototype]; for an inherited property it answers 200 and starts
    nothing.  For a preset of the catalog it answers 200 with the preset and
    afterwards every stream of the preset is registered under its key with
    its configuration of the catalog, the names outside the preset keeping
    their entries. *)
Theorem post_presets_starts presetName s :
  (presetName ∉ presets.*1 → presetName ∉ Object_prototype_keys →
   post_presets (Some s) presetName
   = ((404, PresetError "Preset not found"), Some s))
  ∧ (presetName ∈ Object_prototype_keys →
     post_presets (Some s) presetName
     = ((200, PresetStarted ("Preset '" +:+ presetName +:+ "' started") []),
        Some s))
  ∧ (∀ preset, (presetName, preset) ∈ presets →
     ∃ s',
       post_presets (Some s) presetName
       = ((200, PresetStarted ("Preset '" +:+ presetName +:+ "' started") preset),
          Some s')
       ∧ (∀ key config, (key, config) ∈ preset →
            cfg_streamName config = Some key
            ∧ (∃ a, activeStreams s' !! key = Some a ∧ as_config a = config)
            ∧ streamConfigs s' !! key = Some config)
       ∧ (∀ n, n ∉ preset.*1 →
            activeStreams s' !! n = activeStreams s !! n
            ∧ streamConfigs s' !! n = streamConfigs s !! n)).
Proof.
  unfold post_presets. split; [|split].
  - intros Hown Hinh. by rewrite presets_get_unknown.
  - intros Hinh. by rewrite presets_get_inherited.
  - intros preset Hin.
    destruct (presets_get_own _ _ Hin) as (-> & Hnd & Hnames).
    eexists. split; [done|].
    destruct (start_each NoopSocket preset.*2 s Hnd) as [H1 H2].
    rewrite Hnames in H2. split; [|done].
    intros key config Hkc.
    assert (Hk : cfg_streamName config = Some key).
    { clear -Hin Hkc. unfold presets in Hin.
      repeat (apply elem_of_cons in Hin as [[= -> ->]|Hin];
              [repeat (apply elem_of_cons in Hkc as [[= -> ->]|Hkc]; [done|]);
               by apply elem_of_nil in Hkc|]).
      by apply elem_of_nil in Hin. }
    split; [done|].
    destruct (H1 config) as (a & Ha & Hc & Hs).
    { apply list_elem_of_fmap. by exists (key, config). }
    rewrite Hk in Ha, Hs. simpl in Ha, Hs. split; [by exists a|done].
Qed.

End Engine.

(** * The claims on concrete runs *)

Ltac evaluate := vm_compute; first [reflexivity | done].

(** C1 at the state a started stream is in after its first attempt. *)
Lemma emitData_exactly_one_branch_witness :
  ∃ s c, run half (started_run plain_config) init = Some s
    ∧ closures s !! 0%nat = Some c
    ∧ timers_fresh s
    ∧ effects s (exec (emitData half 0) s) = effect_of (branch half c s)
    ∧ length (filter (fun b => b = true)
                (effects s (exec (emitData half 0) s))) = 1%nat.
Proof.
  eexists _, _. split; [evaluate|]. split; [evaluate|].
  split; [|apply emitData_exactly_one_branch].
  - unfold timers_fresh. simpl. repeat constructor.
  - evaluate.
  - unfold timers_fresh. simpl. repeat constructor.
Defined.

(** C2 at the state of a stream whose first payload has been broadcast,
    and at a burst-mode stream that is stopped while the attempts of a burst
    are pending: the second of them fires at 5100, after the duration, and
    leaves [emissionCount] as it is. *)
Lemma emissionCount_evolution_witness :
  (∃ s c, run half first_emission_run init = Some s
     ∧ closures s !! 0%nat = Some c
     ∧ (∀ t, t ∈ timers s → cb_sid (t_cb t) = 0%nat → is_Some (t_repeat t))
     ∧ (∀ l s', run half l s = Some s' →
          ∃ c', closures s' !! 0%nat = Some c'
                ∧ emissionCount c ≤ emissionCount c')
     ∧ (∀ l s', run half l (exec (stopStream (streamName c)) s) = Some s' →
          closures s' !! 0%nat = Some c))
  ∧ (∃ s c t, run half burst_pending_run init = Some s
       ∧ closures s !! 0%nat = Some c
       ∧ timers s !! 2%nat = Some t
       ∧ t_cb t = CbEmitData 0 ∧ t_repeat t = None
       ∧ t ∈ timers (exec (stopStream (streamName c)) s)
       ∧ ∃ s2 c',
           step half (Fire (tid t)) 5100 (exec (stopStream (streamName c)) s)
           = Some s2
           ∧ closures s2 !! 0%nat = Some c'
           ∧ emissionCount c' = emissionCount c).
Proof.
  split.
  - eexists _, _. split; [evaluate|]. split; [evaluate|].
    match goal with |- ?H ∧ _ => assert (Hint : H) end.
    { intros t ->%list_elem_of_singleton _. by eexists. }
    split; [exact Hint|].
    match goal with
    | |- (∀ l s', run half l ?s = _ → ∃ c', _ ∧ emissionCount ?c ≤ _) ∧ _ =>
        destruct (emissionCount_evolution half 0 c s) as (_ & _ & H3 & H4 & _)
    end.
    + exists first_emission_run. evaluate.
    + evaluate.
    + split; [exact H3|exact (H4 Hint)].
  - eexists _, _, _. split; [evaluate|]. split; [evaluate|].
    split; [evaluate|]. split; [evaluate|]. split; [evaluate|].
    match goal with
    | |- ?t ∈ timers (exec (stopStream (streamName ?c)) ?s) ∧ _ =>
        destruct (emissionCount_evolution half 0 c s)
          as (_ & _ & _ & _ & _ & H6);
          [exists burst_pending_run; evaluate | evaluate |];
        destruct (H6 t 5100) as (Hin & s2 & c' & Hs & Hc' & He);
          [vm_compute; repeat constructor | evaluate..|]
    end.
    split; [exact Hin|]. exists s2, c'. split; [exact Hs|].
    split; [exact Hc'|]. etrans; [exact He|]. evaluate.
Defined.

(** C2 fails as stated: a stream is stopped at 500 while the broadcast of
    its first payload is pending; the broadcast fires at 2500 and
    [emissionCount] goes from 0 to 1 although the stream is stopped. *)
Lemma emissionCount_changes_after_stop :
  ∃ s s' c c' data,
    run half stopped_run init = Some s
    ∧ activeStreams s !! "books" = None
    ∧ closures s !! 0%nat = Some c ∧ emissionCount c = 0
    ∧ lastEmittedData c = Some data
    ∧ step half (Fire 2) 2500 s = Some s'
    ∧ closures s' !! 0%nat = Some c' ∧ emissionCount c' = 1
    ∧ new_events s s' = [IoEmit "books" (PData data)].
Proof.
  eexists _, _, _, _, _. split; [evaluate|]. split; [evaluate|].
  split; [evaluate|]. split; [evaluate|]. split; [evaluate|].
  split; [evaluate|]. split; [evaluate|]. split; evaluate.
Qed.

(** C3 at a normal-mode stream of duration 3000 whose interval timer fires
    for the third time at 3000, and at a burst-mode stream whose first
    attempt of a burst has completed: the second attempt fires at 5100 and
    completes again, and the third stays pending. *)
Lemma completion_fires_witness :
  (∃ s c tm s1,
     run half plain_run init = Some s
     ∧ closures s !! 0%nat = Some c
     ∧ tm ∈ timers s ∧ t_cb tm = CbEmitData 0 ∧ burstMode c = false
     ∧ step half (Fire (tid tm)) 3000 s = Some s1
     ∧ duration c ≤ 3000 - startTime c
     ∧ emitted s1
       = emitted s ++ [IoEmit "stream-stopped" (PStopped "books");
                       IoEmit "books-complete" (PComplete "books" 3 3000)]
     ∧ (∀ l s2, run half l s1 = Some s2 → no_attempts 0 s2))
  ∧ (∃ s c tm tm',
       run half burst_completed_run init = Some s
       ∧ closures s !! 0%nat = Some c
       ∧ timers s = [tm; tm']
       ∧ t_cb tm = CbEmitData 0 ∧ t_repeat tm' = None
       ∧ duration c ≤ 5100 - startTime c
       ∧ ∃ s1, step half (Fire (tid tm)) 5100 s = Some s1
           ∧ (∃ pre, new_events s s1
                     = pre ++ [IoEmit "books-complete"
                                 (PComplete "books" 0 5100)]
                     ∧ existsb is_complete pre = false)
           ∧ tm' ∈ timers s1).
Proof.
  split.
  - eexists _, _, _, _. split; [evaluate|]. split; [evaluate|].
    split; [apply list_elem_of_here|]. split; [evaluate|]. split; [evaluate|].
    split; [evaluate|]. split; [evaluate|]. split; [evaluate|].
    refine (proj1 (proj2 (proj2 (completion_fires half 0 _ _ _ _)))
              _ 3000 _ _ _ _ _ _).
    + exists plain_run. evaluate.
    + evaluate.
    + apply list_elem_of_here.
    + evaluate.
    + evaluate.
    + evaluate.
    + evaluate.
  - eexists _, _, _, _. split; [evaluate|]. split; [evaluate|].
    split; [evaluate|]. split; [evaluate|]. split; [evaluate|].
    match goal with
    | |- duration ?c ≤ _ ∧ (∃ s1, step _ (Fire (tid ?tm)) _ ?s = _ ∧ _ ∧ ?tm' ∈ _) =>
        assert (Hd : duration c ≤ 5100 - startTime c) by evaluate;
        destruct (completion_fires half 0 c s) as (_ & _ & _ & H4);
          [exists burst_completed_run; evaluate | evaluate |];
        destruct (H4 tm 5100) as (s1 & Hs & He & Hk);
          [vm_compute; repeat constructor | evaluate | evaluate | evaluate
          | exact Hd |];
        split; [exact Hd|]; exists s1; split; [exact Hs|]; split; [exact He|];
        apply (Hk tm'); [vm_compute; repeat constructor | evaluate | evaluate]
    end.
Defined.

(** C3 fails as stated: a stream can complete more than once.  A
    burst-mode stream, started once, sends its completion event three times,
    once for each attempt of the burst that was scheduled before the first
    of them completed.  When bursts overlap, more attempts than [burstSize]
    are pending at the first completion: the stream of [overlap_config]
    completes six times with a [burstSize] of three.  A normal-mode stream
    of duration 0 completes twice: in the attempt [startStream] makes, and
    when its interval timer fires. *)
Lemma completion_fires_more_than_once :
  (∃ s, run half burst_run init = Some s
     ∧ emitted s
       = [IoEmit "stream-stopped" (PStopped "books");
          IoEmit "books-complete" (PComplete "books" 0 5001);
          IoEmit "books-complete" (PComplete "books" 0 5100);
          IoEmit "books-complete" (PComplete "books" 0 5200)])
  ∧ (∃ s c, run half overlap_run init = Some s
       ∧ closures s = [c] ∧ burstMode c = true ∧ burstSize c = 3
       ∧ timers s = []
       ∧ length (List.filter is_complete (emitted s)) = 6%nat)
  ∧ (∃ s c, run half zero_run init = Some s
       ∧ closures s = [c] ∧ burstMode c = false
       ∧ List.filter is_complete (emitted s)
         = [IoEmit "books-complete" (PComplete "books" 0 0);
            IoEmit "books-complete" (PComplete "books" 0 3000)]).
Proof.
  split; [|split].
  - eexists. split; evaluate.
  - eexists _, _. split; [evaluate|]. split; [evaluate|]. split; [evaluate|].
    split; [evaluate|]. split; evaluate.
  - eexists _, _. split; [evaluate|]. split; [evaluate|]. split; evaluate.
Qed.

(** C4 at the state reached by [restart_run]. *)
Lemma one_interval_timer_per_name_witness :
  ∃ s, run half restart_run init = Some s
    ∧ (∀ t c, t ∈ timers s → is_Some (t_repeat t) →
         closures s !! cb_sid (t_cb t) = Some c →
         ∃ a, activeStreams s !! streamName c = Some a ∧ intervalId a = tid t)
    ∧ (∀ t1 t2 c1 c2,
         t1 ∈ timers s → t2 ∈ timers s →
         is_Some (t_repeat t1) → is_Some (t_repeat t2) →
         closures s !! cb_sid (t_cb t1) = Some c1 →
         closures s !! cb_sid (t_cb t2) = Some c2 →
         streamName c1 = streamName c2 → t1 = t2).
Proof.
  eexists. split; [evaluate|].
  refine (proj2 (one_interval_timer_per_name half _ _)).
  exists restart_run. evaluate.
Defined.

(** C4 fails as stated: after a burst-mode stream under ['books'] was
    replaced by a new stream under the same name, two attempts of the old
    closure (0) are still in the queue next to the interval timer of the new
    closure (1); the first of them fires at 5100 and schedules a payload of
    the old stream. *)
Lemma old_attempts_pending_after_restart :
  ∃ s s' c0 c1,
    run half restart_run init = Some s
    ∧ closures s !! 0%nat = Some c0 ∧ closures s !! 1%nat = Some c1
    ∧ streamName c0 = "books" ∧ streamName c1 = "books"
    ∧ ((tid <$> timers s, t_cb <$> timers s)
       = ([3; 4; 6]%nat, [CbEmitData 0; CbEmitData 0; CbEmitData 1]))
    ∧ step half (Fire 3) 5100 s = Some s'
    ∧ existsb (fun t => match t_cb t with
                        | CbBroadcast 0 _ => true
                        | _ => false
                        end) (new_timers s s') = true.
Proof.
  eexists _, _, _, _. split; [evaluate|]. split; [evaluate|].
  split; [evaluate|]. split; [evaluate|]. split; [evaluate|].
  split; [evaluate|]. split; evaluate.
Qed.

(** C5 on a running stream. *)
Lemma stopStream_idempotent_200_witness :
  ∃ s a, run half (started_run plain_config) init = Some s
    ∧ activeStreams s !! "books" = Some a
    ∧ emitted (exec (stopStream "books") s)
      = emitted s ++ [IoEmit "stream-stopped" (PStopped "books")]
    ∧ exec (stopStream "books") (exec (stopStream "books") s)
      = exec (stopStream "books") s
    ∧ (post_streams_stop (Some s) "books").1
      = (post_streams_stop (Some (exec (stopStream "books") s)) "books").1.
Proof.
  eexists _, _. split; [evaluate|]. split; [evaluate|].
  match goal with |- emitted (exec _ ?s) = _ ∧ _ =>
    destruct (stopStream_idempotent_200 "books" s) as (_ & Hp & Hi & Hr);
    destruct (stopStream_idempotent_200 "books" (exec (stopStream "books") s))
      as (_ & _ & _ & Hr')
  end.
  split; [|split; [exact Hi|by rewrite Hr, Hr']].
  by eapply Hp.
Defined.

(** C6 on a stream started with [errorRate: 100]. *)
Lemma errorRate_100_only_errors_witness :
  ∃ s c, unit_draws half
    ∧ run half (started_run failing_config) init = Some s
    ∧ closures s !! 0%nat = Some c ∧ (errorRate c == 100)%Q
    ∧ now s - startTime c < duration c
    ∧ emissionCount c = 0 ∧ lastEmittedData c = None
    ∧ branch half c s = ErrorInjection.
Proof.
  eexists _, _.
  assert (Hu : unit_draws half) by (intros n; split; evaluate).
  split; [exact Hu|]. split; [evaluate|]. split; [evaluate|].
  split; [evaluate|]. split; [evaluate|].
  match goal with |- emissionCount ?c = _ ∧ _ ∧ branch _ _ ?s = _ =>
    destruct (errorRate_100_only_errors half 0 c s Hu) as ((H1 & H2 & _) & H3 & _)
  end.
  - exists (started_run failing_config). evaluate.
  - evaluate.
  - evaluate.
  - split; [exact H1|]. split; [exact H2|]. apply H3. evaluate.
Defined.

(** C7 on a stream started with [duplicateRate: 100], after its first
    (fresh) attempt. *)
Lemma lastEmittedData_replay_witness :
  ∃ s c,
    run half (started_run replay_config) init = Some s
    ∧ closures s !! 0%nat = Some c
    ∧ branch half c s = DuplicateInjection
    ∧ ∃ last c',
        lastEmittedData c = Some last
        ∧ new_events s (exec (emitData half 0) s)
          = [IoEmit (streamName c) (PData last)]
        ∧ closures (exec (emitData half 0) s) !! 0%nat = Some c'
        ∧ emissionCount c' = emissionCount c + 1
        ∧ lastEmittedData c' = Some last.
Proof.
  eexists _, _. split; [evaluate|]. split; [evaluate|].
  match goal with |- branch _ ?c ?s = _ ∧ _ =>
    assert (Hc : closures s !! 0%nat = Some c) by evaluate;
    assert (Hb : branch half c s = DuplicateInjection) by evaluate;
    destruct (lastEmittedData_replay half 0 c s Hc) as (_ & H2 & _)
  end.
  split; [exact Hb|exact (H2 Hb)].
Defined.

(** C8 on the second attempt of a stream started with [errorRate: 100]. *)
Lemma error_tick_frame_witness :
  ∃ s c, run half (started_run failing_config) init = Some s
    ∧ closures s !! 0%nat = Some c
    ∧ branch half c s = ErrorInjection
    ∧ new_events s (exec (emitData half 0) s)
      = [IoEmit "books-error"
           (PError "Simulated error"
              "Random error for teaching error handling operators" 0)]
    ∧ closures (exec (emitData half 0) s) = closures s
    ∧ timers (exec (emitData half 0) s) = timers s.
Proof.
  eexists _, _. split; [evaluate|]. split; [evaluate|].
  match goal with |- branch _ ?c ?s = _ ∧ _ =>
    assert (Hc : closures s !! 0%nat = Some c) by evaluate;
    assert (Hb : branch half c s = ErrorInjection) by evaluate;
    destruct (error_tick_frame half 0 c s Hc Hb) as (H1 & H2 & _ & _ & H5 & _)
  end.
  split; [exact Hb|]. split; [exact H1|]. split; [exact H2|exact H5].
Defined.

(** C9 on the first start of a server, from connection 7 and from the
    route. *)
Lemma stream_started_targeted_witness :
  missing_streamName plain_config = false
  ∧ (∃ pre, new_events init (exec (on_start_stream half 7 plain_config) init)
            = pre ++ [SocketEmit 7 "stream-started" (PStarted "books" plain_config)]
            ∧ existsb is_started pre = false)
  ∧ existsb is_started
      (new_events init (exec (startStream half NoopSocket plain_config) init))
    = false.
Proof.
  destruct (stream_started_targeted half 7 plain_config init) as [H1 H2].
  split; [evaluate|]. split; [exact H1|]. apply H2. evaluate.
Defined.

(** C9 fails as stated: a start from connection 7 sends [stream-started]
    to connection 7 and broadcasts nothing; a start through
    [POST /streams/start] answers 200 and sends no event at all. *)
Lemma stream_started_not_broadcast :
  emitted (exec (on_start_stream half 7 plain_config) init)
  = [SocketEmit 7 "stream-started" (PStarted "books" plain_config)]
  ∧ ∃ s, post_streams_start half (Some init) plain_config
         = ({| status := 200; body := BStarted "Stream started" plain_config |},
            Some s)
         ∧ emitted s = [].
Proof. split; [evaluate|]. eexists. split; evaluate. Qed.

(** C10 fails on the code: a normal-mode stream started with
    [duration: 0] completes in its first attempt, which [startStream] makes
    before it registers the stream.  [books-complete] is sent without any
    [stream-stopped]; when [startStream] returns the stream is registered,
    listed by [getStreamConfigs], and its interval timer is running.  At its
    first firing (3000) the stream is stopped and completes a second
    time. *)
Lemma completion_before_registration :
  ∃ s s' a,
    run half (started_run zero_config) init = Some s
    ∧ emitted s = [IoEmit "books-complete" (PComplete "books" 0 0)]
    ∧ activeStreams s !! "books" = Some a
    ∧ (getStreamConfigs s).1 !! "books" = Some zero_config
    ∧ ((tid <$> timers s, t_repeat <$> timers s, t_cb <$> timers s)
       = ([intervalId a], [Some 3000], [CbEmitData 0]))
    ∧ step half (Fire (intervalId a)) 3000 s = Some s'
    ∧ emitted s'
      = [IoEmit "books-complete" (PComplete "books" 0 0);
         IoEmit "stream-stopped" (PStopped "books");
         IoEmit "books-complete" (PComplete "books" 0 3000)].
Proof.
  eexists _, _, _. split; [evaluate|]. split; [evaluate|]. split; [evaluate|].
  split; [evaluate|]. split; [evaluate|]. split; evaluate.
Qed.

(** * The further properties on concrete runs *)

(** The eighth book of a server that has drawn nothing yet. *)
Lemma generateBookData_ranges_witness :
  unit_draws half
  ∧ book_id (generateBookData half 7 init).1 = 1007
  ∧ 2000 ≤ publishedYear (generateBookData half 7 init).1 < 2024.
Proof.
  assert (Hu : unit_draws half) by (intros n; split; evaluate).
  split; [exact Hu|].
  destruct (generateBookData_ranges half 7 init Hu) as (H1 & _ & _ & _ & H5 & _).
  split; [exact H1|exact H5].
Defined.


(** An attempt of a stream started with [errorRate: 100] sends no payload
    and schedules none. *)
Lemma rates_are_not_clamped_witness :
  ∃ s c, run half (started_run failing_config) init = Some s
    ∧ closures s !! 0%nat = Some c
    ∧ timers_fresh s ∧ unit_draws half ∧ (100 <= errorRate c)%Q
    ∧ existsb is_data (new_events s (exec (emitData half 0) s)) = false
    ∧ existsb is_broadcast (new_timers s (exec (emitData half 0) s)) = false.
Proof.
  eexists _, _.
  assert (Hu : unit_draws half) by (intros n; split; evaluate).
  split; [evaluate|]. split; [evaluate|].
  match goal with |- timers_fresh ?s ∧ _ ∧ (_ <= errorRate ?c)%Q ∧ _ =>
    assert (Hc : closures s !! 0%nat = Some c) by evaluate;
    assert (Hf : timers_fresh s) by (vm_compute; repeat constructor);
    assert (He : (100 <= errorRate c)%Q) by evaluate;
    destruct (rates_are_not_clamped half 0 c s Hc Hf) as (_ & _ & H3 & _)
  end.
  split; [exact Hf|]. split; [exact Hu|]. split; [exact He|].
  exact (H3 Hu He).
Defined.

(** The second attempt of a stream of interval 1000, made once its first
    payload was broadcast. *)
Lemma fresh_attempt_schedules_witness :
  ∃ s c, run half first_emission_run init = Some s
    ∧ closures s !! 0%nat = Some c
    ∧ timers_fresh s ∧ branch half c s = FreshEmission
    ∧ ∃ data t,
        new_timers s (exec (emitData half 0) s) = [t]
        ∧ t_cb t = CbBroadcast 0 data
        ∧ match data with
          | Book b => book_id b = 1000 + emissionCount c
          | Issue _ => False
          end.
Proof.
  eexists _, _. split; [evaluate|]. split; [evaluate|].
  match goal with |- timers_fresh ?s ∧ branch _ ?c _ = _ ∧ _ =>
    assert (Hc : closures s !! 0%nat = Some c) by evaluate;
    assert (Hf : timers_fresh s) by (vm_compute; repeat constructor);
    assert (Hb : branch half c s = FreshEmission) by evaluate;
    destruct (fresh_attempt_schedules half 0 c s Hc Hf Hb)
      as (data & t & _ & H2 & _ & _ & H5 & _ & _ & _ & H9)
  end.
  split; [exact Hf|]. split; [exact Hb|]. exists data, t.
  split; [exact H2|]. split; [exact H5|].
  destruct data as [b|i]; [exact (proj2 H9)|exact (proj1 H9 eq_refl)].
Defined.

(** The burst of a stream started with [burstMode: true] and the default
    [burstSize]. *)
Lemma burst_schedules_witness :
  ∃ s c, run half (started_run burst_config) init = Some s
    ∧ closures s !! 0%nat = Some c
    ∧ nextTimer (exec (burst 0) s) = (nextTimer s + 3)%nat
    ∧ emitted (exec (burst 0) s) = emitted s.
Proof.
  eexists _, _. split; [evaluate|].
  match goal with |- closures ?s !! _ = Some ?c ∧ _ =>
    assert (Hc : closures s !! 0%nat = Some c) by evaluate;
    destruct (burst_schedules 0 c s Hc) as (_ & H2 & H3 & _)
  end.
  split; [exact Hc|]. split; [exact H2|exact H3].
Defined.

(** Both streams of a server that runs ['books'] and ['issues'] are
    stopped, and no interval timer is left. *)
Lemma stopAllStreams_stops_all_witness :
  ∃ s, run half two_streams_run init = Some s
    ∧ reachable half s
    ∧ size (activeStreams s) = 2%nat
    ∧ activeStreams (exec stopAllStreams s) = ∅
    ∧ length (new_events s (exec stopAllStreams s)) = 2%nat
    ∧ ∀ t, t ∈ timers (exec stopAllStreams s) → t_repeat t = None.
Proof.
  eexists. split; [evaluate|].
  match goal with |- reachable _ ?s ∧ _ =>
    assert (Hr : reachable half s) by (exists two_streams_run; evaluate);
    destruct (stopAllStreams_stops_all half s) as (H1 & _ & _ & _ & H5 & _ & H7)
  end.
  split; [exact Hr|]. split; [evaluate|]. split; [exact H1|].
  split; [etrans; [exact H5|evaluate]|exact (H7 Hr)].
Defined.

(** The two maps of a server that runs ['books'] and ['issues']. *)
Lemma streamConfigs_match_activeStreams_witness :
  ∃ s, run half two_streams_run init = Some s
    ∧ reachable half s
    ∧ streamConfigs s = as_config <$> activeStreams s.
Proof.
  eexists. split; [evaluate|].
  match goal with |- reachable _ ?s ∧ _ =>
    assert (Hr : reachable half s) by (exists two_streams_run; evaluate);
    destruct (streamConfigs_match_activeStreams half s Hr) as [H1 _]
  end.
  split; [exact Hr|exact H1].
Defined.

(** [GET /streams] and the two socket answers on a server that runs one
    stream, named ['__proto__']: the stream is named and counted, and
    [configs] is empty. *)
Lemma running_streams_reported_witness :
  ∃ s, run half (started_run proto_config) init = Some s
    ∧ reachable half s
    ∧ get_streams (Some s)
      = ({| status := 200; body := BStreams ["__proto__"] ∅ 1 |}, Some s)
    ∧ (∃ names,
         get_streams (Some s)
         = ({| status := 200;
               body := BStreams names
                         (delete "__proto__" (as_config <$> activeStreams s))
                         (size (activeStreams s)) |}, Some s)
         ∧ NoDup names)
    ∧ exec (on_get_configs 7) s = exec (on_connection 7) s.
Proof.
  eexists. split; [evaluate|].
  match goal with |- reachable _ ?s ∧ _ =>
    assert (Hr : reachable half s)
      by (exists (started_run proto_config); evaluate);
    destruct (running_streams_reported half 7 s Hr)
      as ((names & Hg & Hnd & _) & _ & H3)
  end.
  split; [exact Hr|]. split; [evaluate|]. split; [|exact H3].
  exists names. split; [exact Hg|exact Hnd].
Defined.

(** The stream ['books'] after its start. *)
Lemma registered_streams_are_running_witness :
  ∃ s a, run half (started_run plain_config) init = Some s
    ∧ reachable half s
    ∧ activeStreams s !! "books" = Some a
    ∧ "books" = default "books" (cfg_streamName (as_config a))
    ∧ ∃ c t, closures s !! as_closure a = Some c
        ∧ t ∈ timers s ∧ tid t = intervalId a.
Proof.
  eexists _, _. split; [evaluate|].
  match goal with |- reachable _ ?s ∧ _ !! _ = Some ?a ∧ _ =>
    assert (Hr : reachable half s) by (exists (started_run plain_config); evaluate);
    assert (Ha : activeStreams s !! "books" = Some a) by evaluate;
    destruct (registered_streams_are_running half "books" a s Hr Ha)
      as (H1 & c & t & Hc & _ & Hin & Hid & _)
  end.
  split; [exact Hr|]. split; [exact Ha|]. split; [exact H1|].
  exists c, t. split; [exact Hc|]. split; [exact Hin|exact Hid].
Defined.

(** Stopping ['books'] on a server that runs ['books'] and ['issues']. *)
Lemma other_streams_untouched_witness :
  ∃ s a', run half two_streams_run init = Some s
    ∧ reachable half s
    ∧ "books" ≠ "issues"
    ∧ activeStreams s !! "issues" = Some a'
    ∧ activeStreams (exec (stopStream "books") s) !! "issues" = Some a'
    ∧ ∃ t, t ∈ timers (exec (stopStream "books") s)
        ∧ tid t = intervalId a' ∧ is_Some (t_repeat t).
Proof.
  eexists _, _. split; [evaluate|].
  match goal with |- reachable _ ?s ∧ _ ∧ _ !! _ = Some ?a ∧ _ =>
    assert (Hr : reachable half s) by (exists two_streams_run; evaluate);
    assert (Hn : "books" ≠ "issues") by evaluate;
    assert (Ha : activeStreams s !! "issues" = Some a) by evaluate;
    destruct (other_streams_untouched half "books" "issues" a s Hr Hn Ha)
      as ((H1 & _ & H3) & _)
  end.
  split; [exact Hr|]. split; [exact Hn|]. split; [exact Ha|].
  split; [exact H1|exact H3].
Defined.

(** The first payload of a stream with [delayVariation: 5000] is due at
    2500; the stream is stopped before, and the payload is sent at 2500. *)
Lemma pending_broadcast_outlives_stop_witness :
  ∃ s t data, run half (started_run delayed_config) init = Some s
    ∧ timers s !! 1%nat = Some t
    ∧ t_cb t = CbBroadcast 0 data
    ∧ reachable half s ∧ t ∈ timers s
    ∧ t ∈ timers (exec (stopStream "books") s)
    ∧ ∃ c s2, step half (Fire (tid t)) 2500 (exec (stopStream "books") s) = Some s2
        ∧ new_events (exec (stopStream "books") s) s2
          = [IoEmit (streamName c) (PData data)].
Proof.
  eexists _, _, _. split; [evaluate|]. split; [evaluate|]. split; [evaluate|].
  match goal with |- reachable _ ?s ∧ ?t ∈ _ ∧ _ =>
    assert (Hr : reachable half s) by (exists (started_run delayed_config); evaluate);
    assert (Hin : t ∈ timers s) by (vm_compute; repeat constructor);
    destruct (pending_broadcast_outlives_stop half "books" 0 _ t s Hr Hin eq_refl)
      as (H1 & c & _ & H)
  end.
  split; [exact Hr|]. split; [exact Hin|]. split; [exact H1|].
  destruct (H 2500) as (s2 & Hs & He & _); [evaluate..|].
  exists c, s2. split; [exact Hs|exact He].
Defined.

(** [POST /presets/nothing] and [POST /presets/basic] on a server that
    runs nothing. *)
Lemma post_presets_starts_witness :
  ("nothing" ∉ presets.*1) ∧ ("nothing" ∉ Object_prototype_keys)
  ∧ post_presets half (Some init) "nothing"
    = ((404, PresetError "Preset not found"), Some init)
  ∧ ∃ preset s',
      ("basic", preset) ∈ presets
      ∧ post_presets half (Some init) "basic"
        = ((200, PresetStarted "Preset 'basic' started" preset), Some s')
      ∧ ∀ key config, (key, config) ∈ preset → streamConfigs s' !! key = Some config.
Proof.
  assert (H1 : "nothing" ∉ presets.*1) by compute_done.
  assert (H2 : "nothing" ∉ Object_prototype_keys) by compute_done.
  destruct (post_presets_starts half "nothing" init) as (H404 & _ & _).
  split; [exact H1|]. split; [exact H2|]. split; [exact (H404 H1 H2)|].
  eexists.
  assert (Hin : ("basic", (presets !!! 0%nat).2) ∈ presets) by (unfold presets; left).
  destruct (post_presets_starts half "basic" init) as (_ & _ & H).
  destruct (H _ Hin) as (s' & Hp & Hs & _).
  exists s'. split; [exact Hin|]. split; [exact Hp|].
  intros key config Hkc. exact (proj2 (proj2 (Hs key config Hkc))).
Defined.
